(** * mirrorer.py: one-way directory mirroring

    A shallow embedding of [src/mirrorer.py] over an explicit model of the
    POSIX file system, and the properties of the reconciler
    ([sync_directories]) stated in the specification.

    Modelling conventions.
    - A [pathlib.Path] is the list of its components below the file-system
      root; a relative path (an element of a scanned path set) is the list
      of its components below the scanned directory.  [a / b] is [a ++ b].
    - The file system is a finite map from canonical absolute paths to
      nodes (directory, regular file, symbolic link).  Every system call
      resolves its argument through the map, following symbolic links the
      way the kernel does, with the kernel's bound on link traversals.
    - Time stamps are integers (the kernel's tick counters); [now] is the
      clock value stamped on what a run creates or modifies.
    - Only structural failures are modelled (missing entry, not a directory,
      is a directory, directory not empty, entry exists, too many links);
      there are no permission errors and no reads that update access times.
    - Output on stdout is not modelled; the number of messages written to
      stderr by the reconciler is. *)

From stdpp Require Import gmap strings list sorting fin_maps.
From Stdlib Require Import ZArith Lia Ascii.

Local Open Scope Z_scope.

(* ===================================================================== *)
(** ** Paths and their string form *)
(* ===================================================================== *)

Abbreviation path := (list string).

(** [len(p.parts)] of a relative path. *)
Definition depth (p : path) : nat := length p.

(** ["/".join(parts)] *)
Fixpoint join_parts (parts : list string) : string :=
  match parts with
  | [] => EmptyString
  | [c] => c
  | c :: rest => c +:+ "/" +:+ join_parts rest
  end.

(** [str(p)] for a relative [Path]: the empty path prints as ["."]. *)
Definition path_str (p : path) : string :=
  match p with
  | [] => "."
  | _ => join_parts p
  end.

(** [s1.startswith(s2)]-style test: [pre] is an initial segment of [s]. *)
Fixpoint starts_with (pre s : string) : bool :=
  match pre, s with
  | EmptyString, _ => true
  | String a pre', String b s' => Ascii.eqb a b && starts_with pre' s'
  | String _ _, EmptyString => false
  end.

(** Python's [pat in s] on [str]: [pat] occurs in [s] as a contiguous,
    case-sensitive substring. *)
Fixpoint str_contains (pat s : string) : bool :=
  starts_with pat s ||
  match s with
  | EmptyString => false
  | String _ s' => str_contains pat s'
  end.

(** [child.relative_to(parent)]: the components of [child] below [parent];
    [None] stands for the [ValueError] raised when [parent] is not a
    leading part of [child]. *)
Fixpoint relative_to (child parent : path) : option path :=
  match parent, child with
  | [], _ => Some child
  | a :: parent', b :: child' =>
      if decide (a = b) then relative_to child' parent' else None
  | _ :: _, [] => None
  end.

(** [is_path_inside(child, parent)] *)
Definition is_path_inside (child parent : path) : bool :=
  match relative_to child parent with
  | Some _ => true
  | None => false
  end.

(** [p.parent] *)
Definition parent_of (p : path) : path := removelast p.

(** Order of [Path] objects: component lists compared lexicographically,
    components by code point. *)
Fixpoint path_leb (p q : path) : bool :=
  match p, q with
  | [], _ => true
  | _ :: _, [] => false
  | a :: p', b :: q' =>
      match String.compare a b with
      | Lt => true
      | Gt => false
      | Eq => path_leb p' q'
      end
  end.

(* ===================================================================== *)
(** ** File-system model *)
(* ===================================================================== *)

Record meta := Meta { m_mtime : Z; m_atime : Z; m_mode : Z }.

Inductive node :=
| NDir (dsize : Z) (m : meta)
| NFile (m : meta) (content : string)
| NLink (m : meta) (target : string).

Abbreviation FS := (gmap path node).

Definition node_meta (n : node) : meta :=
  match n with NDir _ m | NFile m _ | NLink m _ => m end.

(** The fields of an [os.stat_result] the program reads. *)
Definition st_size (n : node) : Z :=
  match n with
  | NDir sz _ => sz
  | NFile _ c => Z.of_nat (String.length c)
  | NLink _ t => Z.of_nat (String.length t)
  end.
Definition st_mtime (n : node) : Z := m_mtime (node_meta n).
Definition st_atime (n : node) : Z := m_atime (node_meta n).
Definition st_mode (n : node) : Z := m_mode (node_meta n).

(** [stat.S_IMODE] *)
Definition S_IMODE (mode : Z) : Z := Z.land mode 4095.

Definition is_dir_node (n : node) : bool :=
  match n with NDir _ _ => true | _ => false end.
Definition is_file_node (n : node) : bool :=
  match n with NFile _ _ => true | _ => false end.
Definition is_link_node (n : node) : bool :=
  match n with NLink _ _ => true | _ => false end.

Definition with_meta (n : node) (m : meta) : node :=
  match n with
  | NDir sz _ => NDir sz m
  | NFile _ c => NFile m c
  | NLink _ t => NLink m t
  end.

(** Size reported for a freshly made directory, and the mode bits given to
    what the program creates. *)
Definition new_dir_size : Z := 4096.
Definition new_dir_mode : Z := 493.
Definition new_link_mode : Z := 511.

(** *** Symbolic-link targets *)

Fixpoint split_slash (acc : string) (s : string) : list string :=
  match s with
  | EmptyString => [acc]
  | String c s' =>
      if Ascii.eqb c "/"%char then acc :: split_slash EmptyString s'
      else split_slash (acc +:+ String c EmptyString) s'
  end.

Definition target_is_absolute (t : string) : bool := starts_with "/" t.

Definition target_parts (t : string) : list string :=
  filter (λ c, c ≠ EmptyString) (split_slash EmptyString t).

(** *** Path resolution *)

Inductive errno := ENOENT | ENOTDIR | ELOOP | EEXIST | EISDIR | ENOTEMPTY.

Inductive resolved :=
| Found (p : path)      (* the canonical path of an existing entry *)
| Missing (p : path)    (* no entry, but the parent directory exists *)
| Failed (e : errno).   (* the resolution itself failed *)

(** Bound on the number of symbolic links followed in one resolution. *)
Definition MAXSYMLINKS : nat := 40.

Fixpoint resolve_from (budget : nat) (fs : FS) (follow : bool)
    (cur : path) (comps : list string) {struct budget} : resolved :=
  (fix walk_comps (cur : path) (comps : list string) {struct comps} : resolved :=
     match comps with
     | [] => Found cur
     | c :: rest =>
         if String.eqb c "." then walk_comps cur rest
         else if String.eqb c ".." then walk_comps (removelast cur) rest
         else
           let p := cur ++ [c] in
           match fs !! p with
           | None => match rest with [] => Missing p | _ => Failed ENOENT end
           | Some (NDir _ _) => walk_comps p rest
           | Some (NFile _ _) =>
               match rest with [] => Found p | _ => Failed ENOTDIR end
           | Some (NLink _ t) =>
               match rest, follow with
               | [], false => Found p
               | _, _ =>
                   match budget with
                   | O => Failed ELOOP
                   | S b =>
                       resolve_from b fs follow
                         (if target_is_absolute t then [] else cur)
                         (target_parts t ++ rest)
                   end
               end
           end
     end) cur comps.

Definition resolve (fs : FS) (follow : bool) (p : path) : resolved :=
  resolve_from MAXSYMLINKS fs follow [] p.

(** [os.stat] and [os.lstat]; [None] stands for the [OSError]. *)
Definition stat (fs : FS) (p : path) : option node :=
  match resolve fs true p with
  | Found q => fs !! q
  | _ => None
  end.

Definition lstat (fs : FS) (p : path) : option node :=
  match resolve fs false p with
  | Found q => fs !! q
  | _ => None
  end.

(** [Path.exists], [Path.is_dir], [Path.is_symlink] *)
Definition path_exists (fs : FS) (p : path) : bool :=
  match stat fs p with Some _ => true | None => false end.

Definition is_dir (fs : FS) (p : path) : bool :=
  match stat fs p with Some n => is_dir_node n | None => false end.

Definition is_symlink (fs : FS) (p : path) : bool :=
  match lstat fs p with Some n => is_link_node n | None => false end.

(** [os.readlink] *)
Definition readlink (fs : FS) (p : path) : option string :=
  match lstat fs p with
  | Some (NLink _ t) => Some t
  | _ => None
  end.

(** Names of the entries of the directory at canonical path [d]. *)
Definition child_name (d : path) (p : path) : option string :=
  match last p with
  | Some c => if decide (removelast p = d) then Some c else None
  | None => None
  end.

Definition children (fs : FS) (d : path) : list string :=
  omap (child_name d) (elements (dom fs)).

(** *** Mutating system calls

    Each returns the new file system, or the [errno] of the [OSError]. *)

(** Adding or removing an entry stamps the containing directory. *)
Definition touch (now : Z) (d : path) (fs : FS) : FS :=
  alter (λ n, with_meta n (Meta now (st_atime n) (st_mode n))) d fs.

(** [os.mkdir] *)
Definition mkdir (now : Z) (fs : FS) (p : path) : FS + errno :=
  match resolve fs false p with
  | Missing q =>
      inl (<[q := NDir new_dir_size (Meta now now new_dir_mode)]>
             (touch now (removelast q) fs))
  | Found _ => inr EEXIST
  | Failed e => inr e
  end.

(** [Path.mkdir(parents=True, exist_ok=True)], by recursion on the reversed
    component list: [os.mkdir]; on [FileNotFoundError] make the parent the
    same way and retry once; on another [OSError] succeed iff the path is
    a directory already.  The flag tells whether the call returned without
    raising. *)
Fixpoint mkdir_parents_rev (now : Z) (fs : FS) (rp : list string) : FS * bool :=
  match mkdir now fs (reverse rp) with
  | inl fs' => (fs', true)
  | inr ENOENT =>
      match rp with
      | [] => (fs, false)
      | _ :: rp' =>
          let '(fs1, ok) := mkdir_parents_rev now fs rp' in
          if ok then
            match mkdir now fs1 (reverse rp) with
            | inl fs2 => (fs2, true)
            | inr ENOENT => (fs1, false)
            | inr _ => (fs1, is_dir fs1 (reverse rp))
            end
          else (fs1, false)
      end
  | inr _ => (fs, is_dir fs (reverse rp))
  end.

Definition mkdir_parents (now : Z) (fs : FS) (p : path) : FS * bool :=
  mkdir_parents_rev now fs (reverse p).

(** [os.rmdir]: only an empty directory (never through a final link). *)
Definition rmdir (now : Z) (fs : FS) (p : path) : FS + errno :=
  match resolve fs false p with
  | Found q =>
      match fs !! q with
      | Some (NDir _ _) =>
          match children fs q, q with
          | [], _ :: _ => inl (delete q (touch now (removelast q) fs))
          | _, _ => inr ENOTEMPTY
          end
      | _ => inr ENOTDIR
      end
  | Missing _ => inr ENOENT
  | Failed e => inr e
  end.

(** [os.unlink]: a file or a link (never a directory). *)
Definition unlink (now : Z) (fs : FS) (p : path) : FS + errno :=
  match resolve fs false p with
  | Found q =>
      match fs !! q with
      | Some (NFile _ _) | Some (NLink _ _) =>
          inl (delete q (touch now (removelast q) fs))
      | _ => inr EISDIR
      end
  | Missing _ => inr ENOENT
  | Failed e => inr e
  end.

(** [os.symlink(target, p)] *)
Definition symlink (now : Z) (fs : FS) (target : string) (p : path) : FS + errno :=
  match resolve fs false p with
  | Missing q =>
      inl (<[q := NLink (Meta now now new_link_mode) target]>
             (touch now (removelast q) fs))
  | Found _ => inr EEXIST
  | Failed e => inr e
  end.

(** [os.utime(p, (atime, mtime))] and [os.chmod(p, mode)], both following
    links. *)
Definition utime (fs : FS) (p : path) (atime mtime : Z) : FS + errno :=
  match resolve fs true p with
  | Found q => inl (alter (λ n, with_meta n (Meta mtime atime (st_mode n))) q fs)
  | Missing _ => inr ENOENT
  | Failed e => inr e
  end.

Definition chmod (fs : FS) (p : path) (mode : Z) : FS + errno :=
  match resolve fs true p with
  | Found q =>
      inl (alter (λ n, with_meta n (Meta (st_mtime n) (st_atime n) mode)) q fs)
  | Missing _ => inr ENOENT
  | Failed e => inr e
  end.

(** Mode bits of a file created by [open(..., 'wb')]. *)
Definition new_file_mode : Z := 420.

(** [shutil.copyfile] followed by [shutil.copystat], both following links:
    read the regular file behind [src]; open [dst] for writing, creating
    it when its last component is absent (or dangles) and truncating it
    otherwise; then give it the mode bits and time stamps of [src]. *)
Definition copyfile_copystat (now : Z) (fs : FS) (src dst : path) : FS + errno :=
  match resolve fs true src with
  | Found s =>
      match fs !! s with
      | Some (NFile sm content) =>
          let copy := NFile (Meta (m_mtime sm) (m_atime sm) (S_IMODE (m_mode sm))) content in
          match resolve fs true dst with
          | Found d =>
              if decide (d = s) then inr EEXIST
              else
                match fs !! d with
                | Some (NFile _ _) => inl (<[d := copy]> fs)
                | _ => inr EISDIR
                end
          | Missing d => inl (<[d := copy]> (touch now (removelast d) fs))
          | Failed e => inr e
          end
      | _ => inr EISDIR
      end
  | Missing _ => inr ENOENT
  | Failed e => inr e
  end.

(** [shutil.copy2(src, dst)]: a directory as [dst] receives the file under
    the base name of [src]. *)
Definition copy2 (now : Z) (fs : FS) (src dst : path) : FS + errno :=
  let dst' :=
    if is_dir fs dst then
      match last src with Some name => dst ++ [name] | None => dst end
    else dst in
  copyfile_copystat now fs src dst'.

(** *** [os.walk(top, followlinks=...)]

    Top-down: the entries of [top] are split into directories (as
    [DirEntry.is_dir] sees them, through links) and the rest; then every
    listed directory is walked, links only when [followlinks].  A [top]
    that cannot be listed yields nothing.  [fuel] bounds the nesting. *)
Definition scandir (fs : FS) (top : path) : option (list string) :=
  match resolve fs true top with
  | Found q =>
      match fs !! q with
      | Some (NDir _ _) => Some (children fs q)
      | _ => None
      end
  | _ => None
  end.

Fixpoint walk (fuel : nat) (fs : FS) (followlinks : bool) (top : path)
    : list (path * list string * list string) :=
  match fuel with
  | O => []
  | S fuel' =>
      match scandir fs top with
      | None => []
      | Some names =>
          let dirs := filter (λ c, is_dir fs (top ++ [c]) = true) names in
          let nondirs := filter (λ c, is_dir fs (top ++ [c]) = false) names in
          (top, dirs, nondirs) ::
          concat ((λ d, if followlinks || negb (is_symlink fs (top ++ [d]))
                        then walk fuel' fs followlinks (top ++ [d])
                        else []) <$> dirs)
      end
  end.

(** No real directory is nested deeper than the longest path of the map,
    and a walked path crosses at most [MAXSYMLINKS] links. *)
Definition max_depth (fs : FS) : nat := max_list (length <$> elements (dom fs)).

Definition walk_fuel (fs : FS) : nat :=
  S (S MAXSYMLINKS * S (max_depth fs)).

Definition os_walk (fs : FS) (top : path) (followlinks : bool) :=
  walk (walk_fuel fs) fs followlinks top.

(* ===================================================================== *)
(** ** The program *)
(* ===================================================================== *)

(** [get_relative_paths(root, follow_symlinks)]; [scan_step] is the body
    of its loop over the triples of [os.walk]. *)
Definition scan_step (root : path) (paths : gset path)
    (triple : path * list string * list string) : gset path :=
  let '(dirpath, dirnames, filenames) := triple in
  match relative_to dirpath root with
  | Some rel_dir =>
      let paths :=
        if decide (rel_dir ≠ []) then paths ∪ {[ rel_dir ]} else paths in
      foldl (λ (paths : gset path) filename, paths ∪ {[ rel_dir ++ [filename] ]})
            paths filenames
  | None => paths   (* ValueError: [os.walk] only yields paths below [root] *)
  end.

Definition get_relative_paths (fs : FS) (root : path) (follow_symlinks : bool)
    : gset path :=
  foldl (scan_step root) ∅ (os_walk fs root follow_symlinks).

(** [should_copy(src, dst, time_tolerance)]; the [except OSError] branch is
    the one where an [lstat] fails. *)
Definition should_copy (fs : FS) (src dst : path) (time_tolerance : Z) : bool :=
  if negb (path_exists fs dst) then true
  else if is_symlink fs dst then true
  else
    match lstat fs src, lstat fs dst with
    | Some src_stat, Some dst_stat =>
        if decide (st_size src_stat ≠ st_size dst_stat) then true
        else if decide (Z.abs (st_mtime src_stat - st_mtime dst_stat) > time_tolerance)
             then true
             else false
    | _, _ => true
    end.

(** [copy_with_metadata(src, dst)].  The result carries the file system
    reached, and whether the call returned ([true]) or re-raised the
    [OSError] after reporting it ([false]). *)
Definition copy_with_metadata (now : Z) (fs : FS) (src dst : path) : FS * bool :=
  if is_symlink fs src then
    let removed :=
      if path_exists fs dst || is_symlink fs dst then unlink now fs dst
      else inl fs in
    match removed with
    | inr _ => (fs, false)
    | inl fs1 =>
        match readlink fs1 src with
        | None => (fs1, false)
        | Some link_target =>
            match symlink now fs1 link_target dst with
            | inl fs2 => (fs2, true)
            | inr _ => (fs1, false)
            end
        end
    end
  else
    match copy2 now fs src dst with
    | inr _ => (fs, false)
    | inl fs1 =>
        match stat fs1 src with
        | None => (fs1, false)
        | Some src_stat =>
            let fs2 :=
              match utime fs1 dst (st_atime src_stat) (st_mtime src_stat) with
              | inl fs' => fs'
              | inr _ => fs1
              end in
            let fs3 :=
              match chmod fs2 dst (S_IMODE (st_mode src_stat)) with
              | inl fs' => fs'
              | inr _ => fs2
              end in
            (fs3, true)
        end
    end.

(** *** [sync_directories] *)

Inductive outcome :=
| Exit (code : Z)
| Done (created_dirs copied_count deleted_count failed_copies : nat).

(** What a call leaves behind: the file system, the number of error
    reports written to stderr, and how the call ended. *)
Record run := Run { run_fs : FS; run_errors : nat; run_result : outcome }.

(** [any(pat in str(p) for pat in exclude_patterns)] *)
Definition excluded (exclude_patterns : gset string) (p : path) : bool :=
  existsb (λ pat, str_contains pat (path_str p)) (elements exclude_patterns).

(** The exclusion step; [None] and the empty set are both falsy. *)
Definition filter_source (exclude_patterns : option (gset string))
    (source_paths : gset path) : gset path :=
  match exclude_patterns with
  | None => source_paths
  | Some pats =>
      if decide (pats = ∅) then source_paths
      else filter (λ p, excluded pats p = false) source_paths
  end.

Definition paths_to_delete (dest_paths source_paths : gset path) : gset path :=
  dest_paths ∖ source_paths.

(** [sorted(paths_to_delete, key=lambda p: len(p.parts), reverse=True)] *)
Definition deeper_first (p q : path) : Prop := (depth q ≤ depth p)%nat.

#[global] Instance deeper_first_dec : RelDecision deeper_first.
Proof. intros p q. unfold deeper_first. apply _. Defined.

Definition sorted_deletes (to_delete : gset path) : list path :=
  merge_sort deeper_first (elements to_delete).

(** [sorted(source_paths)] *)
Definition path_le (p q : path) : Prop := path_leb p q = true.

#[global] Instance path_le_dec : RelDecision path_le.
Proof. intros p q. unfold path_le. apply _. Defined.

Definition sorted_paths (paths : gset path) : list path :=
  merge_sort path_le (elements paths).

(** State of the delete loop. *)
Record del_state := DelState {
  ds_fs : FS; ds_deleted : nat; ds_errors : nat }.

(** One iteration of the delete loop (lines 207-234). *)
Definition delete_step (now : Z) (destination : path) (dry_run : bool)
    (st : del_state) (rel_path : path) : del_state :=
  let fs := ds_fs st in
  let dst_path := destination ++ rel_path in
  if path_exists fs dst_path || is_symlink fs dst_path then
    if dry_run then
      DelState fs (S (ds_deleted st)) (ds_errors st)
    else if is_dir fs dst_path && negb (is_symlink fs dst_path) then
      match rmdir now fs dst_path with
      | inl fs' => DelState fs' (S (ds_deleted st)) (ds_errors st)
      | inr _ => st                       (* not empty: skipped *)
      end
    else
      match unlink now fs dst_path with
      | inl fs' => DelState fs' (S (ds_deleted st)) (ds_errors st)
      | inr _ => DelState fs (ds_deleted st) (S (ds_errors st))
      end
  else st.

Definition delete_phase (now : Z) (destination : path) (dry_run : bool)
    (fs : FS) (to_delete : gset path) : del_state :=
  foldl (delete_step now destination dry_run) (DelState fs 0 0)
        (sorted_deletes to_delete).

(** State of the copy loop. *)
Record copy_state := CopyState {
  cs_fs : FS;
  cs_created : nat;
  cs_copied : nat;
  cs_failed : nat;
  cs_dirs : list (path * path);     (* directories_to_update *)
  cs_errors : nat }.

(** One iteration of the copy loop (lines 247-292). *)
Definition copy_step (now : Z) (source destination : path) (dry_run : bool)
    (time_tolerance : Z) (st : copy_state) (rel_path : path) : copy_state :=
  let fs := cs_fs st in
  let src_path := source ++ rel_path in
  let dst_path := destination ++ rel_path in
  if is_dir fs src_path && negb (is_symlink fs src_path) then
    let st1 :=
      if negb (path_exists fs dst_path) then
        if dry_run then
          CopyState fs (S (cs_created st)) (cs_copied st) (cs_failed st)
                    (cs_dirs st) (cs_errors st)
        else
          match mkdir_parents now fs dst_path with
          | (fs', true) =>
              CopyState fs' (S (cs_created st)) (cs_copied st) (cs_failed st)
                        (cs_dirs st) (cs_errors st)
          | (fs', false) =>
              CopyState fs' (cs_created st) (cs_copied st) (cs_failed st)
                        (cs_dirs st) (S (cs_errors st))
          end
      else st in
    if negb dry_run && path_exists (cs_fs st1) dst_path then
      CopyState (cs_fs st1) (cs_created st1) (cs_copied st1) (cs_failed st1)
                (cs_dirs st1 ++ [(src_path, dst_path)]) (cs_errors st1)
    else st1
  else
    if should_copy fs src_path dst_path time_tolerance then
      if dry_run then
        CopyState fs (cs_created st) (S (cs_copied st)) (cs_failed st)
                  (cs_dirs st) (cs_errors st)
      else
        let '(fs1, ok1) :=
          if negb (path_exists fs (parent_of dst_path))
          then mkdir_parents now fs (parent_of dst_path)
          else (fs, true) in
        if ok1 then
          match copy_with_metadata now fs1 src_path dst_path with
          | (fs2, true) =>
              CopyState fs2 (cs_created st) (S (cs_copied st)) (cs_failed st)
                        (cs_dirs st) (cs_errors st)
          | (fs2, false) =>
              CopyState fs2 (cs_created st) (cs_copied st) (S (cs_failed st))
                        (cs_dirs st) (S (S (cs_errors st)))
          end
        else
          CopyState fs1 (cs_created st) (cs_copied st) (S (cs_failed st))
                    (cs_dirs st) (S (cs_errors st))
    else st.

Definition copy_phase (now : Z) (source destination : path) (dry_run : bool)
    (time_tolerance : Z) (fs : FS) (errors : nat) (source_paths : gset path)
    : copy_state :=
  foldl (copy_step now source destination dry_run time_tolerance)
        (CopyState fs 0 0 0 [] errors) (sorted_paths source_paths).

(** Re-apply mode bits and time stamps of a source directory
    (lines 298-304 and 308-313); any [OSError] ends the attempt. *)
Definition fix_metadata (fs : FS) (src_path dst_path : path) : FS :=
  match stat fs src_path with
  | None => fs
  | Some src_stat =>
      match chmod fs dst_path (S_IMODE (st_mode src_stat)) with
      | inr _ => fs
      | inl fs1 =>
          match utime fs1 dst_path (st_atime src_stat) (st_mtime src_stat) with
          | inl fs2 => fs2
          | inr _ => fs1
          end
      end
  end.

Definition fixup_phase (source destination : path) (dry_run : bool)
    (fs : FS) (dirs : list (path * path)) : FS :=
  let fs1 :=
    if negb dry_run
    then foldl (λ fs '(src_path, dst_path), fix_metadata fs src_path dst_path) fs dirs
    else fs in
  if negb dry_run && path_exists fs1 destination
  then fix_metadata fs1 source destination
  else fs1.

Definition sync_directories (now : Z) (fs : FS) (source destination : path)
    (dry_run : bool) (exclude_patterns : option (gset string))
    (time_tolerance : Z) : run :=
  if negb (path_exists fs source) then Run fs 1 (Exit 1)
  else if negb (is_dir fs source) then Run fs 1 (Exit 1)
  else if decide (destination = source) then Run fs 1 (Exit 1)
  else if is_path_inside destination source then Run fs 1 (Exit 1)
  else if is_path_inside source destination then Run fs 1 (Exit 1)
  else
    let '(fs0, made) :=
      if negb (path_exists fs destination) && negb dry_run
      then mkdir_parents now fs destination
      else (fs, true) in
    if negb made then Run fs0 1 (Exit 1)
    else
      let source_paths := get_relative_paths fs0 source false in
      let dest_paths :=
        if path_exists fs0 destination
        then get_relative_paths fs0 destination false
        else ∅ in
      let source_paths := filter_source exclude_patterns source_paths in
      let d := delete_phase now destination dry_run fs0
                 (paths_to_delete dest_paths source_paths) in
      let c := copy_phase now source destination dry_run time_tolerance
                 (ds_fs d) (ds_errors d) source_paths in
      let fs3 := fixup_phase source destination dry_run (cs_fs c) (cs_dirs c) in
      Run fs3 (cs_errors c)
          (Done (cs_created c) (cs_copied c) (ds_deleted d) (cs_failed c)).

(* ===================================================================== *)
(** ** Vocabulary of the statements *)
(* ===================================================================== *)

(** [pat] occurs in [s]: [s] is [a ++ pat ++ b] for some [a] and [b]. *)
Definition occurs_in (pat s : string) : Prop :=
  ∃ a b, s = a +:+ pat +:+ b.

(** The patterns in force. *)
Definition patterns_of (exclude_patterns : option (gset string)) : gset string :=
  default ∅ exclude_patterns.

(** What a dry run announces for a relative path: a deletion (line 209), a
    directory creation (lines 251-252), a copy (lines 273-274). *)
Definition planned_delete (fs : FS) (destination p : path) : bool :=
  path_exists fs (destination ++ p) || is_symlink fs (destination ++ p).

Definition planned_mkdir (fs : FS) (source destination p : path) : bool :=
  (is_dir fs (source ++ p) && negb (is_symlink fs (source ++ p)))
  && negb (path_exists fs (destination ++ p)).

Definition planned_copy (fs : FS) (source destination : path) (time_tolerance : Z)
    (p : path) : bool :=
  negb (is_dir fs (source ++ p) && negb (is_symlink fs (source ++ p)))
  && should_copy fs (source ++ p) (destination ++ p) time_tolerance.

(** Number of paths of a set that satisfy a test. *)
Definition count_paths (f : path → bool) (paths : gset path) : nat :=
  length (filter (λ p, f p = true) (elements paths)).

(** The two trees differ at some relative path (kind, content, link target
    or metadata of the entry found there). *)
Definition trees_differ (fs : FS) (source destination : path) : Prop :=
  ∃ rel, lstat fs (source ++ rel) ≠ lstat fs (destination ++ rel).

(** A run that returned counters with some planned operation. *)
Definition reports_work (o : outcome) : Prop :=
  match o with
  | Done created copied deleted _ => (0 < created + copied + deleted)%nat
  | Exit _ => False
  end.

(** A call that returned its counters, counted no failed copy and wrote no
    error report. *)
Definition succeeded (r : run) : Prop :=
  run_errors r = 0%nat
  ∧ ∃ created copied deleted, run_result r = Done created copied deleted 0.

(** The destination mirrors the source: a scan of the destination gives the
    kept paths of the source, and every kept entry that is not a directory
    has, at the destination, an entry of its size whose modification time
    lies within the tolerance. *)
Definition converged (fs : FS) (source destination : path)
    (exclude_patterns : option (gset string)) (time_tolerance : Z) : Prop :=
  get_relative_paths fs destination false
    = filter_source exclude_patterns (get_relative_paths fs source false)
  ∧ ∀ (rel : path) (a : node),
      rel ∈ filter_source exclude_patterns (get_relative_paths fs source false) →
      lstat fs (source ++ rel) = Some a → is_dir_node a = false →
      ∃ b, lstat fs (destination ++ rel) = Some b
           ∧ st_size b = st_size a
           ∧ Z.abs (st_mtime a - st_mtime b) <= time_tolerance.

(** A call that returned its counters with nothing created, copied or
    deleted. *)
Definition nothing_done (o : outcome) : Prop :=
  match o with
  | Done created copied deleted _ =>
      created = 0%nat ∧ copied = 0%nat ∧ deleted = 0%nat
  | Exit _ => False
  end.

(** *** Well-formed file systems without links

    The statements about whole runs are made for file systems in which
    every entry sits in a directory and has a proper name, and which hold
    no symbolic link; there a path names the entry stored at it. *)

Definition valid_name (c : string) : bool :=
  negb (String.eqb c ".") && negb (String.eqb c "..").

Definition valid_path (p : path) : bool := forallb valid_name p.

Definition dir_at (fs : FS) (p : path) : bool :=
  match fs !! p with Some n => is_dir_node n | None => false end.

Definition wf_entry (fs : FS) (p : path) : bool :=
  match last p with
  | None => true
  | Some c => valid_name c && dir_at fs (removelast p)
  end.

Definition well_formed (fs : FS) : bool :=
  dir_at fs [] && forallb (wf_entry fs) (elements (dom fs)).

Definition no_links (fs : FS) : bool :=
  forallb (λ p, match fs !! p with Some n => negb (is_link_node n) | None => true end)
          (elements (dom fs)).

(** All leading parts of a path, the path included. *)
Definition prefixes (p : path) : list path :=
  (λ n, take n p) <$> seq 0 (S (length p)).

(** Every leading part of the destination that exists is a directory. *)
Definition dest_ok (fs : FS) (destination : path) : bool :=
  forallb (λ q, match fs !! q with Some n => is_dir_node n | None => true end)
          (prefixes destination).

Definition same_kind (a b : node) : bool :=
  match a, b with
  | NDir _ _, NDir _ _ | NFile _ _, NFile _ _ | NLink _ _, NLink _ _ => true
  | _, _ => false
  end.

(** Wherever a kept source path also exists at the destination, the two
    entries are of the same kind. *)
Definition kinds_agree (fs : FS) (source destination : path) (kept : gset path)
    : bool :=
  forallb (λ rel, match fs !! (source ++ rel), fs !! (destination ++ rel) with
                  | Some a, Some b => same_kind a b
                  | _, _ => true
                  end)
          (elements kept).

(** Two states of an entry that differ at most in the metadata of a
    directory. *)
Definition same_entry (a b : option node) : Prop :=
  match a, b with
  | None, None => True
  | Some (NDir _ _), Some (NDir _ _) => True
  | Some x, Some y => x = y
  | _, _ => False
  end.

(** The inputs for which a whole run is specified. *)
Definition mirror_inputs (fs : FS) (source destination : path)
    (exclude_patterns : option (gset string)) : bool :=
  well_formed fs && no_links fs
  && valid_path source && valid_path destination
  && dir_at fs source
  && negb (is_path_inside destination source)
  && negb (is_path_inside source destination)
  && dest_ok fs destination
  && kinds_agree fs source destination
       (filter_source exclude_patterns (get_relative_paths fs source false)).

(** A file of the source and its counterpart agree in size, and in
    modification time within the tolerance. *)
Definition file_synced (time_tolerance : Z) (a b : node) : Prop :=
  is_file_node b = true ∧ st_size b = st_size a
  ∧ Z.abs (st_mtime a - st_mtime b) ≤ time_tolerance.

(** Invariant of the copy loop on a link-free tree: [ref] is the file
    system the run started from, [kept] the kept source paths, [done] the
    paths processed so far and [dirs] the directories recorded for the
    metadata pass. *)
Definition copy_invariant (source destination : path) (time_tolerance : Z)
    (ref : FS) (kept : gset path) (fs : FS) (done : list path)
    (dirs : list (path * path)) : Prop :=
  well_formed fs = true ∧ no_links fs = true
  ∧ (∀ q, source `prefix_of` q → fs !! q = ref !! q)
  ∧ dir_at fs destination = true
  ∧ (∀ rel, rel ≠ [] → is_Some (fs !! (destination ++ rel)) → rel ∈ kept)
  ∧ (∀ rel a b, rel ∈ kept → ref !! (source ++ rel) = Some a →
       fs !! (destination ++ rel) = Some b → same_kind a b = true)
  ∧ (∀ rel a, rel ∈ done → ref !! (source ++ rel) = Some a →
       ∃ b, fs !! (destination ++ rel) = Some b ∧
            (is_file_node a = true → file_synced (Z.max 0 time_tolerance) a b))
  ∧ Forall (λ sd, ∃ rel, rel ∈ kept ∧ sd = (source ++ rel, destination ++ rel)
                          ∧ dir_at ref (source ++ rel) = true) dirs.

(** The destination mirrors the kept part of the source: same paths, same
    kinds, files in step within the tolerance; the source is as in [ref]. *)
Definition mirrored (source destination : path) (time_tolerance : Z)
    (ref : FS) (kept : gset path) (fs : FS) : Prop :=
  well_formed fs = true ∧ no_links fs = true
  ∧ (∀ q, source `prefix_of` q → fs !! q = ref !! q)
  ∧ dir_at fs destination = true
  ∧ (∀ rel, rel ≠ [] → (is_Some (fs !! (destination ++ rel)) ↔ rel ∈ kept))
  ∧ (∀ rel a, rel ∈ kept → ref !! (source ++ rel) = Some a →
       ∃ b, fs !! (destination ++ rel) = Some b ∧ same_kind a b = true ∧
            (is_file_node a = true → file_synced time_tolerance a b)).

(** The entry at canonical path [q] is gone after the step, and nothing
    else is: one more deletion is counted and no error is reported. *)
Definition entry_removed (now : Z) (q : path) (st st' : del_state) : Prop :=
  ds_fs st' = delete q (touch now (removelast q) (ds_fs st))
  ∧ ds_fs st' !! q = None
  ∧ dom (ds_fs st') = dom (ds_fs st) ∖ {[ q ]}
  ∧ ds_deleted st' = S (ds_deleted st)
  ∧ ds_errors st' = ds_errors st.

(* ===================================================================== *)
(** ** Sample file systems *)
(* ===================================================================== *)

Definition sample_dir : node := NDir 4096 (Meta 100 100 493).

(** [/s/f] and [/d/f]: same size, modification times one tick apart. *)
Definition fs_pair : FS :=
  list_to_map
    [ ([], sample_dir);
      (["s"], sample_dir); (["s"; "f"], NFile (Meta 100 100 420) "hello");
      (["d"], sample_dir); (["d"; "f"], NFile (Meta 101 100 420) "world") ].

(** [/r] holds a directory [d], a file [d/x] and a link [l] to [d]. *)
Definition fs_linked_dir : FS :=
  list_to_map
    [ ([], sample_dir);
      (["r"], sample_dir);
      (["r"; "d"], sample_dir);
      (["r"; "d"; "x"], NFile (Meta 100 100 420) "x");
      (["r"; "l"], NLink (Meta 100 100 511) "d") ].

(** [/s/f] and [/d/f]: same size and time stamps, different bytes. *)
Definition fs_same_stamp : FS :=
  list_to_map
    [ ([], sample_dir);
      (["s"], sample_dir); (["s"; "f"], NFile (Meta 100 100 420) "aaaa");
      (["d"], sample_dir); (["d"; "f"], NFile (Meta 100 100 420) "bbbb") ].

(** A source [/s] and a destination [/d] that has drifted: [a/b.txt] is in
    step (same size, one tick apart), [c.txt] is missing, [a/old.txt] and
    the directory [junk] with its file are extraneous. *)
Definition fs_drifted : FS :=
  list_to_map
    [ ([], sample_dir);
      (["s"], sample_dir);
      (["s"; "a"], sample_dir);
      (["s"; "a"; "b.txt"], NFile (Meta 100 100 420) "hello");
      (["s"; "c.txt"], NFile (Meta 200 200 420) "sea");
      (["d"], sample_dir);
      (["d"; "a"], sample_dir);
      (["d"; "a"; "b.txt"], NFile (Meta 101 100 420) "hullo");
      (["d"; "a"; "old.txt"], NFile (Meta 50 50 420) "old");
      (["d"; "junk"], sample_dir);
      (["d"; "junk"; "x"], NFile (Meta 50 50 420) "x") ].

(** [/s/p] is a regular file where [/d/p] is an (empty) directory. *)
Definition fs_kind_clash : FS :=
  list_to_map
    [ ([], sample_dir);
      (["s"], sample_dir); (["s"; "p"], NFile (Meta 100 100 420) "hello");
      (["d"], sample_dir); (["d"; "p"], sample_dir) ].

(** [/s] holds a file and a link to it; [/d] is empty. *)
Definition fs_source_link : FS :=
  list_to_map
    [ ([], sample_dir);
      (["s"], sample_dir);
      (["s"; "f"], NFile (Meta 100 100 420) "hello");
      (["s"; "l"], NLink (Meta 100 100 511) "f");
      (["d"], sample_dir) ].


(* ===================================================================== *)
(** ** Strings: what the substring test decides *)
(* ===================================================================== *)

Section strings.
Implicit Types s t pat : string.

Lemma append_nil_r s : s +:+ String.EmptyString = s.
Proof. induction s as [|c s IH]; simpl; [done|]. unfold String.app in *. simpl. by rewrite IH. Qed.

Lemma append_assoc s t u : (s +:+ t) +:+ u = s +:+ (t +:+ u).
Proof.
  induction s as [|c s IH]; [done|].
  unfold String.app in *. simpl. by rewrite IH.
Qed.

Lemma append_cons c s t : String c s +:+ t = String c (s +:+ t).
Proof. done. Qed.

Lemma starts_with_spec pre s :
  starts_with pre s = true ↔ ∃ r, s = pre +:+ r.
Proof.
  revert s. induction pre as [|a pre IH]; intros s; simpl.
  - split; [intros _; by exists s|done].
  - destruct s as [|b s].
    + split; [done|]. intros [r Hr]. discriminate Hr.
    + rewrite andb_true_iff, Ascii.eqb_eq, IH. split.
      * intros [-> [r ->]]. by exists r.
      * intros [r Hr]. rewrite append_cons in Hr. injection Hr as -> ->. eauto.
Qed.

Lemma str_contains_spec pat s :
  str_contains pat s = true ↔ occurs_in pat s.
Proof.
  unfold occurs_in. induction s as [|c s IH]; simpl.
  - rewrite orb_false_r, starts_with_spec. split.
    + intros [r Hr]. by exists String.EmptyString, r.
    + intros [[|x a] [b Hb]]; [by exists b|discriminate Hb].
  - rewrite orb_true_iff, starts_with_spec, IH. split.
    + intros [[r Hr]|(a & b & ->)].
      * by exists String.EmptyString, r.
      * by exists (String c a), b.
    + intros [[|x a] [b Hb]].
      * left. by exists b.
      * right. rewrite append_cons in Hb. injection Hb as -> ->. by exists a, b.
Qed.

Lemma occurs_in_app_r pat s t : occurs_in pat s → occurs_in pat (s +:+ t).
Proof.
  intros (a & b & ->). exists a, (b +:+ t).
  by rewrite !append_assoc.
Qed.

Lemma str_contains_app_r pat s t :
  str_contains pat s = true → str_contains pat (s +:+ t) = true.
Proof. rewrite !str_contains_spec. apply occurs_in_app_r. Qed.
End strings.

(** The string form of a path below an ancestor extends the ancestor's
    string form by a separator and the remaining components. *)
Lemma join_parts_app (p s : path) :
  p ≠ [] → s ≠ [] → join_parts (p ++ s) = join_parts p +:+ "/" +:+ join_parts s.
Proof.
  induction p as [|c p IH]; [done|]. intros _ Hs.
  destruct p as [|c' p].
  - destruct s as [|d s]; [done|]. done.
  - change ((c :: c' :: p) ++ s) with (c :: ((c' :: p) ++ s)).
    change (join_parts (c :: (c' :: p) ++ s))
      with (c +:+ "/" +:+ join_parts ((c' :: p) ++ s)).
    rewrite IH by done.
    change (join_parts (c :: c' :: p)) with (c +:+ "/" +:+ join_parts (c' :: p)).
    by rewrite !append_assoc.
Qed.

Lemma path_str_app (p s : path) :
  p ≠ [] → s ≠ [] → path_str (p ++ s) = path_str p +:+ "/" +:+ path_str s.
Proof.
  intros Hp Hs. unfold path_str.
  destruct p as [|c p]; [done|]. destruct s as [|d s]; [done|].
  change ((c :: p) ++ d :: s) with (c :: (p ++ d :: s)).
  by apply (join_parts_app (c :: p) (d :: s)).
Qed.

(* ===================================================================== *)
(** ** Exclusion and the deletion candidates *)
(* ===================================================================== *)

Lemma excluded_spec (pats : gset string) (p : path) :
  excluded pats p = true ↔ ∃ pat, pat ∈ pats ∧ occurs_in pat (path_str p).
Proof.
  unfold excluded. rewrite existsb_exists. split.
  - intros (pat & Hin & Hc). exists pat. split.
    + apply elem_of_elements. by apply list_elem_of_In.
    + by apply str_contains_spec.
  - intros (pat & Hin & Hc). exists pat. split.
    + apply list_elem_of_In. by apply elem_of_elements.
    + by apply str_contains_spec.
Qed.

Lemma excluded_false_spec (pats : gset string) (p : path) :
  excluded pats p = false ↔ ∀ pat, pat ∈ pats → ¬ occurs_in pat (path_str p).
Proof.
  rewrite <-not_true_iff_false, excluded_spec. naive_solver.
Qed.

Lemma excluded_empty (p : path) : excluded ∅ p = false.
Proof. apply excluded_false_spec. set_solver. Qed.

Lemma elem_of_filter_source (xp : option (gset string)) (src : gset path) p :
  p ∈ filter_source xp src ↔
  p ∈ src ∧ match xp with Some pats => excluded pats p = false | None => True end.
Proof.
  unfold filter_source. destruct xp as [pats|]; [|naive_solver].
  case_decide as He.
  - subst. rewrite excluded_empty. naive_solver.
  - rewrite elem_of_filter. naive_solver.
Qed.

Lemma filter_source_subseteq (xp : option (gset string)) (src : gset path) :
  filter_source xp src ⊆ src.
Proof. intros p. rewrite elem_of_filter_source. naive_solver. Qed.

Lemma excluded_descendant (pats : gset string) (p q : path) rest :
  path_str q = path_str p +:+ "/" +:+ rest →
  excluded pats p = true → excluded pats q = true.
Proof.
  intros Hq. rewrite !excluded_spec. intros (pat & Hin & Hocc).
  exists pat. split; [done|]. rewrite Hq. by apply occurs_in_app_r.
Qed.

Lemma excluded_app (pats : gset string) (p s : path) :
  p ≠ [] → excluded pats p = true → excluded pats (p ++ s) = true.
Proof.
  intros Hp He. destruct s as [|d s]; [by rewrite app_nil_r|].
  eapply excluded_descendant; [|done]. by apply path_str_app.
Qed.


(* ===================================================================== *)
(** ** The copy decision *)
(* ===================================================================== *)

Lemma should_copy_stats (fs : FS) (src dst : path) (t : Z) (s d : node) :
  path_exists fs dst = true → is_symlink fs dst = false →
  lstat fs src = Some s → lstat fs dst = Some d →
  should_copy fs src dst t =
    bool_decide (st_size s ≠ st_size d ∨ Z.abs (st_mtime s - st_mtime d) > t).
Proof.
  intros He Hl Hs Hd. unfold should_copy. rewrite He, Hl, Hs, Hd. simpl.
  repeat case_decide; symmetry;
    first [apply bool_decide_eq_true | apply bool_decide_eq_false]; tauto.
Qed.



(* ===================================================================== *)
(** ** Path-set difference and exclusion *)
(* ===================================================================== *)

(** C6. The reconciler keeps exactly the source paths in whose string form
    no exclusion pattern occurs as a (case-sensitive) substring; the
    destination set enters the difference as scanned; and the deletion
    candidates are the destination paths that are not kept source paths. *)
Theorem diff_and_exclusion_semantics
    (exclude_patterns : option (gset string)) (source_paths dest_paths : gset path) :
  (∀ p, p ∈ filter_source exclude_patterns source_paths ↔
        p ∈ source_paths ∧
        ∀ pat, pat ∈ patterns_of exclude_patterns → ¬ occurs_in pat (path_str p))
  ∧ (∀ q, q ∈ paths_to_delete dest_paths (filter_source exclude_patterns source_paths) ↔
          q ∈ dest_paths ∧ q ∉ filter_source exclude_patterns source_paths)
  ∧ str_contains "git" "a/.git/config" = true
  ∧ str_contains "GIT" "a/.git/config" = false.
Proof.
  split; [|split; [|split; reflexivity]].
  - intros p. rewrite elem_of_filter_source.
    destruct exclude_patterns as [pats|]; simpl.
    + by rewrite excluded_false_spec.
    + unfold patterns_of. simpl. set_solver.
  - intros q. unfold paths_to_delete. apply elem_of_difference.
Qed.

(** C10. The substring filter is closed under descent: when a pattern
    rejects [p] and the string form of [q] extends that of [p] by a
    separator and further components, the pattern rejects [q]; so [q] is
    not kept, and a destination entry at [q] is a deletion candidate.  The
    components of a path below a non-root ancestor extend its string form
    in that way. *)
Theorem exclusion_downward_closed
    (pats : gset string) (p q : path) (rest : string)
    (source_paths dest_paths : gset path) :
  path_str q = path_str p +:+ "/" +:+ rest →
  excluded pats p = true →
  excluded pats q = true
  ∧ (q ∉ filter_source (Some pats) source_paths)
  ∧ (q ∈ dest_paths →
     q ∈ paths_to_delete dest_paths (filter_source (Some pats) source_paths))
  ∧ (∀ a s : path, a ≠ [] → s ≠ [] →
     path_str (a ++ s) = path_str a +:+ "/" +:+ path_str s).
Proof.
  intros Hq Hp.
  assert (excluded pats q = true) as Hex by eauto using excluded_descendant.
  assert (q ∉ filter_source (Some pats) source_paths) as Hnot.
  { rewrite elem_of_filter_source. intros [_ Hf]. congruence. }
  repeat split; [done..| |].
  - intros Hd. unfold paths_to_delete. set_solver.
  - apply path_str_app.
Qed.

Lemma exclusion_downward_closed_witness :
  excluded {[ "cache" ]} ["x_cache"; "a"; "b.txt"] = true.
Proof.
  apply (exclusion_downward_closed {[ "cache" ]} ["x_cache"] ["x_cache"; "a"; "b.txt"]
           "a/b.txt" ∅ ∅); reflexivity.
Defined.


(* ===================================================================== *)
(** ** Order of the deletions *)
(* ===================================================================== *)

#[local] Instance deeper_first_trans : Transitive deeper_first.
Proof. unfold deeper_first. intros p q r ? ?. lia. Qed.

#[local] Instance deeper_first_total : Total deeper_first.
Proof. unfold deeper_first. intros p q. lia. Qed.

Lemma StronglySorted_lookup_lt {A} (R : relation A) (l : list A) i j x y :
  StronglySorted R l → l !! i = Some x → l !! j = Some y → (i < j)%nat → R x y.
Proof.
  intros Hs. revert i j. induction Hs as [|a l Hs IH Hall]; intros i j Hi Hj Hlt.
  - by rewrite lookup_nil in Hi.
  - destruct j as [|j]; [lia|]. simpl in Hj. destruct i as [|i]; simpl in Hi.
    + simplify_eq. rewrite Forall_forall in Hall. apply Hall.
      by eapply list_elem_of_lookup_2.
    + eapply IH; eauto. lia.
Qed.

Lemma sorted_deletes_perm (to_delete : gset path) :
  sorted_deletes to_delete ≡ₚ elements to_delete.
Proof. apply merge_sort_Permutation. Qed.

Lemma sorted_deletes_sorted (to_delete : gset path) :
  StronglySorted deeper_first (sorted_deletes to_delete).
Proof. apply (StronglySorted_merge_sort _). Qed.

Lemma sorted_deletes_NoDup (to_delete : gset path) : NoDup (sorted_deletes to_delete).
Proof. rewrite sorted_deletes_perm. apply NoDup_elements. Qed.

Lemma elem_of_sorted_deletes (to_delete : gset path) p :
  p ∈ sorted_deletes to_delete ↔ p ∈ to_delete.
Proof. by rewrite sorted_deletes_perm, elem_of_elements. Qed.

Lemma prefix_depth_lt (q p : path) :
  q `prefix_of` p → q ≠ p → (depth q < depth p)%nat.
Proof.
  intros [k ->] Hne. unfold depth. rewrite length_app.
  destruct k; [by rewrite app_nil_r in Hne|]. simpl. lia.
Qed.

(** C7. The delete loop runs over the candidates arranged by
    non-increasing depth: the list it folds over holds every candidate
    once, a strictly deeper candidate stands before a shallower one, and so
    every candidate stands before each of its proper ancestors. *)
Theorem deletion_order_deepest_first (to_delete : gset path) :
  sorted_deletes to_delete ≡ₚ elements to_delete
  ∧ NoDup (sorted_deletes to_delete)
  ∧ (∀ i j p q,
       sorted_deletes to_delete !! i = Some p →
       sorted_deletes to_delete !! j = Some q →
       (depth q < depth p)%nat → (i < j)%nat)
  ∧ (∀ i j p q,
       sorted_deletes to_delete !! i = Some p →
       sorted_deletes to_delete !! j = Some q →
       q `prefix_of` p → q ≠ p → (i < j)%nat)
  ∧ (∀ now destination dry_run fs,
       delete_phase now destination dry_run fs to_delete =
       foldl (delete_step now destination dry_run) (DelState fs 0 0)
             (sorted_deletes to_delete)).
Proof.
  assert (∀ i j p q,
       sorted_deletes to_delete !! i = Some p →
       sorted_deletes to_delete !! j = Some q →
       (depth q < depth p)%nat → (i < j)%nat) as Hdepth.
  { intros i j p q Hi Hj Hlt.
    destruct (decide (i < j)%nat) as [|Hge]; [done|]. exfalso.
    destruct (decide (i = j)) as [->|Hne].
    - rewrite Hi in Hj. simplify_eq. lia.
    - assert (deeper_first q p) as Hd.
      { eapply (StronglySorted_lookup_lt _ _ j i);
          eauto using sorted_deletes_sorted. lia. }
      unfold deeper_first in Hd. lia. }
  split; [apply sorted_deletes_perm|].
  split; [apply sorted_deletes_NoDup|].
  split; [done|]. split; [|done].
  intros i j p q Hi Hj Hpre Hne. eapply Hdepth; eauto using prefix_depth_lt.
Qed.

(* ===================================================================== *)
(** ** Validation *)
(* ===================================================================== *)

Lemma relative_to_Some (child parent r : path) :
  relative_to child parent = Some r ↔ child = parent ++ r.
Proof.
  revert child. induction parent as [|a parent IH]; intros [|b child]; simpl;
    try (split; intros H; by simplify_eq).
  case_decide as Hab.
  - subst b. rewrite IH. split; intros H; by simplify_eq.
  - split; intros H; by simplify_eq.
Qed.

Lemma is_path_inside_spec (child parent : path) :
  is_path_inside child parent = true ↔ parent `prefix_of` child.
Proof.
  unfold is_path_inside. destruct (relative_to child parent) as [r|] eqn:Hr.
  - apply relative_to_Some in Hr. split; [|done]. intros _. by exists r.
  - split; [done|]. intros [r Hc]. apply relative_to_Some in Hc. congruence.
Qed.

Lemma relative_to_app (root rel : path) : relative_to (root ++ rel) root = Some rel.
Proof. by apply relative_to_Some. Qed.

(** C9. A missing source, a source that is not a directory, a destination
    equal to the source, or either path lying inside the other ends the
    call with exit status 1 and the file system exactly as it was. *)
Theorem validation_atomicity (now : Z) (fs : FS) (source destination : path)
    (dry_run : bool) (exclude_patterns : option (gset string)) (time_tolerance : Z) :
  path_exists fs source = false ∨ is_dir fs source = false ∨
  destination = source ∨
  source `prefix_of` destination ∨ destination `prefix_of` source →
  sync_directories now fs source destination dry_run exclude_patterns time_tolerance
  = Run fs 1 (Exit 1).
Proof.
  intros H. unfold sync_directories.
  destruct (path_exists fs source); [|done]. simpl.
  destruct (is_dir fs source); [|done]. simpl.
  case_decide; [done|].
  destruct (is_path_inside destination source) eqn:Hds; [done|].
  destruct (is_path_inside source destination) eqn:Hsd; [done|].
  exfalso. destruct H as [?|[?|[?|[Hp|Hp]]]]; try done.
  - apply is_path_inside_spec in Hp. congruence.
  - apply is_path_inside_spec in Hp. congruence.
Qed.

Lemma validation_atomicity_witness :
  sync_directories 1000 fs_pair ["s"] ["s"; "backup"] false None 2
  = Run fs_pair 1 (Exit 1).
Proof.
  apply validation_atomicity. right; right; right; left. by exists ["backup"].
Defined.

(* ===================================================================== *)
(** ** The scanner and links to directories *)
(* ===================================================================== *)

(** C4 (the code departs from the claim).  Under [/r], which holds the
    directory [d], the file [d/x] and the link [l] to [d], the scan with
    [follow_symlinks=False] returns [d] and [d/x] only: [os.walk] lists the
    link among the directory names, the scanner records directory names
    only when they are walked into, and the link is not walked into. *)
Theorem scanner_omits_link_to_directory :
  is_symlink fs_linked_dir ["r"; "l"] = true
  ∧ is_dir fs_linked_dir ["r"; "l"] = true
  ∧ os_walk fs_linked_dir ["r"] false
    = [ (["r"], ["l"; "d"], []); (["r"; "d"], [], ["x"]) ]
  ∧ get_relative_paths fs_linked_dir ["r"] false = {[ ["d"]; ["d"; "x"] ]}
  ∧ ["l"] ∉ get_relative_paths fs_linked_dir ["r"] false.
Proof.
  split; [reflexivity|]. split; [reflexivity|]. split; [by vm_compute|].
  assert (get_relative_paths fs_linked_dir ["r"] false = {[ ["d"]; ["d"; "x"] ]}) as ->
    by (by vm_compute).
  split; [done|]. set_solver.
Qed.


(* ===================================================================== *)
(** ** Dry runs *)
(* ===================================================================== *)

Lemma delete_step_dry now D st p :
  delete_step now D true st p =
  if planned_delete (ds_fs st) D p
  then DelState (ds_fs st) (S (ds_deleted st)) (ds_errors st)
  else st.
Proof. unfold delete_step, planned_delete. by destruct (_ || _). Qed.

Lemma delete_loop_dry now D fs n e l :
  foldl (delete_step now D true) (DelState fs n e) l =
  DelState fs (n + length (filter (λ p, planned_delete fs D p = true) l)) e.
Proof.
  revert n. induction l as [|p l IH]; intros n; simpl.
  - f_equal. lia.
  - rewrite delete_step_dry. simpl. rewrite filter_cons.
    destruct (planned_delete fs D p) eqn:Hp; rewrite IH.
    + rewrite decide_True by done. simpl. f_equal. lia.
    + rewrite decide_False by done. done.
Qed.

Lemma count_paths_perm (f : path → bool) (paths : gset path) (l : list path) :
  l ≡ₚ elements paths →
  length (filter (λ p, f p = true) l) = count_paths f paths.
Proof. intros Hl. unfold count_paths. by rewrite Hl. Qed.

Lemma delete_phase_dry now D fs to_delete :
  delete_phase now D true fs to_delete =
  DelState fs (count_paths (planned_delete fs D) to_delete) 0.
Proof.
  unfold delete_phase. rewrite delete_loop_dry. simpl.
  by rewrite (count_paths_perm _ to_delete) by apply sorted_deletes_perm.
Qed.

Lemma copy_step_dry now S D tol st p :
  copy_step now S D true tol st p =
  CopyState (cs_fs st)
    (cs_created st + if planned_mkdir (cs_fs st) S D p then 1 else 0)
    (cs_copied st + if planned_copy (cs_fs st) S D tol p then 1 else 0)
    (cs_failed st) (cs_dirs st) (cs_errors st).
Proof.
  unfold copy_step, planned_mkdir, planned_copy. destruct st as [fs c k f ds e]. simpl.
  destruct (is_dir fs (S ++ p) && negb (is_symlink fs (S ++ p))); simpl.
  - destruct (path_exists fs (D ++ p)); simpl; f_equal; lia.
  - destruct (should_copy fs (S ++ p) (D ++ p) tol); simpl; f_equal; lia.
Qed.

Lemma copy_loop_dry now S D tol fs c k f ds e l :
  foldl (copy_step now S D true tol) (CopyState fs c k f ds e) l =
  CopyState fs
    (c + length (filter (λ p, planned_mkdir fs S D p = true) l))
    (k + length (filter (λ p, planned_copy fs S D tol p = true) l))
    f ds e.
Proof.
  revert c k. induction l as [|p l IH]; intros c k; simpl.
  - f_equal; lia.
  - rewrite copy_step_dry. simpl. rewrite IH, !filter_cons.
    destruct (planned_mkdir fs S D p), (planned_copy fs S D tol p);
      repeat (rewrite decide_True by done); repeat (rewrite decide_False by done);
      simpl; f_equal; lia.
Qed.

Lemma sorted_paths_perm (paths : gset path) : sorted_paths paths ≡ₚ elements paths.
Proof. apply merge_sort_Permutation. Qed.

Lemma copy_phase_dry now S D tol fs e paths :
  copy_phase now S D true tol fs e paths =
  CopyState fs (count_paths (planned_mkdir fs S D) paths)
            (count_paths (planned_copy fs S D tol) paths) 0 [] e.
Proof.
  unfold copy_phase. rewrite copy_loop_dry. simpl.
  by rewrite !(count_paths_perm _ paths) by apply sorted_paths_perm.
Qed.

Lemma count_paths_pos (f : path → bool) (paths : gset path) :
  (0 < count_paths f paths)%nat ↔ ∃ p, p ∈ paths ∧ f p = true.
Proof.
  unfold count_paths. split.
  - intros Hpos. destruct (filter _ _) as [|p l] eqn:Hf; [simpl in Hpos; lia|].
    assert (p ∈ filter (λ p, f p = true) (elements paths)) as Hin
      by (rewrite Hf; left).
    apply list_elem_of_filter in Hin as [? Hin]. apply elem_of_elements in Hin. eauto.
  - intros (p & Hin & Hp).
    assert (p ∈ filter (λ p, f p = true) (elements paths)) as Hin'.
    { apply list_elem_of_filter. split; [done|]. by apply elem_of_elements. }
    destruct (filter _ _); [by apply elem_of_nil in Hin'|simpl; lia].
Qed.




(* ===================================================================== *)
(** ** Path resolution *)
(* ===================================================================== *)

Lemma resolve_from_nil b fs f cur : resolve_from b fs f cur [] = Found cur.
Proof. by destruct b. Qed.

Lemma resolve_from_cons b fs f cur c rest :
  resolve_from b fs f cur (c :: rest) =
  if String.eqb c "." then resolve_from b fs f cur rest
  else if String.eqb c ".." then resolve_from b fs f (removelast cur) rest
  else
    match fs !! (cur ++ [c]) with
    | None => match rest with [] => Missing (cur ++ [c]) | _ => Failed ENOENT end
    | Some (NDir _ _) => resolve_from b fs f (cur ++ [c]) rest
    | Some (NFile _ _) =>
        match rest with [] => Found (cur ++ [c]) | _ => Failed ENOTDIR end
    | Some (NLink _ t) =>
        match rest, f with
        | [], false => Found (cur ++ [c])
        | _, _ =>
            match b with
            | O => Failed ELOOP
            | S b' =>
                resolve_from b' fs f (if target_is_absolute t then [] else cur)
                  (target_parts t ++ rest)
            end
        end
    end.
Proof. by destruct b. Qed.

(** Whether the last link is followed only matters when there is one. *)
Lemma resolve_from_follow b fs cur comps q n :
  resolve_from b fs false cur comps = Found q →
  fs !! q = Some n → is_link_node n = false →
  resolve_from b fs true cur comps = Found q.
Proof.
  intros Hr Hq Hn. revert cur comps Hr.
  induction b as [|b IHb]; intros cur comps; revert cur;
    (induction comps as [|c rest IHc]; intros cur;
     [by rewrite !resolve_from_nil|]);
    rewrite !resolve_from_cons;
    repeat case_match; try done; eauto; intros; simplify_eq/=; try done.
Qed.

Lemma stat_of_lstat fs p q n :
  resolve fs false p = Found q → fs !! q = Some n → is_link_node n = false →
  resolve fs true p = Found q.
Proof. apply resolve_from_follow. Qed.

(* ===================================================================== *)
(** ** One deletion *)
(* ===================================================================== *)

Lemma dom_touch (now : Z) (d : path) (fs : FS) : dom (touch now d fs) = dom fs.
Proof. unfold touch. apply dom_alter_L. Qed.

(** The file system after the entry at canonical path [q] is removed. *)
Lemma removal_lookup (now : Z) (q : path) (fs : FS) :
  delete q (touch now (removelast q) fs) !! q = None
  ∧ dom (delete q (touch now (removelast q) fs)) = dom fs ∖ {[ q ]}.
Proof. split; [apply lookup_delete_eq|]. by rewrite dom_delete_L, dom_touch. Qed.

Lemma delete_step_nondir now D st p q n :
  resolve (ds_fs st) false (D ++ p) = Found q →
  ds_fs st !! q = Some n → is_dir_node n = false →
  delete_step now D false st p =
  DelState (delete q (touch now (removelast q) (ds_fs st)))
           (S (ds_deleted st)) (ds_errors st).
Proof.
  intros Hr Hq Hn. unfold delete_step.
  assert (lstat (ds_fs st) (D ++ p) = Some n) as Hl by (unfold lstat; by rewrite Hr).
  assert (unlink now (ds_fs st) (D ++ p)
          = inl (delete q (touch now (removelast q) (ds_fs st)))) as Hu.
  { unfold unlink. rewrite Hr, Hq. by destruct n. }
  destruct n as [| m c | m t]; [done| |].
  - assert (stat (ds_fs st) (D ++ p) = Some (NFile m c)) as Hs.
    { unfold stat. by rewrite (stat_of_lstat _ _ _ _ Hr Hq). }
    unfold path_exists, is_dir, is_symlink. rewrite Hs, Hl. simpl. by rewrite Hu.
  - unfold path_exists, is_dir, is_symlink. rewrite Hl. simpl.
    rewrite orb_true_r, andb_false_r. by rewrite Hu.
Qed.

Lemma delete_step_dir now D st p q sz m :
  resolve (ds_fs st) false (D ++ p) = Found q →
  ds_fs st !! q = Some (NDir sz m) → q ≠ [] →
  delete_step now D false st p =
  match children (ds_fs st) q with
  | [] => DelState (delete q (touch now (removelast q) (ds_fs st)))
                   (S (ds_deleted st)) (ds_errors st)
  | _ :: _ => st
  end.
Proof.
  intros Hr Hq Hne. unfold delete_step.
  assert (lstat (ds_fs st) (D ++ p) = Some (NDir sz m)) as Hl
    by (unfold lstat; by rewrite Hr).
  assert (stat (ds_fs st) (D ++ p) = Some (NDir sz m)) as Hs.
  { unfold stat. by rewrite (stat_of_lstat _ _ _ _ Hr Hq). }
  unfold path_exists, is_dir, is_symlink. rewrite Hs, Hl. simpl.
  unfold rmdir. rewrite Hr, Hq.
  destruct (children (ds_fs st) q); [|done]. by destruct q.
Qed.


(* ===================================================================== *)
(** ** Well-formed file systems without links *)
(* ===================================================================== *)

Lemma removelast_snoc {A} (l : list A) x : removelast (l ++ [x]) = l.
Proof. apply removelast_last. Qed.

Lemma dir_at_Some (fs : FS) (p : path) :
  dir_at fs p = true ↔ ∃ sz m, fs !! p = Some (NDir sz m).
Proof.
  unfold dir_at. destruct (fs !! p) as [[]|]; simpl; naive_solver.
Qed.

Lemma dir_at_is_Some (fs : FS) (p : path) : dir_at fs p = true → is_Some (fs !! p).
Proof. rewrite dir_at_Some. intros (sz & m & ->). eauto. Qed.

Lemma well_formed_root (fs : FS) : well_formed fs = true → dir_at fs [] = true.
Proof. unfold well_formed. by intros [? _]%andb_true_iff. Qed.

Lemma well_formed_snoc (fs : FS) (p : path) (c : string) :
  well_formed fs = true → is_Some (fs !! (p ++ [c])) →
  valid_name c = true ∧ dir_at fs p = true.
Proof.
  unfold well_formed. intros [_ Hall]%andb_true_iff Hin.
  rewrite forallb_forall in Hall.
  specialize (Hall (p ++ [c])). unfold wf_entry in Hall.
  rewrite last_snoc, removelast_snoc in Hall.
  apply andb_true_iff, Hall, list_elem_of_In, elem_of_elements, elem_of_dom, Hin.
Qed.

Lemma well_formed_intro (fs : FS) :
  dir_at fs [] = true →
  (∀ p c, is_Some (fs !! (p ++ [c])) → valid_name c = true ∧ dir_at fs p = true) →
  well_formed fs = true.
Proof.
  intros Hroot Hall. unfold well_formed. rewrite Hroot. simpl.
  apply forallb_forall. intros p Hp.
  apply list_elem_of_In, elem_of_elements, elem_of_dom in Hp.
  unfold wf_entry. destruct p as [|c p _] using rev_ind; [done|].
  rewrite last_snoc, removelast_snoc. apply andb_true_iff. by apply Hall.
Qed.

Lemma no_links_spec (fs : FS) :
  no_links fs = true ↔ ∀ p n, fs !! p = Some n → is_link_node n = false.
Proof.
  unfold no_links. rewrite forallb_forall. split.
  - intros Hall p n Hp. specialize (Hall p). rewrite Hp in Hall.
    apply negb_true_iff, Hall, list_elem_of_In, elem_of_elements, elem_of_dom. eauto.
  - intros Hall p _. destruct (fs !! p) as [n|] eqn:Hp; [|done].
    apply negb_true_iff. eauto.
Qed.

Lemma wf_prefix_dir (fs : FS) (p r : path) :
  well_formed fs = true → is_Some (fs !! (p ++ r)) → r ≠ [] → dir_at fs p = true.
Proof.
  intros Hwf. induction r as [|c r IH] using rev_ind; [done|]. intros Hin _.
  rewrite app_assoc in Hin. apply well_formed_snoc in Hin as [_ Hd]; [|done].
  destruct r as [|c' r']; [by rewrite app_nil_r in Hd|].
  apply IH; [by apply dir_at_is_Some|done].
Qed.

Lemma wf_prefix_is_Some (fs : FS) (p r : path) :
  well_formed fs = true → is_Some (fs !! (p ++ r)) → is_Some (fs !! p).
Proof.
  intros Hwf Hin. destruct r as [|c r]; [by rewrite app_nil_r in Hin|].
  eapply dir_at_is_Some, wf_prefix_dir; eauto.
Qed.

Lemma wf_valid_suffix (fs : FS) (p r : path) :
  well_formed fs = true → is_Some (fs !! (p ++ r)) → valid_path r = true.
Proof.
  intros Hwf. induction r as [|c r IH] using rev_ind; [done|]. intros Hin.
  unfold valid_path. rewrite forallb_app. apply andb_true_iff.
  rewrite app_assoc in Hin. split.
  - apply IH. eapply wf_prefix_is_Some; eauto.
  - simpl. apply well_formed_snoc in Hin as [-> _]; done.
Qed.

Lemma wf_children_of_dir (fs : FS) (p : path) (c : string) n :
  well_formed fs = true → fs !! p = Some n → is_dir_node n = false →
  fs !! (p ++ [c]) = None.
Proof.
  intros Hwf Hp Hn. destruct (fs !! (p ++ [c])) eqn:Hc; [|done].
  destruct (well_formed_snoc fs p c Hwf) as [_ Hd]; [by rewrite Hc|].
  unfold dir_at in Hd. rewrite Hp in Hd. congruence.
Qed.

Lemma valid_path_app (p r : path) :
  valid_path (p ++ r) = true ↔ valid_path p = true ∧ valid_path r = true.
Proof. unfold valid_path. by rewrite forallb_app, andb_true_iff. Qed.

Lemma valid_name_eqb (c : string) :
  valid_name c = true → String.eqb c "." = false ∧ String.eqb c ".." = false.
Proof.
  unfold valid_name. rewrite andb_true_iff, !negb_true_iff. done.
Qed.

(** *** Resolution is literal *)

Section literal.
Context (fs : FS) (Hwf : well_formed fs = true) (Hnl : no_links fs = true).

Lemma no_link_at (p : path) m t : fs !! p = Some (NLink m t) → False.
Proof.
  intros Hp. apply (proj1 (no_links_spec fs) Hnl) in Hp. done.
Qed.

Lemma resolve_from_Found b f (cur comps : path) :
  valid_path comps = true → is_Some (fs !! (cur ++ comps)) →
  resolve_from b fs f cur comps = Found (cur ++ comps).
Proof.
  revert cur. induction comps as [|c rest IH]; intros cur Hv Hin.
  - by rewrite resolve_from_nil, app_nil_r.
  - simpl in Hv. apply andb_true_iff in Hv as [Hc Hv].
    apply valid_name_eqb in Hc as [Hdot Hdd].
    rewrite resolve_from_cons, Hdot, Hdd.
    rewrite cons_middle, app_assoc in Hin.
    destruct (wf_prefix_is_Some fs _ _ Hwf Hin) as [n Hn]. rewrite Hn.
    destruct rest as [|c' rest'].
    + rewrite app_nil_r in Hin. destruct n as [| |m t].
      * by rewrite resolve_from_nil.
      * done.
      * by destruct (no_link_at _ _ _ Hn).
    + assert (dir_at fs (cur ++ [c]) = true) as Hd
        by (by eapply wf_prefix_dir).
      unfold dir_at in Hd. rewrite Hn in Hd. destruct n; try done.
      rewrite IH; [by rewrite <-app_assoc|done|done].
Qed.

Lemma resolve_from_not_Found b f (cur comps : path) q :
  valid_path comps = true → fs !! (cur ++ comps) = None →
  resolve_from b fs f cur comps ≠ Found q ∨ comps = [].
Proof.
  revert cur. induction comps as [|c rest IH]; intros cur Hv Hnone; [by right|left].
  simpl in Hv. apply andb_true_iff in Hv as [Hc Hv].
  apply valid_name_eqb in Hc as [Hdot Hdd].
  rewrite resolve_from_cons, Hdot, Hdd.
  rewrite cons_middle, app_assoc in Hnone.
  destruct (fs !! (cur ++ [c])) as [[sz m|m x|m t]|] eqn:Hn.
  - destruct (IH (cur ++ [c]) Hv Hnone) as [?| ->]; [done|].
    rewrite app_nil_r in Hnone. congruence.
  - destruct rest; [|done]. rewrite app_nil_r in Hnone. congruence.
  - by destruct (no_link_at _ _ _ Hn).
  - by destruct rest.
Qed.

Lemma resolve_from_Missing b f (cur r : path) (c : string) :
  valid_path (r ++ [c]) = true → dir_at fs (cur ++ r) = true →
  fs !! (cur ++ r ++ [c]) = None →
  resolve_from b fs f cur (r ++ [c]) = Missing (cur ++ r ++ [c]).
Proof.
  revert cur. induction r as [|a r IH]; intros cur Hv Hd Hnone.
  - simpl in *. apply andb_true_iff in Hv as [Hc _].
    apply valid_name_eqb in Hc as [Hdot Hdd].
    by rewrite resolve_from_cons, Hdot, Hdd, Hnone.
  - simpl in Hv. apply andb_true_iff in Hv as [Ha Hv].
    apply valid_name_eqb in Ha as [Hdot Hdd].
    change ((a :: r) ++ [c]) with (a :: (r ++ [c])).
    rewrite resolve_from_cons, Hdot, Hdd.
    rewrite cons_middle, app_assoc in Hd.
    assert (dir_at fs (cur ++ [a]) = true) as Hda.
    { destruct r as [|a' r']; [by rewrite app_nil_r in Hd|].
      eapply wf_prefix_dir; [done|by apply dir_at_is_Some|done]. }
    apply dir_at_Some in Hda as (sz & m & ->).
    rewrite IH; [|done|done|].
    + by rewrite <-!app_assoc.
    + rewrite <-app_assoc. exact Hnone.
Qed.

Lemma resolve_from_ENOENT b f (cur r : path) (c : string) :
  valid_path (r ++ [c]) = true →
  fs !! (cur ++ r) = None →
  (∀ k n, k `prefix_of` r → fs !! (cur ++ k) = Some n → is_dir_node n = true) →
  dir_at fs cur = true →
  resolve_from b fs f cur (r ++ [c]) = Failed ENOENT.
Proof.
  revert cur. induction r as [|a r IH]; intros cur Hv Hnone Hpre Hcur.
  - rewrite app_nil_r in Hnone. apply dir_at_is_Some in Hcur as [? ?]. congruence.
  - simpl in Hv. apply andb_true_iff in Hv as [Ha Hv].
    apply valid_name_eqb in Ha as [Hdot Hdd].
    change ((a :: r) ++ [c]) with (a :: (r ++ [c])).
    rewrite resolve_from_cons, Hdot, Hdd.
    destruct (fs !! (cur ++ [a])) as [n|] eqn:Hn.
    + assert (is_dir_node n = true) as Hdn.
      { apply (Hpre [a]); [|done]. by apply prefix_cons, prefix_nil. }
      destruct n; try done.
      apply IH; [done| | |].
      * by rewrite <-app_assoc.
      * intros k n Hk Hkn. apply (Hpre (a :: k)); [by apply prefix_cons|].
        by rewrite cons_middle, app_assoc.
      * unfold dir_at. by rewrite Hn.
    + by destruct r.
Qed.

(** At the level of whole paths. *)
Lemma resolve_Found f (p : path) :
  is_Some (fs !! p) → resolve fs f p = Found p.
Proof.
  intros Hin. unfold resolve.
  rewrite (resolve_from_Found _ _ [] p); [done| |done].
  by apply (wf_valid_suffix fs [] p).
Qed.

Lemma resolve_None f (p : path) q :
  valid_path p = true → fs !! p = None → resolve fs f p ≠ Found q.
Proof.
  intros Hv Hnone. unfold resolve.
  destruct (resolve_from_not_Found MAXSYMLINKS f [] p q Hv Hnone) as [?| ->]; [done|].
  apply well_formed_root, dir_at_is_Some in Hwf as [? ?]. simpl in *. congruence.
Qed.

Lemma resolve_Missing f (p : path) (c : string) :
  valid_path (p ++ [c]) = true → dir_at fs p = true → fs !! (p ++ [c]) = None →
  resolve fs f (p ++ [c]) = Missing (p ++ [c]).
Proof. intros. unfold resolve. by rewrite (resolve_from_Missing _ _ [] p c). Qed.

Lemma resolve_ENOENT f (p : path) (c : string) :
  valid_path (p ++ [c]) = true → fs !! p = None →
  (∀ k n, k `prefix_of` p → fs !! k = Some n → is_dir_node n = true) →
  resolve fs f (p ++ [c]) = Failed ENOENT.
Proof.
  intros. unfold resolve. apply resolve_from_ENOENT; try done.
  by apply well_formed_root.
Qed.

Lemma stat_literal (p : path) : valid_path p = true → stat fs p = fs !! p.
Proof.
  intros Hv. unfold stat. destruct (fs !! p) as [n|] eqn:Hp.
  - rewrite resolve_Found by eauto. done.
  - destruct (resolve fs true p) as [q| |] eqn:Hr; try done.
    by destruct (resolve_None true p q Hv Hp).
Qed.

Lemma lstat_literal (p : path) : valid_path p = true → lstat fs p = fs !! p.
Proof.
  intros Hv. unfold lstat. destruct (fs !! p) as [n|] eqn:Hp.
  - rewrite resolve_Found by eauto. done.
  - destruct (resolve fs false p) as [q| |] eqn:Hr; try done.
    by destruct (resolve_None false p q Hv Hp).
Qed.

Lemma path_exists_literal (p : path) :
  valid_path p = true → path_exists fs p = bool_decide (is_Some (fs !! p)).
Proof.
  intros Hv. unfold path_exists. rewrite stat_literal by done.
  destruct (fs !! p); symmetry.
  - apply bool_decide_eq_true. eauto.
  - apply bool_decide_eq_false. by intros [? ?].
Qed.

Lemma is_dir_literal (p : path) : valid_path p = true → is_dir fs p = dir_at fs p.
Proof. intros Hv. unfold is_dir, dir_at. by rewrite stat_literal. Qed.

Lemma is_symlink_literal (p : path) : valid_path p = true → is_symlink fs p = false.
Proof.
  intros Hv. unfold is_symlink. rewrite lstat_literal by done.
  destruct (fs !! p) as [n|] eqn:Hp; [|done].
  by apply (proj1 (no_links_spec fs) Hnl) in Hp.
Qed.
End literal.


(* ===================================================================== *)
(** ** The scanner *)
(* ===================================================================== *)

Lemma child_name_Some (d p : path) (c : string) :
  child_name d p = Some c ↔ p = d ++ [c].
Proof.
  unfold child_name. split.
  - destruct (last p) as [c'|] eqn:Hl; [|done].
    apply last_Some in Hl as [p' ->]. rewrite removelast_snoc.
    case_decide; [|done]. by intros [= ->]; subst.
  - intros ->. rewrite last_snoc, removelast_snoc. by rewrite decide_True.
Qed.

Lemma elem_of_children (fs : FS) (d : path) (c : string) :
  c ∈ children fs d ↔ is_Some (fs !! (d ++ [c])).
Proof.
  unfold children. rewrite list_elem_of_omap. split.
  - intros (p & Hp & Hc). apply child_name_Some in Hc as ->.
    by apply elem_of_dom, elem_of_elements.
  - intros Hin. exists (d ++ [c]). split.
    + by apply elem_of_elements, elem_of_dom.
    + by apply child_name_Some.
Qed.

Lemma children_nil (fs : FS) (d : path) :
  children fs d = [] ↔ ∀ c, fs !! (d ++ [c]) = None.
Proof.
  split.
  - intros Hnil c. destruct (fs !! (d ++ [c])) eqn:Hc; [|done].
    assert (c ∈ children fs d) as Hin by (apply elem_of_children; eauto).
    rewrite Hnil in Hin. by apply elem_of_nil in Hin.
  - intros Hall. destruct (children fs d) as [|c l] eqn:Hch; [done|].
    assert (c ∈ children fs d) as Hin by (rewrite Hch; left).
    apply elem_of_children in Hin as [n Hn]. rewrite Hall in Hn. done.
Qed.

(** What the fold of [get_relative_paths] collects from the triples. *)
Lemma elem_of_scan_files (rd : path) (files : list string) (acc : gset path) rel :
  rel ∈ foldl (λ (paths : gset path) filename, paths ∪ {[ rd ++ [filename] ]}) acc files
  ↔ rel ∈ acc ∨ ∃ f, f ∈ files ∧ rel = rd ++ [f].
Proof.
  revert acc. induction files as [|f files IH]; intros acc; simpl.
  - split; [auto|]. intros [?|(f & Hf & _)]; [done|]. by apply elem_of_nil in Hf.
  - rewrite IH, elem_of_union, elem_of_singleton. split.
    + intros [[?| ->]|(g & Hg & ->)]; [by left| |].
      * right. exists f. split; [left|done].
      * right. exists g. split; [by right|done].
    + intros [?|(g & Hg & ->)]; [by left; left|].
      apply elem_of_cons in Hg as [->|Hg]; [by left; right|right; eauto].
Qed.

Lemma elem_of_scan (root : path) (triples : list (path * list string * list string))
    (acc : gset path) rel :
  rel ∈ foldl (scan_step root) acc triples ↔
  rel ∈ acc ∨
  ∃ t dirs files rd, (t, dirs, files) ∈ triples ∧ relative_to t root = Some rd ∧
    ((rd ≠ [] ∧ rel = rd) ∨ ∃ f, f ∈ files ∧ rel = rd ++ [f]).
Proof.
  revert acc. induction triples as [|[[t dirs] files] triples IH]; intros acc; simpl.
  - split; [auto|]. intros [?|(?&?&?&?&Hin&_)]; [done|]. by apply elem_of_nil in Hin.
  - rewrite IH. unfold scan_step.
    destruct (relative_to t root) as [rd|] eqn:Hrd.
    + rewrite elem_of_scan_files. split.
      * intros [[Hacc|(f & Hf & ->)]|(t' & d' & f' & rd' & Hin & Hr & Hcase)].
        -- case_decide as Hne; [|by left].
           apply elem_of_union in Hacc as [?|Hs]; [by left|].
           apply elem_of_singleton in Hs as ->.
           right. exists t, dirs, files, rd. split; [left|]. split; [done|]. by left.
        -- right. exists t, dirs, files, rd. split; [left|]. split; [done|].
           right. eauto.
        -- right. exists t', d', f', rd'. split; [by right|done].
      * intros [Hacc|(t' & d' & f' & rd' & Hin & Hr & Hcase)].
        -- left. left. case_decide; [|done]. apply elem_of_union. by left.
        -- apply elem_of_cons in Hin as [Heq|Hin].
           ++ simplify_eq. left. destruct Hcase as [[Hne ->]|Hf]; [|by right].
              left. rewrite decide_True by done. apply elem_of_union. right.
              by apply elem_of_singleton.
           ++ right. exists t', d', f', rd'. done.
    + split.
      * intros [?|(t' & d' & f' & rd' & Hin & Hr & Hcase)]; [by left|].
        right. exists t', d', f', rd'. split; [by right|done].
      * intros [?|(t' & d' & f' & rd' & Hin & Hr & Hcase)]; [by left|].
        apply elem_of_cons in Hin as [Heq|Hin]; [simplify_eq|].
        right. exists t', d', f', rd'. done.
Qed.

Lemma elem_of_get_relative_paths (fs : FS) (root : path) (follow : bool) rel :
  rel ∈ get_relative_paths fs root follow ↔
  ∃ t dirs files rd, (t, dirs, files) ∈ os_walk fs root follow ∧
    relative_to t root = Some rd ∧
    ((rd ≠ [] ∧ rel = rd) ∨ ∃ f, f ∈ files ∧ rel = rd ++ [f]).
Proof.
  unfold get_relative_paths. rewrite elem_of_scan. split.
  - intros [H|H]; [by apply not_elem_of_empty in H|done].
  - by right.
Qed.

(** *** The walk of a link-free tree *)

Lemma walk_S (fuel : nat) (fs : FS) (followlinks : bool) (top : path) :
  walk (S fuel) fs followlinks top =
  match scandir fs top with
  | None => []
  | Some names =>
      (top, filter (λ c, is_dir fs (top ++ [c]) = true) names,
            filter (λ c, is_dir fs (top ++ [c]) = false) names) ::
      concat ((λ d, if followlinks || negb (is_symlink fs (top ++ [d]))
                    then walk fuel fs followlinks (top ++ [d])
                    else []) <$>
              filter (λ c, is_dir fs (top ++ [c]) = true) names)
  end.
Proof. done. Qed.

Section walk.
Context (fs : FS) (Hwf : well_formed fs = true) (Hnl : no_links fs = true).

Lemma scandir_literal (top : path) :
  valid_path top = true →
  scandir fs top = if dir_at fs top then Some (children fs top) else None.
Proof.
  intros Hv. unfold scandir, dir_at. destruct (fs !! top) as [n|] eqn:Hn.
  - rewrite (resolve_Found fs Hwf Hnl) by eauto. rewrite Hn. by destruct n.
  - destruct (resolve fs true top) as [q| |] eqn:Hr; try done.
    by destruct (resolve_None fs Hwf Hnl true top q Hv Hn).
Qed.

Lemma valid_child (top : path) (c : string) :
  c ∈ children fs top → valid_path top = true → valid_path (top ++ [c]) = true.
Proof.
  intros Hc Hv. apply elem_of_children in Hc.
  apply valid_path_app. split; [done|]. by apply (wf_valid_suffix fs top [c]).
Qed.

Lemma walk_sound fuel (top t : path) dirs files :
  valid_path top = true →
  (t, dirs, files) ∈ walk fuel fs false top →
  ∃ r, t = top ++ r ∧ dir_at fs t = true ∧
       ∀ f, f ∈ files ↔ is_Some (fs !! (t ++ [f])) ∧ dir_at fs (t ++ [f]) = false.
Proof.
  revert top. induction fuel as [|fuel IH]; intros top Hv Hin.
  { by apply elem_of_nil in Hin. }
  rewrite walk_S, scandir_literal in Hin by done.
  destruct (dir_at fs top) eqn:Hd; [|by apply elem_of_nil in Hin].
  apply elem_of_cons in Hin as [Heq|Hin].
  - simplify_eq. exists []. rewrite app_nil_r. split; [done|]. split; [done|].
    intros f. rewrite list_elem_of_filter, elem_of_children. split.
    + intros [Hf Hc]. split; [done|].
      rewrite <-(is_dir_literal fs Hwf Hnl); [done|].
      apply valid_child; [|done]. by apply elem_of_children.
    + intros [Hc Hf]. split; [|done].
      rewrite (is_dir_literal fs Hwf Hnl); [done|].
      apply valid_child; [|done]. by apply elem_of_children.
  - apply list_elem_of_In, in_concat in Hin as (l & Hl & Hin).
    apply list_elem_of_In, list_elem_of_fmap in Hl as (d & -> & Hd').
    apply list_elem_of_filter in Hd' as [_ Hc].
    destruct (negb (is_symlink fs (top ++ [d]))); simpl in Hin; [|done].
    apply list_elem_of_In, IH in Hin as (r & -> & Hrest); [|by apply valid_child].
    exists (d :: r). by rewrite <-app_assoc in *.
Qed.

Lemma walk_complete fuel (top r : path) :
  valid_path top = true → dir_at fs (top ++ r) = true → (length r < fuel)%nat →
  ∃ dirs files, (top ++ r, dirs, files) ∈ walk fuel fs false top.
Proof.
  revert top r. induction fuel as [|fuel IH]; intros top r Hv Hd Hlt; [lia|].
  rewrite walk_S, scandir_literal by done.
  assert (dir_at fs top = true) as Htop.
  { destruct r as [|c r]; [by rewrite app_nil_r in Hd|].
    eapply wf_prefix_dir; [done|by apply dir_at_is_Some|done]. }
  rewrite Htop. destruct r as [|c r].
  - rewrite app_nil_r. eexists _, _. left.
  - assert (dir_at fs (top ++ [c]) = true) as Hc.
    { rewrite cons_middle, app_assoc in Hd.
      destruct r as [|c' r']; [by rewrite app_nil_r in Hd|].
      eapply wf_prefix_dir; [done|by apply dir_at_is_Some|done]. }
    assert (c ∈ children fs top) as Hch
      by (by apply elem_of_children, dir_at_is_Some).
    pose proof (valid_child top c Hch Hv) as Hvc.
    destruct (IH (top ++ [c]) r Hvc) as (dirs & files & Hin).
    { by rewrite <-app_assoc. } { simpl in Hlt. lia. }
    exists dirs, files. right. apply list_elem_of_In, in_concat.
    eexists. split.
    + apply list_elem_of_In, list_elem_of_fmap. exists c. split; [done|].
      apply list_elem_of_filter. split; [|done].
      by rewrite (is_dir_literal fs Hwf Hnl).
    + rewrite (is_symlink_literal fs Hwf Hnl) by done. simpl.
      apply list_elem_of_In. by rewrite <-app_assoc in Hin.
Qed.

Lemma length_le_max_depth (p : path) :
  is_Some (fs !! p) → (length p ≤ max_depth fs)%nat.
Proof.
  intros Hin. unfold max_depth. apply max_list_elem_of_le.
  apply list_elem_of_fmap. exists p. split; [done|].
  by apply elem_of_elements, elem_of_dom.
Qed.

(** The scan of a directory returns the paths of everything below it. *)
Lemma scan_spec (root rel : path) :
  valid_path root = true → dir_at fs root = true →
  rel ∈ get_relative_paths fs root false ↔
  rel ≠ [] ∧ is_Some (fs !! (root ++ rel)).
Proof.
  intros Hv Hroot. rewrite elem_of_get_relative_paths. unfold os_walk. split.
  - intros (t & dirs & files & rd & Hin & Hrd & Hcase).
    apply walk_sound in Hin as (r & -> & Hd & Hfiles); [|done].
    rewrite relative_to_app in Hrd. simplify_eq.
    destruct Hcase as [[Hne ->]|(f & Hf & ->)].
    + split; [done|]. by apply dir_at_is_Some.
    + split; [by destruct rd|]. apply Hfiles in Hf as [Hf _].
      by rewrite app_assoc.
  - intros [Hne Hin].
    destruct (dir_at fs (root ++ rel)) eqn:Hd.
    + destruct (walk_complete (walk_fuel fs) root rel Hv Hd) as (dirs & files & Hw).
      { apply dir_at_is_Some, length_le_max_depth in Hd.
        rewrite length_app in Hd. unfold walk_fuel. lia. }
      exists (root ++ rel), dirs, files, rel.
      split; [done|]. split; [apply relative_to_app|]. by left.
    + destruct rel as [|c rel _] using rev_ind; [done|].
      rewrite app_assoc in Hin, Hd.
      destruct (well_formed_snoc fs _ _ Hwf Hin) as [_ Hp].
      destruct (walk_complete (walk_fuel fs) root rel Hv Hp) as (dirs & files & Hw).
      { apply dir_at_is_Some, length_le_max_depth in Hp.
        rewrite length_app in Hp. unfold walk_fuel. lia. }
      exists (root ++ rel), dirs, files, rel.
      split; [done|]. split; [apply relative_to_app|]. right.
      exists c. split; [|done].
      apply walk_sound in Hw as (r & Hr & _ & Hfiles); [|done].
      by apply Hfiles.
Qed.

Lemma scan_missing (root : path) :
  valid_path root = true → dir_at fs root = false →
  get_relative_paths fs root false = ∅.
Proof.
  intros Hv Hd. unfold get_relative_paths, os_walk, walk_fuel.
  rewrite walk_S, scandir_literal by done. by rewrite Hd.
Qed.
End walk.


(* ===================================================================== *)
(** ** System calls on a link-free tree *)
(* ===================================================================== *)

Lemma same_entry_refl (a : option node) : same_entry a a.
Proof. by destruct a as [[]|]. Qed.

Lemma same_entry_trans (a b c : option node) :
  same_entry a b → same_entry b c → same_entry a c.
Proof.
  destruct a as [[]|], b as [[]|], c as [[]|]; simpl; try done; congruence.
Qed.

Lemma same_entry_is_Some (a b : option node) :
  same_entry a b → (is_Some a ↔ is_Some b).
Proof.
  destruct a as [[]|], b as [[]|]; simpl; try done;
    intros _; split; intros _; eauto.
Qed.

Lemma same_entry_None_l (b : option node) : same_entry None b → b = None.
Proof. by destruct b. Qed.

Lemma same_entry_None_r (a : option node) : same_entry a None → a = None.
Proof. by destruct a as [[]|]. Qed.

Lemma same_entry_nondir (a : option node) n :
  same_entry a (Some n) → is_dir_node n = false → a = Some n.
Proof. destruct a as [[]|], n; simpl; try done; congruence. Qed.

Lemma same_entry_nondir_l (b : option node) n :
  same_entry (Some n) b → is_dir_node n = false → b = Some n.
Proof. destruct b as [[]|], n; simpl; try done; congruence. Qed.

Lemma same_entry_kind (n n' : node) :
  same_entry (Some n) (Some n') → same_kind n n' = true.
Proof. destruct n, n'; simpl; try done; intros; by simplify_eq. Qed.

Lemma same_entry_dir_at_eq (fs fs' : FS) (q : path) :
  same_entry (fs !! q) (fs' !! q) → dir_at fs' q = dir_at fs q.
Proof.
  unfold dir_at. destruct (fs !! q) as [[]|], (fs' !! q) as [[]|]; simpl; try done;
    intros; by simplify_eq.
Qed.

Lemma lookup_touch (now : Z) (d q : path) (fs : FS) :
  touch now d fs !! q =
  if decide (d = q)
  then (λ n, with_meta n (Meta now (st_atime n) (st_mode n))) <$> fs !! d
  else fs !! q.
Proof.
  unfold touch. case_decide as Hq.
  - subst. by rewrite lookup_alter_eq.
  - by rewrite lookup_alter_ne.
Qed.

Lemma same_entry_touch (now : Z) (d q : path) (fs : FS) :
  (∀ n, fs !! d = Some n → is_dir_node n = true) →
  same_entry (fs !! q) (touch now d fs !! q).
Proof.
  intros Hd. rewrite lookup_touch. case_decide; [|apply same_entry_refl].
  subst. destruct (fs !! q) as [n|] eqn:Hn; [|done].
  specialize (Hd n eq_refl). by destruct n.
Qed.

(** Well-formedness in pointwise form. *)
Lemma well_formed_alt (fs : FS) :
  well_formed fs = true ↔
  dir_at fs [] = true ∧
  ∀ p c, is_Some (fs !! (p ++ [c])) → valid_name c = true ∧ dir_at fs p = true.
Proof.
  split.
  - intros Hwf. split; [by apply well_formed_root|]. intros p c. by apply well_formed_snoc.
  - intros [? ?]. by apply well_formed_intro.
Qed.

Lemma well_formed_same_entry (fs fs' : FS) :
  well_formed fs = true → (∀ q, same_entry (fs !! q) (fs' !! q)) →
  well_formed fs' = true.
Proof.
  rewrite !well_formed_alt. intros [Hroot Hall] Hsame. split.
  - by rewrite (same_entry_dir_at_eq fs fs').
  - intros p c Hin. apply (same_entry_is_Some _ _ (Hsame _)) in Hin.
    rewrite (same_entry_dir_at_eq fs fs') by done. by apply Hall.
Qed.

Lemma no_links_same_entry (fs fs' : FS) :
  no_links fs = true → (∀ q, same_entry (fs !! q) (fs' !! q)) →
  no_links fs' = true.
Proof.
  rewrite !no_links_spec. intros Hnl Hsame p n Hp.
  specialize (Hsame p). rewrite Hp in Hsame.
  destruct (fs !! p) as [n0|] eqn:Hn0; [|by destruct n].
  apply Hnl in Hn0. destruct n0, n; simpl in *; try done.
Qed.

Lemma well_formed_insert_new (fs : FS) (p : path) (c : string) (n : node) :
  well_formed fs = true → valid_name c = true → dir_at fs p = true →
  fs !! (p ++ [c]) = None →
  well_formed (<[p ++ [c] := n]> fs) = true.
Proof.
  rewrite !well_formed_alt. intros [Hroot Hall] Hc Hp Hnone.
  assert (∀ q, dir_at fs q = true → dir_at (<[p ++ [c] := n]> fs) q = true) as Hmono.
  { intros q Hq. unfold dir_at in *. rewrite lookup_insert_ne; [done|].
    intros <-. by rewrite Hnone in Hq. }
  split; [by apply Hmono|].
  intros p' c' Hin. destruct (decide (p ++ [c] = p' ++ [c'])) as [Heq|Hne].
  - apply app_inj_tail in Heq as [-> ->]. split; [done|]. by apply Hmono.
  - rewrite lookup_insert_ne in Hin by done.
    destruct (Hall _ _ Hin) as [? ?]. split; [done|]. by apply Hmono.
Qed.

Lemma no_links_insert (fs : FS) (q : path) (n : node) :
  no_links fs = true → is_link_node n = false → no_links (<[q := n]> fs) = true.
Proof.
  rewrite !no_links_spec. intros Hnl Hn p n' Hp.
  destruct (decide (q = p)) as [->|Hne].
  - rewrite lookup_insert_eq in Hp. by simplify_eq.
  - rewrite lookup_insert_ne in Hp by done. eauto.
Qed.

Lemma well_formed_pointwise (fs fs' : FS) :
  well_formed fs = true →
  (∀ q, dir_at fs' q = dir_at fs q) →
  (∀ q, is_Some (fs' !! q) → is_Some (fs !! q)) →
  well_formed fs' = true.
Proof.
  rewrite !well_formed_alt. intros [Hroot Hall] Hd Hs. split.
  - by rewrite Hd.
  - intros p c Hin. rewrite Hd. by apply Hall, Hs.
Qed.

Lemma well_formed_insert_file (fs : FS) (q : path) m c m' c' :
  well_formed fs = true → fs !! q = Some (NFile m c) →
  well_formed (<[q := NFile m' c']> fs) = true.
Proof.
  intros Hwf Hq. apply (well_formed_pointwise fs); [done| |].
  - intros p. unfold dir_at. destruct (decide (q = p)) as [->|Hne].
    + by rewrite lookup_insert_eq, Hq.
    + by rewrite lookup_insert_ne.
  - intros p. destruct (decide (q = p)) as [->|Hne].
    + rewrite Hq. eauto.
    + by rewrite lookup_insert_ne.
Qed.

Lemma well_formed_delete_leaf (fs : FS) (q : path) :
  well_formed fs = true → q ≠ [] → (∀ c, fs !! (q ++ [c]) = None) →
  well_formed (delete q fs) = true.
Proof.
  rewrite !well_formed_alt. intros [Hroot Hall] Hne Hleaf.
  assert (∀ p, p ≠ q → dir_at (delete q fs) p = dir_at fs p) as Hd.
  { intros p Hp. unfold dir_at. by rewrite lookup_delete_ne. }
  split; [by rewrite Hd|].
  intros p c Hin. destruct (decide (q = p ++ [c])) as [->|Hqp].
  { rewrite lookup_delete_eq in Hin. by destruct Hin. }
  rewrite lookup_delete_ne in Hin by done.
  destruct (Hall _ _ Hin) as [? ?]. split; [done|].
  rewrite Hd; [done|]. intros ->. rewrite Hleaf in Hin. by destruct Hin.
Qed.

Lemma no_links_delete (fs : FS) (q : path) :
  no_links fs = true → no_links (delete q fs) = true.
Proof.
  rewrite !no_links_spec. intros Hnl p n Hp.
  destruct (decide (q = p)) as [->|Hne].
  - by rewrite lookup_delete_eq in Hp.
  - rewrite lookup_delete_ne in Hp by done. eauto.
Qed.

Lemma well_formed_touch (now : Z) (d : path) (fs : FS) :
  well_formed fs = true → well_formed (touch now d fs) = true.
Proof.
  intros Hwf. apply (well_formed_pointwise fs); [done| |].
  - intros q. unfold dir_at. rewrite lookup_touch. case_decide; [|done].
    subst. by destruct (fs !! q) as [[]|].
  - intros q. rewrite lookup_touch. case_decide; [|done].
    subst. by rewrite fmap_is_Some.
Qed.

Lemma no_links_touch (now : Z) (d : path) (fs : FS) :
  no_links fs = true → no_links (touch now d fs) = true.
Proof.
  rewrite !no_links_spec. intros Hnl p n. rewrite lookup_touch.
  case_decide; [|by eauto]. subst.
  destruct (fs !! p) as [n0|] eqn:Hn0; [|done]. simpl. intros [= <-].
  apply Hnl in Hn0. by destruct n0.
Qed.

Lemma dir_at_touch (now : Z) (d q : path) (fs : FS) :
  dir_at (touch now d fs) q = dir_at fs q.
Proof.
  unfold dir_at. rewrite lookup_touch. case_decide; [|done].
  subst. by destruct (fs !! q) as [[]|].
Qed.

Lemma touch_None (now : Z) (d q : path) (fs : FS) :
  fs !! q = None → touch now d fs !! q = None.
Proof.
  intros Hq. rewrite lookup_touch. case_decide; [|done]. subst. by rewrite Hq.
Qed.

(** *** [os.mkdir] and [Path.mkdir(parents=True, exist_ok=True)] *)

Section calls.
Context (now : Z).

Lemma mkdir_new (fs : FS) (p : path) (c : string) :
  well_formed fs = true → no_links fs = true →
  valid_path (p ++ [c]) = true → dir_at fs p = true → fs !! (p ++ [c]) = None →
  mkdir now fs (p ++ [c]) =
  inl (<[p ++ [c] := NDir new_dir_size (Meta now now new_dir_mode)]> (touch now p fs)).
Proof.
  intros Hwf Hnl Hv Hd Hnone. unfold mkdir.
  rewrite resolve_Missing by done. by rewrite removelast_snoc.
Qed.

Lemma mkdir_exists (fs : FS) (p : path) :
  well_formed fs = true → no_links fs = true → is_Some (fs !! p) →
  mkdir now fs p = inr EEXIST.
Proof.
  intros Hwf Hnl Hin. unfold mkdir. by rewrite resolve_Found.
Qed.

Lemma mkdir_enoent (fs : FS) (p : path) (c : string) :
  well_formed fs = true → no_links fs = true →
  valid_path (p ++ [c]) = true → fs !! p = None →
  (∀ k n, k `prefix_of` p → fs !! k = Some n → is_dir_node n = true) →
  mkdir now fs (p ++ [c]) = inr ENOENT.
Proof.
  intros Hwf Hnl Hv Hnone Hpre. unfold mkdir.
  by rewrite resolve_ENOENT.
Qed.

(** The state after [mkdir] of a new entry. *)
Lemma mkdir_new_post (fs : FS) (p : path) (c : string) :
  well_formed fs = true → no_links fs = true →
  valid_path (p ++ [c]) = true → dir_at fs p = true → fs !! (p ++ [c]) = None →
  let fs' := <[p ++ [c] := NDir new_dir_size (Meta now now new_dir_mode)]>
               (touch now p fs) in
  well_formed fs' = true ∧ no_links fs' = true
  ∧ dir_at fs' (p ++ [c]) = true
  ∧ (∀ q, q ≠ p ++ [c] → same_entry (fs !! q) (fs' !! q))
  ∧ (∀ q, q ≠ p ++ [c] → q ≠ p → fs' !! q = fs !! q).
Proof.
  intros Hwf Hnl Hv Hd Hnone fs'. subst fs'.
  apply valid_path_app in Hv as [Hvp Hvc]. simpl in Hvc.
  rewrite andb_true_r in Hvc.
  split; [|split; [|split; [|split]]].
  - apply well_formed_insert_new; [by apply well_formed_touch|done| |].
    + by rewrite dir_at_touch.
    + by apply touch_None.
  - apply no_links_insert; [by apply no_links_touch|done].
  - unfold dir_at. by rewrite lookup_insert_eq.
  - intros q Hq. rewrite lookup_insert_ne by done.
    apply same_entry_touch. intros n Hn. unfold dir_at in Hd. by rewrite Hn in Hd.
  - intros q Hq Hqp. rewrite lookup_insert_ne by done.
    rewrite lookup_touch. by rewrite decide_False.
Qed.
End calls.

Lemma prefix_snoc_inv {A} (q l : list A) (x : A) :
  q `prefix_of` l ++ [x] → q `prefix_of` l ∨ q = l ++ [x].
Proof.
  intros [k Hk]. destruct k as [|y k _] using rev_ind.
  - right. by rewrite app_nil_r in Hk.
  - left. rewrite app_assoc in Hk. apply app_inj_tail in Hk as [-> _]. by exists k.
Qed.

Lemma prefix_app_same {A} (l k : list A) : l `prefix_of` l ++ k.
Proof. by exists k. Qed.

Section mkdir_parents.
Context (now : Z).

Lemma mkdir_parents_rev_nil (fs : FS) :
  mkdir_parents_rev now fs [] =
  match mkdir now fs [] with
  | inl fs' => (fs', true)
  | inr ENOENT => (fs, false)
  | inr _ => (fs, is_dir fs [])
  end.
Proof. done. Qed.

Lemma mkdir_parents_rev_cons (fs : FS) (c : string) (rp : list string) :
  mkdir_parents_rev now fs (c :: rp) =
  match mkdir now fs (reverse (c :: rp)) with
  | inl fs' => (fs', true)
  | inr ENOENT =>
      let '(fs1, ok) := mkdir_parents_rev now fs rp in
      if ok then
        match mkdir now fs1 (reverse (c :: rp)) with
        | inl fs2 => (fs2, true)
        | inr ENOENT => (fs1, false)
        | inr _ => (fs1, is_dir fs1 (reverse (c :: rp)))
        end
      else (fs1, false)
  | inr _ => (fs, is_dir fs (reverse (c :: rp)))
  end.
Proof. done. Qed.

Lemma mkdir_parents_rev_ok (rp : list string) (fs : FS) :
  well_formed fs = true → no_links fs = true →
  valid_path (reverse rp) = true →
  (∀ q n, q `prefix_of` reverse rp → fs !! q = Some n → is_dir_node n = true) →
  ∃ fs', mkdir_parents_rev now fs rp = (fs', true)
    ∧ well_formed fs' = true ∧ no_links fs' = true
    ∧ (∀ q, q `prefix_of` reverse rp → dir_at fs' q = true)
    ∧ (∀ q, ¬ q `prefix_of` reverse rp → fs' !! q = fs !! q)
    ∧ (∀ q, same_entry (fs !! q) (fs' !! q)
            ∨ (fs !! q = None ∧ q `prefix_of` reverse rp)).
Proof.
  revert fs. induction rp as [|c rp IH]; intros fs Hwf Hnl Hv Hpre.
  - exists fs. rewrite mkdir_parents_rev_nil, mkdir_exists; [|done|done|].
    2:{ apply dir_at_is_Some. by apply well_formed_root. }
    rewrite is_dir_literal by done. rewrite (well_formed_root fs Hwf).
    split; [done|]. split; [done|]. split; [done|]. split.
    { intros q Hq%prefix_nil_inv. subst. by apply well_formed_root. }
    split; [done|]. intros q. left. apply same_entry_refl.
  - rewrite reverse_cons in Hv, Hpre |- *.
    set (p' := reverse rp) in *. set (p := p' ++ [c]) in *.
    pose proof Hv as Hv'. apply valid_path_app in Hv' as [Hvp' _].
    destruct (fs !! p) as [n|] eqn:Hp.
    + (* the directory is there already *)
      assert (is_dir_node n = true) as Hn by (by apply (Hpre p n)).
      exists fs. rewrite mkdir_parents_rev_cons, reverse_cons. fold p' p.
      rewrite mkdir_exists by eauto.
      rewrite is_dir_literal by done. unfold dir_at at 1. rewrite Hp, Hn.
      split; [done|]. split; [done|]. split; [done|]. split.
      { intros q [k Hk]. destruct k as [|x k].
        - rewrite app_nil_r in Hk. subst q. unfold dir_at. by rewrite Hp.
        - eapply wf_prefix_dir; [done| |]; [rewrite <-Hk; eauto|done]. }
      split; [done|]. intros q. left. apply same_entry_refl.
    + destruct (dir_at fs p') eqn:Hdp'.
      * (* only the last component is missing *)
        rewrite mkdir_parents_rev_cons, reverse_cons. fold p' p.
        unfold p. rewrite mkdir_new by done.
        destruct (mkdir_new_post now fs p' c Hwf Hnl Hv Hdp' Hp)
          as (Hwf' & Hnl' & Hd' & Hsame & Hframe).
        eexists. split; [done|]. split; [done|]. split; [done|]. split.
        { intros q [Hq| ->]%prefix_snoc_inv; [|done].
          rewrite (same_entry_dir_at_eq fs).
          - destruct Hq as [[|x k] Hk].
            + rewrite app_nil_r in Hk. by subst.
            + apply (wf_prefix_dir fs q (x :: k)); [done| |done].
              rewrite <-Hk. by apply dir_at_is_Some.
          - apply Hsame. intros ->. by apply prefix_snoc_not in Hq. }
        split.
        { intros q Hq. apply Hframe.
          - intros ->. by apply Hq.
          - intros ->. apply Hq, prefix_app_same. }
        intros q. destruct (decide (q = p' ++ [c])) as [->|Hne].
        -- right. done.
        -- left. by apply Hsame.
      * (* the parent is missing as well *)
        assert (fs !! p' = None) as Hp'.
        { destruct (fs !! p') as [n|] eqn:Hn; [|done].
          unfold dir_at in Hdp'. rewrite Hn in Hdp'.
          rewrite (Hpre p' n) in Hdp'; [done|apply prefix_app_same|done]. }
        destruct (IH fs Hwf Hnl Hvp') as (fs1 & Hrun & Hwf1 & Hnl1 & Hd1 & Hfr1 & Hs1).
        { intros q n Hq. apply Hpre. by apply prefix_app_r. }
        assert (fs1 !! p = None) as Hp1.
        { rewrite Hfr1; [done|]. apply prefix_snoc_not. }
        assert (dir_at fs1 p' = true) as Hdp1 by (by apply Hd1).
        destruct (mkdir_new_post now fs1 p' c Hwf1 Hnl1 Hv Hdp1 Hp1)
          as (Hwf' & Hnl' & Hd' & Hsame & Hframe).
        rewrite mkdir_parents_rev_cons, reverse_cons. fold p' p.
        unfold p at 1. rewrite mkdir_enoent; [|done|done|done|done|].
        2:{ intros k n Hk. apply Hpre. by apply prefix_app_r. }
        fold p'. rewrite Hrun. unfold p. rewrite mkdir_new by done.
        eexists. split; [done|]. split; [done|]. split; [done|]. split.
        { intros q [Hq| ->]%prefix_snoc_inv; [|done].
          rewrite (same_entry_dir_at_eq fs1); [by apply Hd1|].
          apply Hsame. intros ->. by apply prefix_snoc_not in Hq. }
        split.
        { intros q Hq. rewrite Hframe.
          - apply Hfr1. intros Hq'. apply Hq. by apply prefix_app_r.
          - intros ->. by apply Hq.
          - intros ->. apply Hq, prefix_app_same. }
        intros q. destruct (decide (q = p' ++ [c])) as [->|Hne].
        -- right. done.
        -- destruct (Hs1 q) as [Hse|[Hnone Hq]].
           ++ left. eapply same_entry_trans; [done|]. by apply Hsame.
           ++ right. split; [done|]. by apply prefix_app_r.
Qed.

Lemma mkdir_parents_ok (fs : FS) (p : path) :
  well_formed fs = true → no_links fs = true → valid_path p = true →
  (∀ q n, q `prefix_of` p → fs !! q = Some n → is_dir_node n = true) →
  ∃ fs', mkdir_parents now fs p = (fs', true)
    ∧ well_formed fs' = true ∧ no_links fs' = true
    ∧ (∀ q, q `prefix_of` p → dir_at fs' q = true)
    ∧ (∀ q, ¬ q `prefix_of` p → fs' !! q = fs !! q)
    ∧ (∀ q, same_entry (fs !! q) (fs' !! q) ∨ (fs !! q = None ∧ q `prefix_of` p)).
Proof.
  intros Hwf Hnl Hv Hpre. unfold mkdir_parents.
  destruct (mkdir_parents_rev_ok (reverse p) fs) as (fs' & H); try done.
  - by rewrite reverse_involutive.
  - by rewrite reverse_involutive.
  - rewrite reverse_involutive in H. by exists fs'.
Qed.
End mkdir_parents.


(* ===================================================================== *)
(** ** The delete phase on a link-free tree *)
(* ===================================================================== *)

Section removal.
Context (now : Z).

(** The state after removing the leaf entry [q]. *)
Lemma removal_post (fs : FS) (q : path) :
  well_formed fs = true → no_links fs = true →
  q ≠ [] → is_Some (fs !! q) → (∀ c, fs !! (q ++ [c]) = None) →
  let fs' := delete q (touch now (removelast q) fs) in
  well_formed fs' = true ∧ no_links fs' = true
  ∧ fs' !! q = None
  ∧ (∀ q', q' ≠ q → same_entry (fs !! q') (fs' !! q'))
  ∧ (∀ q', q' ≠ q → q' ≠ removelast q → fs' !! q' = fs !! q').
Proof.
  intros Hwf Hnl Hne Hin Hleaf fs'. subst fs'.
  split; [|split; [|split; [|split]]].
  - apply well_formed_delete_leaf; [by apply well_formed_touch|done|].
    intros c. by apply touch_None.
  - by apply no_links_delete, no_links_touch.
  - apply lookup_delete_eq.
  - intros q' Hq'. rewrite lookup_delete_ne by done.
    apply same_entry_touch. intros n Hn.
    destruct q as [|c q _] using rev_ind; [done|].
    rewrite removelast_snoc in Hn.
    destruct (well_formed_snoc fs q c Hwf Hin) as [_ Hd].
    unfold dir_at in Hd. by rewrite Hn in Hd.
  - intros q' Hq' Hq''. rewrite lookup_delete_ne by done.
    rewrite lookup_touch. by rewrite decide_False.
Qed.

Lemma delete_step_leaf (D : path) (st : del_state) (rel : path) :
  well_formed (ds_fs st) = true → no_links (ds_fs st) = true →
  D ++ rel ≠ [] → is_Some (ds_fs st !! (D ++ rel)) →
  (∀ c, ds_fs st !! ((D ++ rel) ++ [c]) = None) →
  delete_step now D false st rel =
  DelState (delete (D ++ rel) (touch now (removelast (D ++ rel)) (ds_fs st)))
           (S (ds_deleted st)) (ds_errors st).
Proof.
  intros Hwf Hnl Hne [n Hn] Hleaf.
  assert (resolve (ds_fs st) false (D ++ rel) = Found (D ++ rel)) as Hr
    by (apply resolve_Found; eauto).
  destruct n as [sz m|m c|m t].
  - rewrite (delete_step_dir now D st rel (D ++ rel) sz m Hr Hn Hne).
    by rewrite (proj2 (children_nil _ _) Hleaf).
  - by rewrite (delete_step_nondir now D st rel (D ++ rel) _ Hr Hn).
  - by rewrite (delete_step_nondir now D st rel (D ++ rel) _ Hr Hn).
Qed.

Lemma delete_loop_ok (D : path) (l : list path) (fs : FS) (n e : nat) :
  well_formed fs = true → no_links fs = true →
  NoDup l → StronglySorted deeper_first l →
  (∀ rel, rel ∈ l → rel ≠ [] ∧ is_Some (fs !! (D ++ rel))) →
  (∀ rel c, rel ∈ l → is_Some (fs !! (D ++ rel ++ [c])) → rel ++ [c] ∈ l) →
  let st := foldl (delete_step now D false) (DelState fs n e) l in
  well_formed (ds_fs st) = true ∧ no_links (ds_fs st) = true
  ∧ ds_deleted st = (n + length l)%nat ∧ ds_errors st = e
  ∧ (∀ rel, rel ∈ l → ds_fs st !! (D ++ rel) = None)
  ∧ (∀ q, (∀ rel, rel ∈ l → q ≠ D ++ rel) → same_entry (fs !! q) (ds_fs st !! q))
  ∧ (∀ q, ¬ D `prefix_of` q → ds_fs st !! q = fs !! q).
Proof.
  revert fs n. induction l as [|rel l IH]; intros fs n Hwf Hnl Hnd Hsort Hin Hch.
  { simpl. split; [done|]. split; [done|]. split; [lia|]. split; [done|].
    split; [by intros ? ?%elem_of_nil|]. split; [intros; apply same_entry_refl|done]. }
  apply NoDup_cons in Hnd as [Hnotin Hnd].
  apply StronglySorted_inv in Hsort as [Hsort Hall].
  destruct (Hin rel) as [Hne Hsome]; [left|].
  assert (D ++ rel ≠ []) as HneD by (by destruct D, rel).
  assert (∀ c, fs !! ((D ++ rel) ++ [c]) = None) as Hleaf.
  { intros c. destruct (fs !! ((D ++ rel) ++ [c])) eqn:Hc; [|done]. exfalso.
    assert (rel ++ [c] ∈ rel :: l) as Hmem.
    { apply Hch; [left|]. rewrite app_assoc, Hc. eauto. }
    apply elem_of_cons in Hmem as [Heq|Hmem].
    - apply (f_equal length) in Heq. rewrite length_app in Heq. simpl in Heq. lia.
    - rewrite Forall_forall in Hall. apply Hall in Hmem.
      unfold deeper_first, depth in Hmem. rewrite length_app in Hmem.
      simpl in Hmem. lia. }
  simpl foldl.
  rewrite (delete_step_leaf D (DelState fs n e) rel) by done. simpl ds_fs.
  simpl ds_deleted. simpl ds_errors.
  destruct (removal_post fs (D ++ rel) Hwf Hnl HneD Hsome Hleaf)
    as (Hwf' & Hnl' & Hgone & Hsame & Hframe).
  set (fs' := delete (D ++ rel) (touch now (removelast (D ++ rel)) fs)) in *.
  destruct (IH fs' (S n) Hwf' Hnl' Hnd Hsort)
    as (Hwf2 & Hnl2 & Hcnt & Herr & Hnone & Hsame2 & Hframe2).
  { intros r Hr. destruct (Hin r) as [? Hs]; [by right|]. split; [done|].
    apply (same_entry_is_Some _ _ (Hsame (D ++ r) ltac:(intros ?%app_inv_head; by subst))).
    done. }
  { intros r c Hr Hs.
    assert (D ++ r ++ [c] ≠ D ++ rel) as Hneq.
    { intros Heq. rewrite Heq, Hgone in Hs. by destruct Hs. }
    apply (same_entry_is_Some _ _ (Hsame _ Hneq)) in Hs.
    assert (r ++ [c] ∈ rel :: l) as Hmem by (apply Hch; [by right|done]).
    apply elem_of_cons in Hmem as [Heq|?]; [|done].
    by rewrite Heq in Hneq. }
  split; [done|]. split; [done|]. split; [simpl; lia|]. split; [done|].
  split; [|split].
  - intros r [->|Hr]%elem_of_cons; [|by apply Hnone].
    apply same_entry_None_l. rewrite <-Hgone. apply Hsame2.
    intros r Hr ?%app_inv_head. by subst.
  - intros q Hq. eapply same_entry_trans.
    + apply Hsame. apply Hq. left.
    + apply Hsame2. intros r Hr. apply Hq. by right.
  - intros q Hq. rewrite Hframe2 by done. apply Hframe.
    + intros ->. apply Hq, prefix_app_same.
    + intros ->. apply Hq. rewrite removelast_app by done. apply prefix_app_same.
Qed.
End removal.


(* ===================================================================== *)
(** ** Copying and re-stamping on a link-free tree *)
(* ===================================================================== *)

Lemma lookup_alter_meta (g : node → meta) (q q' : path) (fs : FS) :
  alter (λ n, with_meta n (g n)) q fs !! q' =
  if decide (q = q') then (λ n, with_meta n (g n)) <$> fs !! q else fs !! q'.
Proof.
  case_decide as Hq.
  - subst. by rewrite lookup_alter_eq.
  - by rewrite lookup_alter_ne.
Qed.

Lemma well_formed_alter_meta (g : node → meta) (q : path) (fs : FS) :
  well_formed fs = true → well_formed (alter (λ n, with_meta n (g n)) q fs) = true.
Proof.
  intros Hwf. apply (well_formed_pointwise fs); [done| |].
  - intros p. unfold dir_at. rewrite lookup_alter_meta. case_decide; [|done].
    subst. by destruct (fs !! p) as [[]|].
  - intros p. rewrite lookup_alter_meta. case_decide; [|done].
    subst. by rewrite fmap_is_Some.
Qed.

Lemma no_links_alter_meta (g : node → meta) (q : path) (fs : FS) :
  no_links fs = true → no_links (alter (λ n, with_meta n (g n)) q fs) = true.
Proof.
  rewrite !no_links_spec. intros Hnl p n. rewrite lookup_alter_meta.
  case_decide; [|by eauto]. subst.
  destruct (fs !! p) as [n0|] eqn:Hn0; [|done]. simpl. intros [= <-].
  apply Hnl in Hn0. by destruct n0.
Qed.

Lemma same_entry_alter_meta_dir (g : node → meta) (q q' : path) (fs : FS) :
  dir_at fs q = true →
  same_entry (fs !! q') (alter (λ n, with_meta n (g n)) q fs !! q').
Proof.
  intros Hd. rewrite lookup_alter_meta. case_decide; [|apply same_entry_refl].
  subst. apply dir_at_Some in Hd as (sz & m & ->). done.
Qed.

Section restamp.
Context (fs : FS) (Hwf : well_formed fs = true) (Hnl : no_links fs = true).

Lemma utime_literal (q : path) (atime mtime : Z) :
  is_Some (fs !! q) →
  utime fs q atime mtime =
  inl (alter (λ n, with_meta n (Meta mtime atime (st_mode n))) q fs).
Proof. intros Hin. unfold utime. by rewrite resolve_Found. Qed.

Lemma chmod_literal (q : path) (mode : Z) :
  is_Some (fs !! q) →
  chmod fs q mode =
  inl (alter (λ n, with_meta n (Meta (st_mtime n) (st_atime n) mode)) q fs).
Proof. intros Hin. unfold chmod. by rewrite resolve_Found. Qed.

(** Re-stamping a directory from a directory changes directory metadata
    only. *)
Lemma fix_metadata_dir (src dst : path) :
  valid_path src = true → dir_at fs src = true → dir_at fs dst = true →
  let fs' := fix_metadata fs src dst in
  well_formed fs' = true ∧ no_links fs' = true
  ∧ (∀ q, same_entry (fs !! q) (fs' !! q))
  ∧ (∀ q, q ≠ dst → fs' !! q = fs !! q).
Proof.
  intros Hv Hs Hd fs'. subst fs'. unfold fix_metadata.
  rewrite stat_literal by done.
  pose proof Hs as Hs'. apply dir_at_Some in Hs' as (sz & m & Hsrc). rewrite Hsrc.
  rewrite chmod_literal by (by apply dir_at_is_Some).
  set (fs1 := alter _ dst fs).
  assert (well_formed fs1 = true) as Hwf1 by (by apply well_formed_alter_meta).
  assert (no_links fs1 = true) as Hnl1 by (by apply no_links_alter_meta).
  assert (∀ q, same_entry (fs !! q) (fs1 !! q)) as Hs1
    by (intros q; by apply same_entry_alter_meta_dir).
  assert (dir_at fs1 dst = true) as Hd1
    by (by rewrite (same_entry_dir_at_eq fs fs1)).
  unfold utime. rewrite resolve_Found; [|done|done|by apply dir_at_is_Some].
  set (fs2 := alter _ dst fs1).
  split; [by apply well_formed_alter_meta|].
  split; [by apply no_links_alter_meta|]. split.
  - intros q. eapply same_entry_trans; [apply Hs1|].
    by apply same_entry_alter_meta_dir.
  - intros q Hq. unfold fs2, fs1. by rewrite !lookup_alter_ne.
Qed.
End restamp.

Section copy_file.
Context (now : Z).

Lemma copy_file_post (fs : FS) (src p : path) (c : string) sm content :
  well_formed fs = true → no_links fs = true →
  valid_path src = true → valid_path (p ++ [c]) = true →
  fs !! src = Some (NFile sm content) → dir_at fs p = true → src ≠ p ++ [c] →
  (∀ n, fs !! (p ++ [c]) = Some n → is_file_node n = true) →
  ∃ fs', copy_with_metadata now fs src (p ++ [c]) = (fs', true)
    ∧ well_formed fs' = true ∧ no_links fs' = true
    ∧ fs' !! (p ++ [c]) =
        Some (NFile (Meta (m_mtime sm) (m_atime sm) (S_IMODE (m_mode sm))) content)
    ∧ (∀ q, q ≠ p ++ [c] → same_entry (fs !! q) (fs' !! q))
    ∧ (∀ q, q ≠ p ++ [c] → q ≠ p → fs' !! q = fs !! q).
Proof.
  intros Hwf Hnl Hvs Hvd Hsrc Hp Hne Hdst.
  set (dst := p ++ [c]) in *.
  set (copy := NFile (Meta (m_mtime sm) (m_atime sm) (S_IMODE (m_mode sm))) content).
  assert (src ≠ p) as Hsp.
  { intros ->. unfold dir_at in Hp. by rewrite Hsrc in Hp. }
  (* the state after [shutil.copy2] *)
  assert (∃ fs1, copy2 now fs src dst = inl fs1
            ∧ well_formed fs1 = true ∧ no_links fs1 = true
            ∧ fs1 !! dst = Some copy
            ∧ (∀ q, q ≠ dst → same_entry (fs !! q) (fs1 !! q))
            ∧ (∀ q, q ≠ dst → q ≠ p → fs1 !! q = fs !! q)) as (fs1 & Hc2 & Hwf1 & Hnl1 & Hd1 & Hs1 & Hf1).
  { unfold copy2. rewrite is_dir_literal by done.
    assert (dir_at fs dst = false) as ->.
    { unfold dir_at. destruct (fs !! dst) as [n|] eqn:Hn; [|done].
      pose proof (Hdst n eq_refl) as Hf. by destruct n. }
    unfold copyfile_copystat. rewrite resolve_Found by eauto. rewrite Hsrc.
    fold copy. destruct (fs !! dst) as [n|] eqn:Hn.
    - rewrite resolve_Found by eauto. rewrite decide_False by done. rewrite Hn.
      pose proof (Hdst n eq_refl) as Hfile. destruct n as [|dm dc|]; try done.
      eexists. split; [done|].
      split; [by eapply well_formed_insert_file|].
      split; [by apply no_links_insert|].
      split; [by rewrite lookup_insert_eq|]. split.
      + intros q Hq. rewrite lookup_insert_ne by done. apply same_entry_refl.
      + intros q Hq _. by rewrite lookup_insert_ne.
    - unfold dst. rewrite resolve_Missing by done. rewrite removelast_snoc.
      apply valid_path_app in Hvd as [_ Hvc]. simpl in Hvc.
      rewrite andb_true_r in Hvc.
      eexists. split; [done|]. split.
      { apply well_formed_insert_new; [by apply well_formed_touch|done| |].
        - by rewrite dir_at_touch.
        - by apply touch_None. }
      split; [apply no_links_insert; [by apply no_links_touch|done]|].
      split; [by rewrite lookup_insert_eq|]. split.
      + intros q Hq. rewrite lookup_insert_ne by done.
        apply same_entry_touch. intros n' Hn'. unfold dir_at in Hp.
        by rewrite Hn' in Hp.
      + intros q Hq Hqp. rewrite lookup_insert_ne by done.
        rewrite lookup_touch. by rewrite decide_False. }
  unfold copy_with_metadata. rewrite is_symlink_literal by done.
  rewrite Hc2. rewrite stat_literal by done.
  rewrite Hf1 by done. rewrite Hsrc.
  rewrite utime_literal by (done || eauto).
  set (fs2 := alter _ dst fs1).
  assert (well_formed fs2 = true) as Hwf2 by (by apply well_formed_alter_meta).
  assert (no_links fs2 = true) as Hnl2 by (by apply no_links_alter_meta).
  assert (fs2 !! dst = Some copy) as Hd2.
  { unfold fs2. rewrite lookup_alter_eq, Hd1. done. }
  rewrite chmod_literal by (done || eauto).
  eexists. split; [done|].
  split; [by apply well_formed_alter_meta|].
  split; [by apply no_links_alter_meta|]. split.
  { rewrite lookup_alter_eq, Hd2. done. }
  split.
  - intros q Hq. unfold fs2. rewrite !lookup_alter_ne by done. by apply Hs1.
  - intros q Hq Hqp. unfold fs2. rewrite !lookup_alter_ne by done. by apply Hf1.
Qed.
End copy_file.


(* ===================================================================== *)
(** ** The copy phase on a link-free tree *)
(* ===================================================================== *)

Lemma prefix_of_app_cases {A} (q d rel : list A) :
  q `prefix_of` d ++ rel → q `prefix_of` d ∨ ∃ k, q = d ++ k ∧ k `prefix_of` rel.
Proof.
  intros Hq. destruct (prefix_weak_total q d (d ++ rel) Hq (prefix_app_same _ _))
    as [?|[k ->]]; [by left|].
  right. exists k. split; [done|]. by eapply prefix_app_inv.
Qed.

Lemma prefix_snoc_strict {A} (k r : list A) (c : A) :
  k `prefix_of` r → k `prefix_of` r ++ [c] ∧ k ≠ r ++ [c].
Proof.
  intros Hk. split; [by apply prefix_app_r|].
  intros ->. by apply prefix_snoc_not in Hk.
Qed.

Section copy_step.
Context (now : Z) (S D : path) (tol : Z).
Context (HvS : valid_path S = true) (HvD : valid_path D = true).
Context (HSD : ¬ S `prefix_of` D) (HDS : ¬ D `prefix_of` S).

Lemma source_apart (q rel : path) : q `prefix_of` D ++ rel → ¬ S `prefix_of` q.
Proof.
  intros Hq HS.
  assert (S `prefix_of` D ++ rel) as HS' by (by etrans).
  destruct (prefix_weak_total S D (D ++ rel) HS' (prefix_app_same _ _)); done.
Qed.

Lemma source_dest_ne (rel rel' : path) : S ++ rel ≠ D ++ rel'.
Proof.
  intros Heq. apply (source_apart (D ++ rel') rel'); [done|].
  rewrite <-Heq. apply prefix_app_same.
Qed.

(** Everything that exists on the way to [D ++ rel'] is a directory. *)
Lemma dirs_towards (fs : FS) (rel' : path) :
  well_formed fs = true → dir_at fs D = true →
  (∀ k n, k `prefix_of` rel' → fs !! (D ++ k) = Some n → is_dir_node n = true) →
  ∀ q n, q `prefix_of` D ++ rel' → fs !! q = Some n → is_dir_node n = true.
Proof.
  intros Hwf HD Hanc q n Hq Hn.
  destruct (prefix_of_app_cases _ _ _ Hq) as [[k Hk]|(k & -> & Hk)].
  - assert (dir_at fs q = true) as Hd.
    { destruct k as [|x k]; [rewrite app_nil_r in Hk; by subst|].
      apply (wf_prefix_dir fs q (x :: k)); [done| |done].
      rewrite <-Hk. by apply dir_at_is_Some. }
    unfold dir_at in Hd. by rewrite Hn in Hd.
  - by apply (Hanc k n).
Qed.

Section step.
Context (st : copy_state) (rel : path) (a : node).
Context (Hwf : well_formed (cs_fs st) = true) (Hnl : no_links (cs_fs st) = true).
Context (HD : dir_at (cs_fs st) D = true).
Context (Hrel : rel ≠ []) (Ha : cs_fs st !! (S ++ rel) = Some a).
Context (Hanc : ∀ k n, k `prefix_of` rel → k ≠ rel →
                  cs_fs st !! (D ++ k) = Some n → is_dir_node n = true).
Context (Hkind : ∀ b, cs_fs st !! (D ++ rel) = Some b → same_kind a b = true).

Lemma step_valid_src : valid_path (S ++ rel) = true.
Proof. apply (wf_valid_suffix (cs_fs st) [] (S ++ rel)); [done|]. simpl. eauto. Qed.

Lemma step_valid_dst : valid_path (D ++ rel) = true.
Proof.
  apply valid_path_app. split; [done|].
  apply (wf_valid_suffix (cs_fs st) S rel); [done|eauto].
Qed.

Lemma copy_step_dir sz m :
  a = NDir sz m →
  let st' := copy_step now S D false tol st rel in
  well_formed (cs_fs st') = true ∧ no_links (cs_fs st') = true
  ∧ cs_failed st' = cs_failed st ∧ cs_errors st' = cs_errors st
  ∧ cs_copied st' = cs_copied st
  ∧ cs_dirs st' = cs_dirs st ++ [(S ++ rel, D ++ rel)]
  ∧ (∀ q, ¬ q `prefix_of` D ++ rel → cs_fs st' !! q = cs_fs st !! q)
  ∧ (∀ q, same_entry (cs_fs st !! q) (cs_fs st' !! q)
          ∨ (cs_fs st !! q = None ∧ q `prefix_of` D ++ rel))
  ∧ dir_at (cs_fs st') (D ++ rel) = true
  ∧ (∀ q, q `prefix_of` D ++ rel → dir_at (cs_fs st') q = true)
  ∧ (is_Some (cs_fs st !! (D ++ rel)) →
     cs_fs st' = cs_fs st ∧ cs_created st' = cs_created st).
Proof.
  pose proof step_valid_src as Hvs. pose proof step_valid_dst as Hvd.
  intros -> st'. subst st'. unfold copy_step.
  assert (is_dir (cs_fs st) (S ++ rel) = true) as ->.
  { rewrite is_dir_literal by done. unfold dir_at. by rewrite Ha. }
  rewrite (is_symlink_literal (cs_fs st) Hwf Hnl (S ++ rel) Hvs).
  cbn [andb negb].
  rewrite (path_exists_literal (cs_fs st) Hwf Hnl (D ++ rel) Hvd).
  destruct (cs_fs st !! (D ++ rel)) as [b|] eqn:Hb.
  - rewrite bool_decide_eq_true_2 by eauto. cbn [negb cs_fs].
    rewrite (path_exists_literal (cs_fs st) Hwf Hnl (D ++ rel) Hvd), Hb.
    rewrite bool_decide_eq_true_2 by eauto. simpl.
    pose proof (Hkind b eq_refl) as Hk. destruct b; try done.
    split; [done|]. split; [done|]. split; [done|]. split; [done|].
    split; [done|]. split; [done|]. split; [done|].
    split; [intros q; left; apply same_entry_refl|].
    split; [unfold dir_at; by rewrite Hb|]. split; [|done].
    intros q [k Hk']. destruct k as [|x k].
    + rewrite app_nil_r in Hk'. subst q. unfold dir_at. by rewrite Hb.
    + apply (wf_prefix_dir _ q (x :: k)); [done| |done]. rewrite <-Hk', Hb. eauto.
  - rewrite bool_decide_eq_false_2 by (by intros [? ?]). simpl.
    destruct (mkdir_parents_ok now (cs_fs st) (D ++ rel) Hwf Hnl Hvd)
      as (fs' & Hrun & Hwf' & Hnl' & Hd' & Hfr & Hse).
    { apply dirs_towards; [done|done|]. intros k n Hk Hn.
      apply (Hanc k n); [done| |done]. intros ->. congruence. }
    rewrite Hrun. cbn [cs_fs].
    rewrite (path_exists_literal fs' Hwf' Hnl' (D ++ rel) Hvd).
    rewrite bool_decide_eq_true_2
      by (apply dir_at_is_Some, Hd'; done).
    simpl.
    split; [done|]. split; [done|]. split; [done|]. split; [done|].
    split; [done|]. split; [done|]. split; [done|]. split; [done|].
    split; [by apply Hd'|]. split; [done|]. by intros [? ?].
Qed.

Lemma copy_step_file sm content :
  a = NFile sm content →
  let st' := copy_step now S D false tol st rel in
  well_formed (cs_fs st') = true ∧ no_links (cs_fs st') = true
  ∧ cs_failed st' = cs_failed st ∧ cs_errors st' = cs_errors st
  ∧ cs_created st' = cs_created st
  ∧ cs_dirs st' = cs_dirs st
  ∧ (∀ q, ¬ q `prefix_of` D ++ rel → cs_fs st' !! q = cs_fs st !! q)
  ∧ (∀ q, q ≠ D ++ rel →
          same_entry (cs_fs st !! q) (cs_fs st' !! q)
          ∨ (cs_fs st !! q = None ∧ q `prefix_of` D ++ rel
             ∧ dir_at (cs_fs st') q = true))
  ∧ (∃ b, cs_fs st' !! (D ++ rel) = Some b ∧ file_synced (Z.max 0 tol) a b)
  ∧ (∀ b, cs_fs st !! (D ++ rel) = Some b → file_synced tol a b → st' = st).
Proof.
  pose proof step_valid_src as Hvs. pose proof step_valid_dst as Hvd.
  intros -> st'. subst st'. unfold copy_step.
  assert (is_dir (cs_fs st) (S ++ rel) = false) as ->.
  { rewrite is_dir_literal by done. unfold dir_at. by rewrite Ha. }
  cbn [andb negb].
  assert (∀ fs1,
    well_formed fs1 = true → no_links fs1 = true →
    fs1 !! (S ++ rel) = Some (NFile sm content) →
    dir_at fs1 (removelast (D ++ rel)) = true →
    (∀ n, fs1 !! (D ++ rel) = Some n → is_file_node n = true) →
    ∃ fs2, copy_with_metadata now fs1 (S ++ rel) (D ++ rel) = (fs2, true)
      ∧ well_formed fs2 = true ∧ no_links fs2 = true
      ∧ fs2 !! (D ++ rel) =
          Some (NFile (Meta (m_mtime sm) (m_atime sm) (S_IMODE (m_mode sm))) content)
      ∧ (∀ q, q ≠ D ++ rel → same_entry (fs1 !! q) (fs2 !! q))
      ∧ (∀ q, ¬ q `prefix_of` D ++ rel → fs2 !! q = fs1 !! q)) as Hcopy.
  { intros fs1 Hwf1 Hnl1 Hs1 Hp1 Hd1.
    destruct rel as [|c r _] using rev_ind; [done|].
    rewrite !app_assoc in *. rewrite removelast_snoc in Hp1.
    destruct (copy_file_post now fs1 ((S ++ r) ++ [c]) (D ++ r) c sm content)
      as (fs2 & Hrun & Hwf2 & Hnl2 & Hd2 & Hse2 & Hfr2); try done.
    { rewrite <-!app_assoc. apply source_dest_ne. }
    exists fs2. repeat (split; [done|]). intros q Hq. apply Hfr2.
    - intros ->. by apply Hq.
    - intros ->. apply Hq, prefix_app_same. }
  assert (file_synced (Z.max 0 tol) (NFile sm content)
            (NFile (Meta (m_mtime sm) (m_atime sm) (S_IMODE (m_mode sm))) content))
    as Hsynced.
  { unfold file_synced, st_mtime. simpl. split; [done|]. split; [done|]. lia. }
  unfold should_copy. rewrite path_exists_literal by done.
  destruct (cs_fs st !! (D ++ rel)) as [b|] eqn:Hb.
  - (* the destination file exists *)
    rewrite bool_decide_eq_true_2 by eauto. simpl.
    rewrite is_symlink_literal by done.
    rewrite !lstat_literal by done. rewrite Ha, Hb.
    pose proof (Hkind b eq_refl) as Hk. destruct b as [|dm dc|]; try done.
    assert (dir_at (cs_fs st) (removelast (D ++ rel)) = true) as Hpar.
    { destruct rel as [|c r _] using rev_ind; [done|].
      rewrite app_assoc in *. rewrite removelast_snoc.
      apply (well_formed_snoc (cs_fs st) (D ++ r) c); [done|]. rewrite Hb. eauto. }
    assert (valid_path (removelast (D ++ rel)) = true) as Hvpar.
    { destruct rel as [|c r _] using rev_ind; [done|].
      rewrite app_assoc in *. rewrite removelast_snoc.
      by apply valid_path_app in Hvd as [? _]. }
    case_decide as Hsz.
    + (* sizes differ: copy *)
      unfold parent_of. rewrite path_exists_literal by done.
      rewrite bool_decide_eq_true_2 by (by apply dir_at_is_Some). simpl.
      destruct (Hcopy (cs_fs st)) as (fs2 & Hrun & Hwf2 & Hnl2 & Hd2 & Hse2 & Hfr2);
        try done.
      { intros n. rewrite Hb. by intros [= <-]. }
      rewrite Hrun. simpl.
      repeat (split; [done|]). split.
      { intros q Hq. left. by apply Hse2. }
      split; [eauto|].
      intros b' [= <-] (_ & Hsize & _). by destruct Hsz.
    + case_decide as Hmt.
      * (* times apart: copy *)
        unfold parent_of. rewrite path_exists_literal by done.
        rewrite bool_decide_eq_true_2 by (by apply dir_at_is_Some). simpl.
        destruct (Hcopy (cs_fs st)) as (fs2 & Hrun & Hwf2 & Hnl2 & Hd2 & Hse2 & Hfr2);
          try done.
        { intros n. rewrite Hb. by intros [= <-]. }
        rewrite Hrun. simpl.
        repeat (split; [done|]). split.
        { intros q Hq. left. by apply Hse2. }
        split; [eauto|].
        intros b' [= <-] (_ & _ & Htime). lia.
      * (* nothing to do *)
        repeat (split; [done|]). split.
        { intros q _. left. apply same_entry_refl. }
        split; [|done].
        exists (NFile dm dc). split; [done|]. unfold file_synced.
        split; [done|]. unfold st_size, st_mtime in *. simpl in *. lia.
  - (* there is no destination file *)
    rewrite bool_decide_eq_false_2 by (by intros [? ?]). simpl.
    destruct rel as [|c r _] using rev_ind; [done|].
    assert (valid_path (D ++ r) = true) as Hvpar.
    { rewrite app_assoc in Hvd. by apply valid_path_app in Hvd as [? _]. }
    assert (∃ fs1, (if negb (path_exists (cs_fs st) (parent_of (D ++ r ++ [c])))
                    then mkdir_parents now (cs_fs st) (parent_of (D ++ r ++ [c]))
                    else (cs_fs st, true)) = (fs1, true)
              ∧ well_formed fs1 = true ∧ no_links fs1 = true
              ∧ dir_at fs1 (D ++ r) = true
              ∧ (∀ q, q `prefix_of` D ++ r → dir_at fs1 q = true)
              ∧ (∀ q, ¬ q `prefix_of` D ++ r → fs1 !! q = cs_fs st !! q)
              ∧ (∀ q, same_entry (cs_fs st !! q) (fs1 !! q)
                      ∨ (cs_fs st !! q = None ∧ q `prefix_of` D ++ r)))
      as (fs1 & Hmk & Hwf1 & Hnl1 & Hp1 & Hpre1 & Hfr1 & Hse1).
    { unfold parent_of. rewrite app_assoc, removelast_snoc.
      assert (∀ q n, q `prefix_of` D ++ r → cs_fs st !! q = Some n →
                     is_dir_node n = true) as Hdirs.
      { apply dirs_towards; [done|done|]. intros k n Hk Hn.
        apply (Hanc k n); [by apply prefix_app_r| |done].
        intros ->. by apply prefix_snoc_not in Hk. }
      rewrite path_exists_literal by done.
      destruct (cs_fs st !! (D ++ r)) as [n|] eqn:Hn.
      - rewrite bool_decide_eq_true_2 by eauto. simpl.
        assert (dir_at (cs_fs st) (D ++ r) = true) as Hdr.
        { unfold dir_at. rewrite Hn. by apply (Hdirs (D ++ r) n). }
        exists (cs_fs st). repeat (split; [done|]). split.
        { intros q [k Hk]. destruct k as [|x k].
          - rewrite app_nil_r in Hk. by subst q.
          - apply (wf_prefix_dir _ q (x :: k)); [done| |done].
            rewrite <-Hk. by apply dir_at_is_Some. }
        split; [done|]. intros q. left. apply same_entry_refl.
      - rewrite bool_decide_eq_false_2 by (by intros [? ?]). simpl.
        destruct (mkdir_parents_ok now (cs_fs st) (D ++ r) Hwf Hnl Hvpar Hdirs)
          as (fs1 & Hrun & Hwf1 & Hnl1 & Hd1 & Hfr1 & Hse1).
        exists fs1. repeat (split; [done|]). split; [by apply Hd1|]. done. }
    rewrite Hmk.
    destruct (Hcopy fs1) as (fs2 & Hrun & Hwf2 & Hnl2 & Hd2 & Hse2 & Hfr2); try done.
    { rewrite Hfr1; [done|]. intros Hq. apply (source_apart (D ++ r) r); [done|].
      etrans; [apply prefix_app_same|exact Hq]. }
    { by rewrite app_assoc, removelast_snoc. }
    { intros n. rewrite Hfr1; [by rewrite Hb|].
      rewrite app_assoc. apply prefix_snoc_not. }
    rewrite Hrun. simpl.
    repeat (split; [done|]). split.
    { intros q Hq. rewrite Hfr2 by done. apply Hfr1.
      intros Hq'. apply Hq. rewrite app_assoc. by apply prefix_app_r. }
    split.
    { intros q Hq. destruct (Hse1 q) as [Hs|[Hnone Hpq]].
      - left. eapply same_entry_trans; [done|]. by apply Hse2.
      - right. split; [done|]. split.
        + rewrite app_assoc. by apply prefix_app_r.
        + rewrite (same_entry_dir_at_eq fs1 fs2); [by apply Hpre1|by apply Hse2]. }
    split; [eauto|]. by intros b ?.
Qed.
End step.
End copy_step.


(* ===================================================================== *)
(** ** The copy loop keeps its invariant *)
(* ===================================================================== *)

Lemma same_kind_trans (a b c : node) :
  same_kind a b = true → same_kind b c = true → same_kind a c = true.
Proof. by destruct a, b, c. Qed.

Lemma same_kind_dir (a b : node) :
  same_kind a b = true → is_dir_node a = true → is_dir_node b = true.
Proof. by destruct a, b. Qed.

Lemma same_kind_of_dirs (a b : node) :
  is_dir_node a = true → is_dir_node b = true → same_kind a b = true.
Proof. by destruct a, b. Qed.

Lemma dir_at_lookup (fs : FS) (p : path) (n : node) :
  dir_at fs p = true → fs !! p = Some n → is_dir_node n = true.
Proof. unfold dir_at. intros Hd Hn. by rewrite Hn in Hd. Qed.

Section copy_loop.
Context (now : Z) (S D : path) (tol : Z).
Context (HvS : valid_path S = true) (HvD : valid_path D = true).
Context (HSD : ¬ S `prefix_of` D) (HDS : ¬ D `prefix_of` S).
Context (ref : FS) (kept : gset path).
Context (Hkept_src : ∀ rel, rel ∈ kept → rel ≠ [] ∧ is_Some (ref !! (S ++ rel))).
Context (Hkept_closed :
           ∀ k rel, rel ∈ kept → k `prefix_of` rel → k ≠ [] → k ∈ kept).

(** Earlier results survive a step that leaves them [same_entry]. *)
Lemma done_survives (fs fs' : FS) (r : path) (a b0 : node) :
  fs !! (D ++ r) = Some b0 →
  (is_file_node a = true → file_synced (Z.max 0 tol) a b0) →
  same_entry (fs !! (D ++ r)) (fs' !! (D ++ r)) →
  ∃ b, fs' !! (D ++ r) = Some b ∧
       (is_file_node a = true → file_synced (Z.max 0 tol) a b).
Proof.
  intros Hb0 Hsync Hs. rewrite Hb0 in Hs.
  destruct (is_dir_node b0) eqn:Hd.
  - destruct (fs' !! (D ++ r)) as [b|] eqn:Hb; [|by destruct b0].
    exists b. split; [done|]. intros Hf. destruct (Hsync Hf) as [Hfb _].
    by destruct b0.
  - apply same_entry_nondir_l in Hs; [|done]. eauto.
Qed.

Lemma copy_step_inv (st : copy_state) (rel : path) (done : list path) :
  rel ∈ kept →
  copy_invariant S D tol ref kept (cs_fs st) done (cs_dirs st) →
  copy_invariant S D tol ref kept
    (cs_fs (copy_step now S D false tol st rel)) (done ++ [rel])
    (cs_dirs (copy_step now S D false tol st rel))
  ∧ cs_failed (copy_step now S D false tol st rel) = cs_failed st
  ∧ cs_errors (copy_step now S D false tol st rel) = cs_errors st.
Proof.
  intros Hrel (Hwf & Hnl & Hsrc & HD & Hjunk & Hkinds & Hdone & Hdirs).
  destruct (Hkept_src rel Hrel) as [Hne [a Ha]].
  assert (cs_fs st !! (S ++ rel) = Some a) as Ha'
    by (rewrite Hsrc; [done|apply prefix_app_same]).
  assert (∀ k, k `prefix_of` rel → k ≠ rel → dir_at ref (S ++ k) = true) as Hsrcdir.
  { intros k [s ->] Hk. destruct s as [|x s]; [by rewrite app_nil_r in Hk|].
    unfold dir_at. rewrite <-Hsrc by apply prefix_app_same.
    apply (wf_prefix_dir (cs_fs st) (S ++ k) (x :: s)); [done| |done].
    rewrite <-app_assoc, Ha'. eauto. }
  assert (∀ k n, k `prefix_of` rel → k ≠ rel →
                 cs_fs st !! (D ++ k) = Some n → is_dir_node n = true) as Hanc.
  { intros k n Hk Hkne Hn. destruct (decide (k = [])) as [->|Hk0].
    - rewrite app_nil_r in Hn. by apply (dir_at_lookup (cs_fs st) D).
    - pose proof (Hsrcdir k Hk Hkne) as Hd.
      apply dir_at_Some in Hd as (sz & m & Hd).
      apply (same_kind_dir (NDir sz m) n); [|done].
      apply (Hkinds k); [by apply (Hkept_closed k rel)|done|done]. }
  assert (∀ b, cs_fs st !! (D ++ rel) = Some b → same_kind a b = true) as Hkind
    by (intros b Hb; by apply (Hkinds rel)).
  assert (∀ r, r `prefix_of` rel → r ≠ [] → r ∈ kept) as Hclosed
    by (intros r Hr ?; by apply (Hkept_closed r rel)).
  destruct a as [sz m|sm content|m t].
  - (* a directory *)
    destruct (copy_step_dir now S D tol HvD HSD HDS st rel _ Hwf Hnl HD Ha' Hanc
                Hkind sz m eq_refl)
      as (Hwf' & Hnl' & Hf & He & Hc & Hdl & Hfr & Hse & Hdd & Hpre & _).
    split; [|done]. unfold copy_invariant.
    split; [done|]. split; [done|]. split.
    { intros q Hq. rewrite Hfr; [by apply Hsrc|].
      intros Hq'. by apply (source_apart S D HSD HDS q rel Hq'). }
    split; [apply Hpre, prefix_app_same|]. split.
    { intros r Hr Hin. destruct (Hse (D ++ r)) as [Hs|[Hnone Hp]].
      - apply Hjunk; [done|]. by apply (same_entry_is_Some _ _ Hs).
      - apply prefix_app_inv in Hp. by apply Hclosed. }
    split.
    { intros r a' b' Hr Ha'' Hb'. destruct (Hse (D ++ r)) as [Hs|[Hnone Hp]].
      - rewrite Hb' in Hs.
        destruct (cs_fs st !! (D ++ r)) as [b0|] eqn:Hb0; [|by destruct b'].
        apply (same_kind_trans a' b0 b'); [by apply (Hkinds r)|].
        by apply same_entry_kind.
      - apply prefix_app_inv in Hp. apply same_kind_of_dirs.
        + destruct (decide (r = rel)) as [->|Hrne].
          * rewrite Ha in Ha''. by simplify_eq.
          * by apply (dir_at_lookup ref (S ++ r)); [apply Hsrcdir|].
        + eapply dir_at_lookup; [|exact Hb']. by apply Hpre, prefix_app. }
    split.
    { intros r a' Hr Ha''. apply elem_of_app in Hr as [Hr|Hr].
      - destruct (Hdone r a' Hr Ha'') as (b0 & Hb0 & Hsync).
        destruct (Hse (D ++ r)) as [Hs|[Hnone _]]; [|congruence].
        by apply (done_survives (cs_fs st) _ r a' b0).
      - apply list_elem_of_singleton in Hr as ->.
        rewrite Ha in Ha''. simplify_eq.
        apply dir_at_Some in Hdd as (sz' & m' & Hdd'). eexists. split; [done|]. done. }
    rewrite Hdl. apply Forall_app. split; [done|]. constructor; [|done].
    exists rel. split; [done|]. split; [done|]. unfold dir_at. by rewrite Ha.
  - (* a regular file *)
    destruct (copy_step_file now S D tol HvD HSD HDS st rel _ Hwf Hnl HD Hne Ha' Hanc
                Hkind sm content eq_refl)
      as (Hwf' & Hnl' & Hf & He & Hcr & Hdl & Hfr & Hse & (b & Hb & Hsync) & _).
    assert (∀ r, r ≠ rel → D ++ r ≠ D ++ rel) as Hneq
      by (intros r Hr ?%app_inv_head; done).
    split; [|done]. unfold copy_invariant.
    split; [done|]. split; [done|]. split.
    { intros q Hq. rewrite Hfr; [by apply Hsrc|].
      intros Hq'. by apply (source_apart S D HSD HDS q rel Hq'). }
    split.
    { destruct (Hse D) as [Hs|(_ & _ & ?)]; [|by rewrite (same_entry_dir_at_eq (cs_fs st))|done].
      intros Heq. apply (f_equal length) in Heq. rewrite length_app in Heq.
      destruct rel; [done|simpl in Heq; lia]. }
    split.
    { intros r Hr Hin. destruct (decide (r = rel)) as [->|Hrne]; [done|].
      destruct (Hse (D ++ r) (Hneq r Hrne)) as [Hs|(Hnone & Hp & _)].
      - apply Hjunk; [done|]. by apply (same_entry_is_Some _ _ Hs).
      - apply prefix_app_inv in Hp. by apply Hclosed. }
    split.
    { intros r a' b' Hr Ha'' Hb'. destruct (decide (r = rel)) as [->|Hrne].
      - rewrite Ha in Ha''. rewrite Hb in Hb'. simplify_eq.
        destruct Hsync as [Hfb _]. by destruct b'.
      - destruct (Hse (D ++ r) (Hneq r Hrne)) as [Hs|(Hnone & Hp & Hd)].
        + rewrite Hb' in Hs.
          destruct (cs_fs st !! (D ++ r)) as [b0|] eqn:Hb0; [|by destruct b'].
          apply (same_kind_trans a' b0 b'); [by apply (Hkinds r)|].
          by apply same_entry_kind.
        + apply prefix_app_inv in Hp. apply same_kind_of_dirs.
          * by apply (dir_at_lookup ref (S ++ r)); [apply Hsrcdir|].
          * eapply dir_at_lookup; [|exact Hb']. done. }
    split.
    { intros r a' Hr Ha''. destruct (decide (r = rel)) as [->|Hrne].
      - rewrite Ha in Ha''. simplify_eq. eauto.
      - apply elem_of_app in Hr as [Hr|Hr].
        + destruct (Hdone r a' Hr Ha'') as (b0 & Hb0 & Hsync0).
          destruct (Hse (D ++ r) (Hneq r Hrne)) as [Hs|[Hnone _]]; [|congruence].
          by apply (done_survives (cs_fs st) _ r a' b0).
        + by apply list_elem_of_singleton in Hr. }
    by rewrite Hdl.
  - (* no links *)
    by destruct (no_link_at (cs_fs st) Hnl _ _ _ Ha').
Qed.

Lemma copy_loop_inv (l : list path) (st : copy_state) (done : list path) :
  (∀ rel, rel ∈ l → rel ∈ kept) →
  copy_invariant S D tol ref kept (cs_fs st) done (cs_dirs st) →
  let st' := foldl (copy_step now S D false tol) st l in
  copy_invariant S D tol ref kept (cs_fs st') (done ++ l) (cs_dirs st')
  ∧ cs_failed st' = cs_failed st ∧ cs_errors st' = cs_errors st.
Proof.
  revert st done. induction l as [|rel l IH]; intros st done Hl Hinv; simpl.
  - by rewrite app_nil_r.
  - destruct (copy_step_inv st rel done) as (Hinv' & Hf & He); [apply Hl; left|done|].
    destruct (IH (copy_step now S D false tol st rel) (done ++ [rel])) as (? & ? & ?);
      [intros r Hr; apply Hl; by right|done|].
    rewrite <-app_assoc in *. simpl in *. split; [done|]. split; congruence.
Qed.
End copy_loop.


(* ===================================================================== *)
(** ** A whole run on a link-free tree *)
(* ===================================================================== *)

Lemma elem_of_prefixes (q p : path) : q ∈ prefixes p ↔ q `prefix_of` p.
Proof.
  unfold prefixes. rewrite list_elem_of_fmap. split.
  - intros (n & -> & _). apply prefix_take.
  - intros [k ->]. exists (length q). split.
    + by rewrite take_app_length.
    + apply elem_of_seq. rewrite length_app. lia.
Qed.

Lemma dest_ok_spec (fs : FS) (D : path) :
  dest_ok fs D = true ↔
  ∀ q n, q `prefix_of` D → fs !! q = Some n → is_dir_node n = true.
Proof.
  unfold dest_ok. rewrite forallb_forall. split.
  - intros Hall q n Hq Hn. specialize (Hall q). rewrite Hn in Hall.
    by apply Hall, list_elem_of_In, elem_of_prefixes.
  - intros Hall q Hq. apply list_elem_of_In, elem_of_prefixes in Hq.
    destruct (fs !! q) as [n|] eqn:Hn; [|done]. by apply (Hall q n).
Qed.

Lemma kinds_agree_spec (fs : FS) (S D : path) (kept : gset path) :
  kinds_agree fs S D kept = true ↔
  ∀ rel a b, rel ∈ kept → fs !! (S ++ rel) = Some a → fs !! (D ++ rel) = Some b →
             same_kind a b = true.
Proof.
  unfold kinds_agree. rewrite forallb_forall. split.
  - intros Hall rel a b Hrel Ha Hb. specialize (Hall rel). rewrite Ha, Hb in Hall.
    by apply Hall, list_elem_of_In, elem_of_elements.
  - intros Hall rel Hrel. apply list_elem_of_In, elem_of_elements in Hrel.
    destruct (fs !! (S ++ rel)) as [a|] eqn:Ha; [|done].
    destruct (fs !! (D ++ rel)) as [b|] eqn:Hb; [|done]. by apply (Hall rel).
Qed.

Lemma is_path_inside_false (child parent : path) :
  is_path_inside child parent = false ↔ ¬ parent `prefix_of` child.
Proof. by rewrite <-is_path_inside_spec, not_true_iff_false. Qed.

Lemma mirror_inputs_spec (fs : FS) (S D : path) (xp : option (gset string)) :
  mirror_inputs fs S D xp = true ↔
  well_formed fs = true ∧ no_links fs = true
  ∧ valid_path S = true ∧ valid_path D = true ∧ dir_at fs S = true
  ∧ ¬ S `prefix_of` D ∧ ¬ D `prefix_of` S
  ∧ dest_ok fs D = true
  ∧ kinds_agree fs S D (filter_source xp (get_relative_paths fs S false)) = true.
Proof.
  unfold mirror_inputs. rewrite !andb_true_iff, !negb_true_iff, !is_path_inside_false.
  tauto.
Qed.

(** The kept paths are paths of the source, and contain their ancestors. *)
Section kept.
Context (fs : FS) (Hwf : well_formed fs = true) (Hnl : no_links fs = true).
Context (S : path) (HvS : valid_path S = true) (HS : dir_at fs S = true).
Context (xp : option (gset string)).

Lemma kept_source (rel : path) :
  rel ∈ filter_source xp (get_relative_paths fs S false) →
  rel ≠ [] ∧ is_Some (fs !! (S ++ rel)).
Proof.
  intros [Hin _]%elem_of_filter_source. by apply scan_spec in Hin.
Qed.

Lemma kept_closed (k rel : path) :
  rel ∈ filter_source xp (get_relative_paths fs S false) →
  k `prefix_of` rel → k ≠ [] →
  k ∈ filter_source xp (get_relative_paths fs S false).
Proof.
  intros [Hin Hex]%elem_of_filter_source [s ->] Hk.
  apply scan_spec in Hin as [_ Hin]; [|done..].
  apply elem_of_filter_source. split.
  - apply scan_spec; [done..|]. split; [done|].
    rewrite app_assoc in Hin. by eapply wf_prefix_is_Some.
  - destruct xp as [pats|]; [|done].
    destruct (excluded pats k) eqn:Hek; [|done].
    by rewrite (excluded_app pats k s Hk Hek) in Hex.
Qed.
End kept.

Lemma scan_ext (fs fs' : FS) (R : path) :
  well_formed fs = true → no_links fs = true →
  well_formed fs' = true → no_links fs' = true →
  valid_path R = true → dir_at fs R = true → dir_at fs' R = true →
  (∀ rel, is_Some (fs !! (R ++ rel)) ↔ is_Some (fs' !! (R ++ rel))) →
  get_relative_paths fs R false = get_relative_paths fs' R false.
Proof.
  intros Hwf Hnl Hwf' Hnl' Hv Hd Hd' Hiff. apply set_eq. intros rel.
  rewrite !scan_spec by done. by rewrite Hiff.
Qed.

(** *** The metadata pass *)

Lemma fixup_loop_ok (S D : path) (dirs : list (path * path)) (fs : FS) :
  well_formed fs = true → no_links fs = true →
  ¬ S `prefix_of` D → ¬ D `prefix_of` S →
  Forall (λ sd, ∃ rel, sd = (S ++ rel, D ++ rel)
                       ∧ dir_at fs (S ++ rel) = true ∧ dir_at fs (D ++ rel) = true) dirs →
  let fs' := foldl (λ fs '(src_path, dst_path), fix_metadata fs src_path dst_path)
                   fs dirs in
  well_formed fs' = true ∧ no_links fs' = true
  ∧ (∀ q, same_entry (fs !! q) (fs' !! q))
  ∧ (∀ q, S `prefix_of` q → fs' !! q = fs !! q).
Proof.
  intros Hwf Hnl HSD HDS. revert fs Hwf Hnl.
  induction dirs as [|[s d] dirs IH]; intros fs Hwf Hnl Hall; simpl.
  { split; [done|]. split; [done|]. split; [intros; apply same_entry_refl|done]. }
  apply Forall_cons in Hall as [(rel & Heq & Hs & Hd) Hall]. simplify_eq.
  destruct (fix_metadata_dir fs Hwf Hnl (S ++ rel) (D ++ rel))
    as (Hwf1 & Hnl1 & Hse1 & Hfr1); [|done|done|].
  { apply (wf_valid_suffix fs [] (S ++ rel)); [done|]. by apply dir_at_is_Some. }
  destruct (IH (fix_metadata fs (S ++ rel) (D ++ rel)) Hwf1 Hnl1)
    as (Hwf2 & Hnl2 & Hse2 & Hfr2).
  { eapply Forall_impl; [exact Hall|]. intros [s d] (r & Heq & Hs' & Hd').
    simplify_eq. exists r. split; [done|].
    by rewrite !(same_entry_dir_at_eq fs (fix_metadata fs (S ++ rel) (D ++ rel))). }
  split; [done|]. split; [done|]. split.
  - intros q. eapply same_entry_trans; [apply Hse1|apply Hse2].
  - intros q Hq. rewrite Hfr2 by done. apply Hfr1.
    intros ->. by apply (source_apart S D HSD HDS (D ++ rel) rel).
Qed.


(** A run that gets past validation and the creation of the destination
    root is the three phases in sequence. *)
Lemma sync_directories_phases (now : Z) (fs fs0 : FS) (S D : path) (dry : bool)
    (xp : option (gset string)) (tol : Z)
    (kept dest_paths : gset path) (d : del_state) (c : copy_state) :
  path_exists fs S = true → is_dir fs S = true → D ≠ S →
  is_path_inside D S = false → is_path_inside S D = false →
  (if negb (path_exists fs D) && negb dry then mkdir_parents now fs D else (fs, true))
  = (fs0, true) →
  kept = filter_source xp (get_relative_paths fs0 S false) →
  dest_paths = (if path_exists fs0 D then get_relative_paths fs0 D false else ∅) →
  d = delete_phase now D dry fs0 (paths_to_delete dest_paths kept) →
  c = copy_phase now S D dry tol (ds_fs d) (ds_errors d) kept →
  sync_directories now fs S D dry xp tol =
  Run (fixup_phase S D dry (cs_fs c) (cs_dirs c)) (cs_errors c)
      (Done (cs_created c) (cs_copied c) (ds_deleted d) (cs_failed c)).
Proof.
  intros HeS HdS Hne Hin1 Hin2 Hprep -> -> -> ->. unfold sync_directories.
  rewrite HeS, HdS. cbn [negb]. rewrite decide_False by done.
  rewrite Hin1, Hin2, Hprep. done.
Qed.

Section phases.
Context (now : Z) (fs : FS) (S D : path) (xp : option (gset string)) (tol : Z).
Context (Hwf : well_formed fs = true) (Hnl : no_links fs = true).
Context (HvS : valid_path S = true) (HvD : valid_path D = true).
Context (HS : dir_at fs S = true).
Context (HSD : ¬ S `prefix_of` D) (HDS : ¬ D `prefix_of` S).

Lemma apart_from_dest (q : path) : S `prefix_of` q → ¬ q `prefix_of` D.
Proof. intros Hq Hq'. apply HSD. by etrans. Qed.

Lemma not_under_dest (q : path) : S `prefix_of` q → ¬ D `prefix_of` q.
Proof. intros Hq Hq'. destruct (prefix_weak_total S D q Hq Hq'); done. Qed.

Lemma below_dest_strict (rel : path) : rel ≠ [] → ¬ D ++ rel `prefix_of` D.
Proof.
  intros Hrel Hp. apply prefix_length in Hp. rewrite length_app in Hp.
  destruct rel; [done|simpl in Hp; lia].
Qed.

Lemma below_dest_ne (rel : path) : rel ≠ [] → D ≠ D ++ rel.
Proof.
  intros Hrel HDeq. apply (f_equal length) in HDeq. rewrite length_app in HDeq.
  destruct rel; [done|simpl in HDeq; lia].
Qed.

(** The delete phase establishes the invariant of the copy loop. *)
Lemma delete_phase_mirror (fs0 : FS) (kept : gset path) :
  kept = filter_source xp (get_relative_paths fs S false) →
  kinds_agree fs S D kept = true →
  well_formed fs0 = true → no_links fs0 = true → dir_at fs0 D = true →
  (∀ q, ¬ q `prefix_of` D → fs0 !! q = fs !! q) →
  copy_invariant S D tol fs kept
    (ds_fs (delete_phase now D false fs0
              (paths_to_delete (get_relative_paths fs0 D false) kept))) [] []
  ∧ ds_errors (delete_phase now D false fs0
                 (paths_to_delete (get_relative_paths fs0 D false) kept)) = 0%nat.
Proof.
  intros Hkept Hka Hwf0 Hnl0 HD0 Hfr0.
  pose proof (kept_source fs Hwf Hnl S HvS HS xp) as Hksrc. rewrite <-Hkept in Hksrc.
  pose proof (kept_closed fs Hwf Hnl S HvS HS xp) as Hkcl. rewrite <-Hkept in Hkcl.
  generalize dependent (get_relative_paths fs S false). intros src_paths Hkept.
  clear Hkept.
  assert (∀ q, S `prefix_of` q → fs0 !! q = fs !! q) as HSfr0
    by (intros q Hq; by apply Hfr0, apart_from_dest).
  pose proof (scan_spec fs0 Hwf0 Hnl0 D) as Hdest.
  generalize dependent (get_relative_paths fs0 D false). intros dest Hdest.
  assert (∀ rel, rel ∈ paths_to_delete dest kept ↔
            (rel ≠ [] ∧ is_Some (fs0 !! (D ++ rel))) ∧ rel ∉ kept) as HT.
  { intros rel. unfold paths_to_delete. by rewrite elem_of_difference, Hdest. }
  generalize dependent (paths_to_delete dest kept). intros T HT.
  unfold delete_phase.
  destruct (delete_loop_ok now D (sorted_deletes T) fs0 0 0 Hwf0 Hnl0)
    as (Hwf1 & Hnl1 & _ & Herr1 & Hnone1 & Hse1 & Hfr1).
  { apply sorted_deletes_NoDup. }
  { apply sorted_deletes_sorted. }
  { intros rel Hrel%elem_of_sorted_deletes. by apply HT in Hrel as [? _]. }
  { intros rel c Hrel%elem_of_sorted_deletes Hc. apply elem_of_sorted_deletes.
    apply HT in Hrel as [[Hne' _] Hnk]. apply HT. split.
    - split; [by destruct rel|done].
    - intros Hk. apply Hnk. apply (Hkcl rel (rel ++ [c])); [done| |done].
      apply prefix_app_same. }
  generalize dependent
    (foldl (delete_step now D false) (DelState fs0 0 0) (sorted_deletes T)).
  intros d Hwf1 Hnl1 Herr1 Hnone1 Hse1 Hfr1.
  split; [|done].
  split; [done|]. split; [done|]. split.
  { intros q Hq. rewrite Hfr1 by (by apply not_under_dest). by apply HSfr0. }
  split.
  { rewrite (same_entry_dir_at_eq fs0 (ds_fs d) D); [done|]. apply Hse1.
    intros rel Hrel%elem_of_sorted_deletes. apply HT in Hrel as [[Hrne _] _].
    by apply below_dest_ne. }
  split.
  { intros rel Hrne Hsome. destruct (decide (rel ∈ kept)) as [|Hnk]; [done|].
    exfalso. destruct (decide (rel ∈ T)) as [HrT|HrT].
    - rewrite (Hnone1 rel) in Hsome by (by apply elem_of_sorted_deletes).
      by destruct Hsome.
    - apply HrT, HT. split; [|done]. split; [done|].
      eapply same_entry_is_Some; [|exact Hsome]. apply Hse1.
      intros r Hr%elem_of_sorted_deletes ?%app_inv_head. by subst. }
  split.
  { intros rel a b Hrel Ha Hb.
    assert (same_entry (fs0 !! (D ++ rel)) (ds_fs d !! (D ++ rel))) as Hs.
    { apply Hse1. intros r Hr%elem_of_sorted_deletes ?%app_inv_head. subst r.
      apply HT in Hr as [_ Hr]. done. }
    rewrite Hb in Hs.
    destruct (fs0 !! (D ++ rel)) as [b0|] eqn:Hb0; [|by destruct b].
    apply (same_kind_trans a b0 b); [|by apply same_entry_kind].
    apply (proj1 (kinds_agree_spec fs S D kept) Hka rel); [done|done|].
    rewrite <-Hb0. symmetry. apply Hfr0, below_dest_strict.
    by destruct (Hksrc rel Hrel). }
  split; [by intros ? ? ?%elem_of_nil|]. constructor.
Qed.

(** The copy phase leaves every kept path in place at the destination. *)
Lemma copy_phase_mirror (fs1 : FS) (e : nat) (kept : gset path) :
  kept = filter_source xp (get_relative_paths fs S false) →
  copy_invariant S D tol fs kept fs1 [] [] →
  copy_invariant S D tol fs kept
    (cs_fs (copy_phase now S D false tol fs1 e kept)) (elements kept)
    (cs_dirs (copy_phase now S D false tol fs1 e kept))
  ∧ cs_failed (copy_phase now S D false tol fs1 e kept) = 0%nat
  ∧ cs_errors (copy_phase now S D false tol fs1 e kept) = e.
Proof.
  intros Hkept Hinv.
  pose proof (kept_source fs Hwf Hnl S HvS HS xp) as Hksrc. rewrite <-Hkept in Hksrc.
  pose proof (kept_closed fs Hwf Hnl S HvS HS xp) as Hkcl. rewrite <-Hkept in Hkcl.
  clear Hkept. unfold copy_phase.
  pose proof (sorted_paths_perm kept) as Hperm.
  generalize dependent (sorted_paths kept). intros l Hperm.
  destruct (copy_loop_inv now S D tol HvD HSD HDS fs kept Hksrc Hkcl
              l (CopyState fs1 0 0 0 [] e) [])
    as (Hinv2 & Hfailed & Herrors).
  { intros rel Hrel. by rewrite Hperm, elem_of_elements in Hrel. }
  { exact Hinv. }
  generalize dependent (foldl (copy_step now S D false tol) (CopyState fs1 0 0 0 [] e) l).
  intros c Hinv2 Hfailed Herrors. split; [|done].
  destruct Hinv2 as (Hwf2 & Hnl2 & Hsrc2 & HD2 & Hjunk2 & Hkinds2 & Hdone2 & Hdirs2).
  repeat (split; [done|]). split; [|done].
  intros rel a Hrel. apply Hdone2. rewrite app_nil_l, Hperm. exact Hrel.
Qed.

(** The metadata pass completes the mirror. *)
Lemma fixup_phase_mirror (fs2 : FS) (dirs : list (path * path)) (kept : gset path) :
  kept = filter_source xp (get_relative_paths fs S false) →
  copy_invariant S D tol fs kept fs2 (elements kept) dirs →
  mirrored S D (Z.max 0 tol) fs kept (fixup_phase S D false fs2 dirs).
Proof.
  intros Hkept (Hwf2 & Hnl2 & Hsrc2 & HD2 & Hjunk2 & Hkinds2 & Hdone2 & Hdirs2).
  pose proof (kept_source fs Hwf Hnl S HvS HS xp) as Hksrc. rewrite <-Hkept in Hksrc.
  clear Hkept.
  assert (∀ rel a, rel ∈ kept → fs !! (S ++ rel) = Some a →
            ∃ b, fs2 !! (D ++ rel) = Some b ∧ same_kind a b = true ∧
                 (is_file_node a = true → file_synced (Z.max 0 tol) a b)) as Hall2.
  { intros rel a Hrel Ha. destruct (Hdone2 rel a) as (b & Hb & Hsync); [|done|].
    - by apply elem_of_elements.
    - exists b. split; [done|]. split; [|done]. by apply (Hkinds2 rel). }
  unfold fixup_phase. cbn [negb andb].
  destruct (fixup_loop_ok S D dirs fs2 Hwf2 Hnl2 HSD HDS)
    as (Hwf3 & Hnl3 & Hse3 & Hfr3).
  { eapply Forall_impl; [exact Hdirs2|]. intros sd (rel & Hrel & -> & Hd).
    exists rel. split; [done|]. split.
    - unfold dir_at. rewrite Hsrc2 by apply prefix_app_same. exact Hd.
    - apply dir_at_Some in Hd as (sz & m & Hd).
      destruct (Hall2 rel _ Hrel Hd) as (b & Hb & Hk & _).
      unfold dir_at. rewrite Hb. by destruct b. }
  generalize dependent
    (foldl (λ fs '(src_path, dst_path), fix_metadata fs src_path dst_path) fs2 dirs).
  intros fs3 Hwf3 Hnl3 Hse3 Hfr3.
  assert (dir_at fs3 D = true) as HD3
    by (by rewrite (same_entry_dir_at_eq fs2 fs3)).
  rewrite (path_exists_literal fs3 Hwf3 Hnl3 D HvD).
  rewrite bool_decide_eq_true_2 by (by apply dir_at_is_Some).
  destruct (fix_metadata_dir fs3 Hwf3 Hnl3 S D HvS)
    as (Hwf4 & Hnl4 & Hse4 & Hfr4); [|done|].
  { unfold dir_at. rewrite Hfr3, Hsrc2 by done. exact HS. }
  generalize dependent (fix_metadata fs3 S D). intros fs4 Hwf4 Hnl4 Hse4 Hfr4.
  assert (∀ q, same_entry (fs2 !! q) (fs4 !! q)) as Hse
    by (intros q; eapply same_entry_trans; [apply Hse3|apply Hse4]).
  split; [done|]. split; [done|]. split.
  { intros q Hq. rewrite Hfr4 by (intros ->; by apply HDS).
    rewrite Hfr3 by done. by apply Hsrc2. }
  split; [by rewrite (same_entry_dir_at_eq fs3 fs4)|]. split.
  { intros rel Hrne. rewrite <-(same_entry_is_Some _ _ (Hse (D ++ rel))). split.
    - by apply Hjunk2.
    - intros Hrel. destruct (Hksrc rel Hrel) as [_ [a Ha]].
      destruct (Hall2 rel a Hrel Ha) as (b & -> & _). eauto. }
  intros rel a Hrel Ha. destruct (Hall2 rel a Hrel Ha) as (b & Hb & Hk & Hsync).
  pose proof (Hse (D ++ rel)) as Hs. rewrite Hb in Hs.
  destruct (is_dir_node b) eqn:Hdb.
  - destruct (fs4 !! (D ++ rel)) as [b'|] eqn:Hb'; [|by destruct b].
    exists b'. split; [done|]. split.
    + apply (same_kind_trans a b b'); [done|by apply same_entry_kind].
    + intros Hf. by destruct a, b.
  - apply same_entry_nondir_l in Hs; [|done]. exists b. done.
Qed.
End phases.


Section run.
Context (now : Z) (fs : FS) (S D : path) (xp : option (gset string)) (tol : Z).
Context (Hinputs : mirror_inputs fs S D xp = true).

Lemma prepare_destination :
  ∃ fs0,
    (if negb (path_exists fs D) && negb false
     then mkdir_parents now fs D else (fs, true)) = (fs0, true)
    ∧ well_formed fs0 = true ∧ no_links fs0 = true ∧ dir_at fs0 D = true
    ∧ (∀ q, ¬ q `prefix_of` D → fs0 !! q = fs !! q).
Proof.
  apply mirror_inputs_spec in Hinputs
    as (Hwf & Hnl & HvS & HvD & HS & HSD & HDS & Hok & Hka).
  rewrite path_exists_literal by done.
  destruct (fs !! D) as [n|] eqn:Hn.
  - rewrite bool_decide_eq_true_2 by eauto. simpl.
    exists fs. repeat (split; [done|]). split; [|done].
    unfold dir_at. rewrite Hn. by apply (proj1 (dest_ok_spec fs D) Hok D n).
  - rewrite bool_decide_eq_false_2 by (by intros [? ?]). simpl.
    destruct (mkdir_parents_ok now fs D Hwf Hnl HvD (proj1 (dest_ok_spec fs D) Hok))
      as (fs0 & Hrun & Hwf0 & Hnl0 & Hd0 & Hfr0 & _).
    exists fs0. repeat (split; [done|]). split; [by apply Hd0|done].
Qed.

(** Under [mirror_inputs] a run ends without failure or error report and
    leaves the destination a mirror of the kept source paths. *)
Lemma sync_mirrors :
  ∃ fs' c k d,
    sync_directories now fs S D false xp tol = Run fs' 0 (Done c k d 0)
    ∧ mirrored S D (Z.max 0 tol) fs
        (filter_source xp (get_relative_paths fs S false)) fs'.
Proof.
  destruct prepare_destination as (fs0 & Hprep & Hwf0 & Hnl0 & HD0 & Hfr0).
  apply mirror_inputs_spec in Hinputs
    as (Hwf & Hnl & HvS & HvD & HS & HSD & HDS & Hok & Hka).
  assert (∀ q, S `prefix_of` q → fs0 !! q = fs !! q) as HSfr0.
  { intros q Hq. apply Hfr0. intros Hq'. apply HSD. by etrans. }
  assert (dir_at fs0 S = true) as HS0.
  { unfold dir_at. by rewrite HSfr0. }
  assert (get_relative_paths fs0 S false = get_relative_paths fs S false) as Hscan.
  { apply scan_ext; try done. intros rel. by rewrite HSfr0 by apply prefix_app_same. }
  assert (D ≠ S) as Hne by (intros ->; by apply HSD).
  destruct (delete_phase_mirror now fs S D xp tol Hwf Hnl HvS HvD HS HSD HDS fs0
              _ eq_refl Hka Hwf0 Hnl0 HD0 Hfr0) as [Hinv Herr].
  destruct (copy_phase_mirror now fs S D xp tol Hwf Hnl HvS HvD HS HSD HDS
              _ (ds_errors (delete_phase now D false fs0
                   (paths_to_delete (get_relative_paths fs0 D false)
                      (filter_source xp (get_relative_paths fs S false)))))
              _ eq_refl Hinv) as (Hinv2 & Hfailed & Herrors).
  pose proof (fixup_phase_mirror fs S D xp tol Hwf Hnl HvS HvD HS HSD HDS
                _ _ _ eq_refl Hinv2) as Hmirror.
  eexists _, _, _, _. split; [|exact Hmirror].
  etrans.
  { eapply (sync_directories_phases now fs fs0 S D false xp tol);
      [| |exact Hne| | |exact Hprep|reflexivity|reflexivity|reflexivity|reflexivity].
    - rewrite path_exists_literal by done. apply bool_decide_eq_true_2.
      by apply dir_at_is_Some.
    - by rewrite is_dir_literal.
    - by apply is_path_inside_false.
    - by apply is_path_inside_false. }
  rewrite Hscan.
  rewrite (path_exists_literal fs0 Hwf0 Hnl0 D HvD).
  rewrite bool_decide_eq_true_2 by (by apply dir_at_is_Some).
  rewrite Hfailed, Herrors, Herr. reflexivity.
Qed.
End run.


(* ===================================================================== *)
(** ** A run over a mirrored destination changes nothing *)
(* ===================================================================== *)

Lemma delete_phase_empty (now : Z) (D : path) (dry : bool) (fs : FS) :
  delete_phase now D dry fs ∅ = DelState fs 0 0.
Proof. unfold delete_phase, sorted_deletes. by rewrite elements_empty. Qed.

Section settled.
Context (now : Z) (ref fs : FS) (S D : path) (xp : option (gset string)) (tol : Z).
Context (kept : gset path).
Context (Hwfr : well_formed ref = true) (Hnlr : no_links ref = true).
Context (HvS : valid_path S = true) (HvD : valid_path D = true).
Context (HS : dir_at ref S = true).
Context (HSD : ¬ S `prefix_of` D) (HDS : ¬ D `prefix_of` S).
Context (Hkept : kept = filter_source xp (get_relative_paths ref S false)).
Context (Hmirror : mirrored S D tol ref kept fs).

Lemma settled_step (st : copy_state) (rel : path) :
  cs_fs st = fs → rel ∈ kept →
  let st' := copy_step now S D false tol st rel in
  cs_fs st' = fs ∧ cs_created st' = cs_created st ∧ cs_copied st' = cs_copied st
  ∧ cs_failed st' = cs_failed st ∧ cs_errors st' = cs_errors st.
Proof.
  intros Hfs Hrel.
  destruct Hmirror as (Hwf & Hnl & Hsrc & HD & Hiff & Hall).
  pose proof (kept_source ref Hwfr Hnlr S HvS HS xp) as Hksrc.
  rewrite <-Hkept in Hksrc.
  destruct (Hksrc rel Hrel) as [Hne [a Ha]].
  destruct (Hall rel a Hrel Ha) as (b & Hb & Hk & Hsync).
  rewrite <-Hfs in Hwf, Hnl, HD, Hb, Hsrc.
  assert (cs_fs st !! (S ++ rel) = Some a) as Ha'
    by (rewrite Hsrc; [done|apply prefix_app_same]).
  assert (∀ k n, k `prefix_of` rel → k ≠ rel →
                 cs_fs st !! (D ++ k) = Some n → is_dir_node n = true) as Hanc.
  { intros k n [s ->] Hkne Hn. destruct s as [|x s]; [by rewrite app_nil_r in Hkne|].
    apply (dir_at_lookup (cs_fs st) (D ++ k)); [|done].
    apply (wf_prefix_dir (cs_fs st) (D ++ k) (x :: s)); [done| |done].
    rewrite <-app_assoc, Hb. eauto. }
  assert (∀ b', cs_fs st !! (D ++ rel) = Some b' → same_kind a b' = true) as Hkind.
  { intros b' Hb'. rewrite Hb in Hb'. by simplify_eq. }
  destruct a as [sz m|sm content|m t].
  - destruct (copy_step_dir now S D tol HvD HSD HDS st rel _ Hwf Hnl HD Ha' Hanc
                Hkind sz m eq_refl)
      as (_ & _ & Hf & He & Hc & _ & _ & _ & _ & _ & Hsame).
    destruct Hsame as [Hfs' Hcr]; [rewrite Hb; eauto|].
    intros st'. subst st'. rewrite Hfs', Hfs. done.
  - destruct (copy_step_file now S D tol HvD HSD HDS st rel _ Hwf Hnl HD Hne Ha' Hanc
                Hkind sm content eq_refl)
      as (_ & _ & _ & _ & _ & _ & _ & _ & _ & Hsame).
    intros st'. subst st'. rewrite (Hsame b Hb (Hsync eq_refl)). done.
  - by destruct (no_link_at (cs_fs st) Hnl _ _ _ Ha').
Qed.

Lemma settled_loop (l : list path) (st : copy_state) :
  cs_fs st = fs → (∀ rel, rel ∈ l → rel ∈ kept) →
  let st' := foldl (copy_step now S D false tol) st l in
  cs_fs st' = fs ∧ cs_created st' = cs_created st ∧ cs_copied st' = cs_copied st
  ∧ cs_failed st' = cs_failed st ∧ cs_errors st' = cs_errors st.
Proof.
  revert st. induction l as [|rel l IH]; intros st Hfs Hl; [done|].
  destruct (settled_step st rel Hfs) as (Hfs1 & Hc1 & Hk1 & Hf1 & He1); [apply Hl; left|].
  destruct (IH (copy_step now S D false tol st rel) Hfs1) as (? & ? & ? & ? & ?).
  { intros r Hr. apply Hl. by right. }
  simpl. repeat split; congruence.
Qed.

(** The second run: nothing to delete, to create or to copy. *)
Lemma sync_settled :
  ∃ fs', sync_directories now fs S D false xp tol = Run fs' 0 (Done 0 0 0 0).
Proof.
  pose proof Hmirror as (Hwf & Hnl & Hsrc & HD & Hiff & Hall).
  pose proof (kept_source ref Hwfr Hnlr S HvS HS xp) as Hksrc.
  rewrite <-Hkept in Hksrc.
  assert (dir_at fs S = true) as HSf.
  { unfold dir_at. by rewrite Hsrc. }
  assert (get_relative_paths fs S false = get_relative_paths ref S false) as Hscan.
  { apply scan_ext; try done. intros rel. by rewrite Hsrc by apply prefix_app_same. }
  assert (get_relative_paths fs D false = kept) as Hdest.
  { apply set_eq. intros rel. rewrite scan_spec by done. split.
    - intros [Hne Hin]. by apply Hiff.
    - intros Hrel. destruct (Hksrc rel Hrel) as [Hne _]. split; [done|]. by apply Hiff. }
  assert (D ≠ S) as Hne by (intros ->; by apply HSD).
  destruct (settled_loop (sorted_paths kept) (CopyState fs 0 0 0 [] 0) eq_refl)
    as (Hfs & Hc & Hk & Hf & He).
  { intros rel Hrel. by rewrite sorted_paths_perm, elem_of_elements in Hrel. }
  eexists. etrans.
  { eapply (sync_directories_phases now fs fs S D false xp tol);
      [| |exact Hne| | | |reflexivity|reflexivity|reflexivity|reflexivity].
    - rewrite path_exists_literal by done. apply bool_decide_eq_true_2.
      by apply dir_at_is_Some.
    - by rewrite is_dir_literal.
    - by apply is_path_inside_false.
    - by apply is_path_inside_false.
    - rewrite path_exists_literal by done.
      rewrite bool_decide_eq_true_2 by (by apply dir_at_is_Some). done. }
  rewrite Hscan, <-Hkept.
  rewrite (path_exists_literal fs Hwf Hnl D HvD).
  rewrite bool_decide_eq_true_2 by (by apply dir_at_is_Some).
  rewrite Hdest.
  assert (paths_to_delete kept kept = ∅) as -> by (unfold paths_to_delete; set_solver).
  rewrite delete_phase_empty. cbn [ds_fs ds_errors ds_deleted].
  unfold copy_phase. rewrite Hc, Hk, Hf, He. reflexivity.
Qed.
End settled.


(* ===================================================================== *)
(** ** The delete phase *)
(* ===================================================================== *)

Lemma delete_phase_exact (now : Z) (fs : FS) (D : path) (dest_paths kept : gset path) :
  well_formed fs = true → no_links fs = true →
  (∀ rel : path, rel ∈ dest_paths ↔ rel ≠ [] ∧ is_Some (fs !! (D ++ rel))) →
  (∀ k rel : path, rel ∈ kept → k `prefix_of` rel → k ≠ [] → k ∈ kept) →
  well_formed (ds_fs (delete_phase now D false fs (paths_to_delete dest_paths kept))) = true
  ∧ no_links (ds_fs (delete_phase now D false fs (paths_to_delete dest_paths kept))) = true
  ∧ (∀ p : path, p ∈ paths_to_delete dest_paths kept →
       ds_fs (delete_phase now D false fs (paths_to_delete dest_paths kept)) !! (D ++ p) = None)
  ∧ (∀ q : path, (∀ p : path, p ∈ paths_to_delete dest_paths kept → q ≠ D ++ p) →
       same_entry (fs !! q)
         (ds_fs (delete_phase now D false fs (paths_to_delete dest_paths kept)) !! q))
  ∧ ds_deleted (delete_phase now D false fs (paths_to_delete dest_paths kept))
    = size (paths_to_delete dest_paths kept)
  ∧ ds_errors (delete_phase now D false fs (paths_to_delete dest_paths kept)) = 0%nat.
Proof.
  intros Hwf Hnl Hscan Hkcl.
  assert (∀ rel : path, rel ∈ paths_to_delete dest_paths kept ↔
            (rel ≠ [] ∧ is_Some (fs !! (D ++ rel))) ∧ rel ∉ kept) as HT.
  { intros rel. unfold paths_to_delete. by rewrite elem_of_difference, Hscan. }
  generalize dependent (paths_to_delete dest_paths kept). intros to_delete HT.
  unfold delete_phase.
  destruct (delete_loop_ok now D (sorted_deletes to_delete) fs 0 0 Hwf Hnl)
    as (Hwf1 & Hnl1 & Hcnt & Herr1 & Hnone1 & Hse1 & Hfr1).
  { apply sorted_deletes_NoDup. }
  { apply sorted_deletes_sorted. }
  { intros rel Hrel%elem_of_sorted_deletes. by apply HT in Hrel as [? _]. }
  { intros rel c Hrel%elem_of_sorted_deletes Hc. apply elem_of_sorted_deletes.
    apply HT in Hrel as [[Hne' _] Hnk]. apply HT. split.
    - split; [by destruct rel|done].
    - intros Hk. apply Hnk. apply (Hkcl rel (rel ++ [c])); [done| |done].
      apply prefix_app_same. }
  split; [done|]. split; [done|]. split.
  { intros p Hp. by apply Hnone1, elem_of_sorted_deletes. }
  split.
  { intros q Hq. apply Hse1. intros p Hp%elem_of_sorted_deletes. by apply Hq. }
  split; [|done]. rewrite Hcnt. cbn [Nat.add].
  by rewrite sorted_deletes_perm.
Qed.

Lemma entry_removed_intro (now : Z) (q : path) (st : del_state) :
  entry_removed now q st
    (DelState (delete q (touch now (removelast q) (ds_fs st)))
              (Datatypes.S (ds_deleted st)) (ds_errors st)).
Proof.
  unfold entry_removed. cbn [ds_fs ds_deleted ds_errors].
  destruct (removal_lookup now q (ds_fs st)) as [H1 H2].
  split; [reflexivity|]. split; [exact H1|]. split; [exact H2|].
  split; reflexivity.
Qed.

Lemma delete_step_cases (now : Z) (D : path) (st : del_state) (p q : path) (n : node) :
  resolve (ds_fs st) false (D ++ p) = Found q → ds_fs st !! q = Some n →
  (is_dir_node n = false →
   entry_removed now q st (delete_step now D false st p))
  ∧ (is_dir_node n = true → q ≠ [] → children (ds_fs st) q = [] →
     entry_removed now q st (delete_step now D false st p))
  ∧ (is_dir_node n = true → children (ds_fs st) q ≠ [] →
     delete_step now D false st p = st).
Proof.
  intros Hr Hn. split; [|split].
  - intros Hnd. rewrite (delete_step_nondir now D st p q n Hr Hn Hnd).
    apply entry_removed_intro.
  - intros Hd Hq Hch. destruct n as [sz m| |]; [|discriminate Hd..].
    rewrite (delete_step_dir now D st p q sz m Hr Hn Hq), Hch.
    apply entry_removed_intro.
  - intros Hd Hch. destruct n as [sz m| |]; [|discriminate Hd..].
    destruct (decide (q = [])) as [->|Hq].
    + unfold delete_step.
      assert (lstat (ds_fs st) (D ++ p) = Some (NDir sz m)) as Hl.
      { unfold lstat. rewrite Hr. exact Hn. }
      assert (stat (ds_fs st) (D ++ p) = Some (NDir sz m)) as Hs.
      { unfold stat. rewrite (stat_of_lstat _ _ _ _ Hr Hn eq_refl). exact Hn. }
      unfold path_exists, is_dir, is_symlink. rewrite Hs, Hl.
      cbn [is_dir_node is_link_node negb andb orb].
      unfold rmdir. rewrite Hr, Hn.
      destruct (children (ds_fs st) []); [done|]. by destruct st.
    + rewrite (delete_step_dir now D st p q sz m Hr Hn Hq).
      destruct (children (ds_fs st) q); [done|]. by destruct st.
Qed.

Lemma delete_phase_keeps (now : Z) (fs : FS) (S D : path) (xp : option (gset string)) :
  well_formed fs = true → no_links fs = true →
  valid_path S = true → valid_path D = true →
  dir_at fs S = true → dir_at fs D = true →
  ∀ kept to_delete d,
    kept = filter_source xp (get_relative_paths fs S false) →
    to_delete = paths_to_delete (get_relative_paths fs D false) kept →
    d = delete_phase now D false fs to_delete →
    (∀ p, p ∈ to_delete → ds_fs d !! (D ++ p) = None)
    ∧ (∀ p, p ∈ kept → same_entry (fs !! (D ++ p)) (ds_fs d !! (D ++ p)))
    ∧ (∀ q, (∀ p, p ∈ to_delete → q ≠ D ++ p) → same_entry (fs !! q) (ds_fs d !! q))
    ∧ ds_deleted d = size to_delete ∧ ds_errors d = 0%nat.
Proof.
  intros Hwf Hnl HvS HvD HS HD kept to_delete d Hk Ht Hd.
  assert (∀ rel : path, rel ∈ get_relative_paths fs D false
            ↔ rel ≠ [] ∧ is_Some (fs !! (D ++ rel))) as Hscan.
  { intros rel. by apply scan_spec. }
  assert (∀ k rel : path, rel ∈ kept → k `prefix_of` rel → k ≠ [] → k ∈ kept) as Hkcl.
  { rewrite Hk. intros k rel. by apply kept_closed. }
  clear Hk. generalize dependent (get_relative_paths fs D false).
  intros dest_paths Ht Hscan.
  destruct (delete_phase_exact now fs D dest_paths kept Hwf Hnl Hscan Hkcl)
    as (_ & _ & Hgone & Hsame & Hcnt & Herr).
  rewrite <- Ht in Hgone, Hsame, Hcnt, Herr.
  rewrite <- Hd in Hgone, Hsame, Hcnt, Herr.
  split; [exact Hgone|]. split; [|split; [exact Hsame|split; [exact Hcnt|exact Herr]]].
  intros p Hp. apply Hsame. intros p' Hp' ?%app_inv_head. subst p'.
  rewrite Ht in Hp'. unfold paths_to_delete in Hp'.
  apply elem_of_difference in Hp' as [_ Hp']. done.
Qed.




(* ===================================================================== *)
(** ** Convergence and idempotence of a run *)
(* ===================================================================== *)

Lemma mirrored_converged (fs fs' : FS) (S D : path) (xp : option (gset string)) (tol : Z) :
  well_formed fs = true → no_links fs = true →
  valid_path S = true → valid_path D = true → dir_at fs S = true →
  mirrored S D tol fs (filter_source xp (get_relative_paths fs S false)) fs' →
  converged fs' S D xp tol.
Proof.
  intros Hwf Hnl HvS HvD HS Hm.
  pose proof (kept_source fs Hwf Hnl S HvS HS xp) as Hks.
  destruct Hm as (Hwf' & Hnl' & Hsrc & HD' & Hdom & Hsync).
  assert (dir_at fs' S = true) as HS'.
  { unfold dir_at. rewrite Hsrc by reflexivity. exact HS. }
  assert (get_relative_paths fs' S false = get_relative_paths fs S false) as Hscan.
  { symmetry. apply (scan_ext fs fs' S); try done.
    intros rel. rewrite Hsrc; [done|]. by apply prefix_app_r. }
  unfold converged. rewrite Hscan. clear Hscan.
  generalize dependent (filter_source xp (get_relative_paths fs S false)).
  intros kept Hdom Hsync Hks.
  split.
  - apply set_eq. intros rel. rewrite (scan_spec fs' Hwf' Hnl' D rel HvD HD'). split.
    + intros [Hne His]. by apply Hdom.
    + intros Hk. destruct (Hks rel Hk) as [Hne _]. split; [done|]. by apply Hdom.
  - intros rel a Hk Ha Hnd.
    destruct (Hks rel Hk) as [Hne His].
    assert (valid_path rel = true) as Hvr by (by apply (wf_valid_suffix fs S rel)).
    assert (valid_path (S ++ rel) = true) as Hvs by (by apply valid_path_app).
    assert (valid_path (D ++ rel) = true) as Hvd by (by apply valid_path_app).
    rewrite (lstat_literal fs' Hwf' Hnl' _ Hvs) in Ha.
    rewrite Hsrc in Ha by (by apply prefix_app_r).
    destruct (Hsync rel a Hk Ha) as (b & Hb & Hkind & Hfile).
    exists b. rewrite (lstat_literal fs' Hwf' Hnl' _ Hvd). split; [done|].
    assert (is_file_node a = true) as Hfa.
    { pose proof (proj1 (no_links_spec fs) Hnl _ _ Ha) as Hl.
      by destruct a. }
    destruct (Hfile Hfa) as (_ & Hsz & Hmt). done.
Qed.




(** A link in the source is made anew at the destination and carries the
    time of its making, not the time of the source link. *)
Lemma link_stamp_not_mirrored :
  ¬ (succeeded (sync_directories 1000 fs_source_link ["s"] ["d"] false None 2) →
     converged (run_fs (sync_directories 1000 fs_source_link ["s"] ["d"] false None 2))
       ["s"] ["d"] None 2).
Proof.
  intros H. destruct H as [_ Hf].
  { split; [vm_compute; reflexivity|].
    exists 0%nat, 2%nat, 0%nat. vm_compute. reflexivity. }
  destruct (Hf ["l"] (NLink (Meta 100 100 511) "f")) as (b & Hb & _ & Hmt).
  - apply (bool_decide_unpack _). vm_compute. exact I.
  - vm_compute. reflexivity.
  - reflexivity.
  - vm_compute in Hb. injection Hb as <-. vm_compute in Hmt. by apply Hmt.
Qed.




(** A link in the source is made again by every run. *)
Lemma source_link_recopied :
  succeeded (sync_directories 1000 fs_source_link ["s"] ["d"] false None 2)
  ∧ run_result (sync_directories 2000
       (run_fs (sync_directories 1000 fs_source_link ["s"] ["d"] false None 2))
       ["s"] ["d"] false None 2) = Done 0 1 0 0.
Proof.
  split; [split; [vm_compute; reflexivity|]|vm_compute; reflexivity].
  exists 0%nat, 2%nat, 0%nat. vm_compute. reflexivity.
Qed.

(** A file whose destination path is a directory: every further run deletes
    the copy the run before has put into that directory and copies the file
    into it again. *)
Lemma kind_clash_recopied :
  succeeded (sync_directories 1000 fs_kind_clash ["s"] ["d"] false None 2)
  ∧ run_result (sync_directories 2000
       (run_fs (sync_directories 1000 fs_kind_clash ["s"] ["d"] false None 2))
       ["s"] ["d"] false None 2) = Done 0 1 1 0.
Proof.
  split; [split; [vm_compute; reflexivity|]|vm_compute; reflexivity].
  exists 0%nat, 1%nat, 0%nat. vm_compute. reflexivity.
Qed.


(* ===================================================================== *)
(** ** Further properties of the helpers *)
(* ===================================================================== *)

(** X1. [is_path_inside] is the prefix order on component lists: it holds
    exactly when the child is the parent followed by further components
    (none, for the parent itself); it is reflexive, transitive and
    antisymmetric; and a path is never inside one of its children. *)
Theorem is_path_inside_order :
  (∀ child parent : path,
     is_path_inside child parent = true ↔ ∃ rest, child = parent ++ rest)
  ∧ (∀ p : path, is_path_inside p p = true)
  ∧ (∀ p q r : path, is_path_inside p q = true → is_path_inside q r = true →
       is_path_inside p r = true)
  ∧ (∀ p q : path, is_path_inside p q = true → is_path_inside q p = true → p = q)
  ∧ (∀ (p : path) (c : string), is_path_inside p (p ++ [c]) = false).
Proof.
  split; [|split; [|split; [|split]]].
  - intros child parent. by rewrite is_path_inside_spec.
  - intros p. by apply is_path_inside_spec.
  - intros p q r. rewrite !is_path_inside_spec. intros Hqp Hrq. by etrans.
  - intros p q. rewrite !is_path_inside_spec. intros [a Ha] [b Hb].
    rewrite Ha in Hb. rewrite <-app_assoc in Hb.
    apply (f_equal length) in Hb. rewrite !length_app in Hb.
    destruct a; [by rewrite app_nil_r in Ha|]. simpl in Hb. lia.
  - intros p c. apply not_true_iff_false. rewrite is_path_inside_spec.
    intros [r Hr]. apply (f_equal length) in Hr. rewrite !length_app in Hr.
    simpl in Hr. lia.
Qed.

Lemma scan_step_nonempty (root : path) (paths : gset path)
    (triple : path * list string * list string) :
  [] ∉ paths → [] ∉ scan_step root paths triple.
Proof.
  destruct triple as [[dirpath dirnames] filenames]. unfold scan_step.
  destruct (relative_to dirpath root) as [rel_dir|]; [|done].
  intros Hp.
  assert ([] ∉ (if decide (rel_dir ≠ []) then paths ∪ {[ rel_dir ]} else paths)) as Hq.
  { case_decide; [|done]. set_solver. }
  revert Hq. generalize (if decide (rel_dir ≠ []) then paths ∪ {[rel_dir]} else paths).
  induction filenames as [|f fs IH]; intros acc Hacc; simpl; [done|].
  apply IH. intros [?|Hin%elem_of_singleton]%elem_of_union; [done|].
  by destruct rel_dir.
Qed.

Lemma scan_fold_nonempty (root : path)
    (l : list (path * list string * list string)) (acc : gset path) :
  [] ∉ acc → [] ∉ foldl (scan_step root) acc l.
Proof.
  revert acc. induction l as [|t l IH]; intros acc Hacc; simpl; [done|].
  by apply IH, scan_step_nonempty.
Qed.

Lemma get_relative_paths_eq (fs : FS) (root : path) (follow_symlinks : bool) :
  get_relative_paths fs root follow_symlinks
  = foldl (scan_step root) ∅ (os_walk fs root follow_symlinks).
Proof. reflexivity. Qed.

Lemma scandir_not_dir (fs : FS) (top : path) :
  is_dir fs top = false → scandir fs top = None.
Proof.
  unfold is_dir, stat, scandir. generalize (resolve fs true top).
  intros [q| |]; [|done..]. by destruct (fs !! q) as [[]|].
Qed.

Lemma os_walk_not_dir (fs : FS) (root : path) (follow_symlinks : bool) :
  is_dir fs root = false → os_walk fs root follow_symlinks = [].
Proof.
  intros Hd. unfold os_walk, walk_fuel. rewrite walk_S.
  by rewrite (scandir_not_dir fs root Hd).
Qed.

(** X2. For any file system and either setting of [follow_symlinks], the
    scanned set never holds the root itself (the empty relative path), and
    it is empty when the root is not a directory: a missing path, a regular
    file, or a link that does not lead to a directory. *)
Theorem scanner_root_cases (fs : FS) (root : path) (follow_symlinks : bool) :
  ([] ∉ get_relative_paths fs root follow_symlinks)
  ∧ (is_dir fs root = false → get_relative_paths fs root follow_symlinks = ∅).
Proof.
  rewrite get_relative_paths_eq. split.
  - generalize (os_walk fs root follow_symlinks). intros l.
    apply scan_fold_nonempty. apply not_elem_of_empty.
  - intros Hd. rewrite (os_walk_not_dir fs root follow_symlinks Hd). reflexivity.
Qed.

(** X3. On a well-formed file system without links the scan of a directory
    is exact: it holds the relative paths of the entries below the root, all
    of them and nothing else; with a scanned path it holds every ancestor of
    it below the root. *)
Theorem scanner_exact_without_links (fs : FS) (root : path) :
  well_formed fs = true → no_links fs = true →
  valid_path root = true → dir_at fs root = true →
  (∀ rel : path, rel ∈ get_relative_paths fs root false
                 ↔ rel ≠ [] ∧ is_Some (fs !! (root ++ rel)))
  ∧ (∀ (rel : path) (c : string),
       rel ++ [c] ∈ get_relative_paths fs root false → rel ≠ [] →
       rel ∈ get_relative_paths fs root false).
Proof.
  intros Hwf Hnl Hv Hd.
  assert (∀ rel : path, rel ∈ get_relative_paths fs root false
                 ↔ rel ≠ [] ∧ is_Some (fs !! (root ++ rel))) as Hscan
    by (intros rel; by apply scan_spec).
  split; [exact Hscan|].
  generalize dependent (get_relative_paths fs root false). intros scanned Hscan.
  intros rel c Hin Hne. apply Hscan. split; [done|].
  apply Hscan in Hin as [_ His]. rewrite app_assoc in His.
  by apply (wf_prefix_is_Some fs (root ++ rel) [c]).
Qed.

Lemma scanner_exact_without_links_witness :
  ["junk"; "x"] ∈ get_relative_paths fs_drifted ["d"] false
  ∧ ["junk"] ∈ get_relative_paths fs_drifted ["d"] false.
Proof.
  destruct (scanner_exact_without_links fs_drifted ["d"]) as [Hscan Hup];
    [vm_compute; reflexivity..|].
  assert (["junk"; "x"] ∈ get_relative_paths fs_drifted ["d"] false) as Hx.
  { apply Hscan. split; [done|]. vm_compute. eauto. }
  split; [exact Hx|]. by apply (Hup ["junk"] "x").
Defined.

(** X4. [should_copy] asks for a copy whenever it cannot compare: the
    destination does not exist (a dangling link included), the destination
    is a symbolic link, or the source cannot be examined. *)
Theorem should_copy_when_in_doubt (fs : FS) (src dst : path) (time_tolerance : Z) :
  path_exists fs dst = false ∨ is_symlink fs dst = true ∨ lstat fs src = None →
  should_copy fs src dst time_tolerance = true.
Proof.
  unfold should_copy. intros [->|[Hl|Hs]]; [done| |].
  - destruct (path_exists fs dst); [|done]. simpl. by rewrite Hl.
  - destruct (path_exists fs dst); [|done]. simpl.
    destruct (is_symlink fs dst); [done|]. by rewrite Hs.
Qed.

Lemma should_copy_when_in_doubt_witness :
  should_copy fs_linked_dir ["r"; "d"; "x"] ["r"; "l"] 2 = true
  ∧ should_copy fs_pair ["s"; "f"] ["d"; "g"] 2 = true.
Proof.
  split.
  - apply should_copy_when_in_doubt. right; left. vm_compute. reflexivity.
  - apply should_copy_when_in_doubt. left. vm_compute. reflexivity.
Defined.

(** X5. Widening the tolerance never asks for more copies: what is to be
    copied under a tolerance is to be copied under every smaller one. *)
Theorem should_copy_antitone (fs : FS) (src dst : path) (t1 t2 : Z) :
  t1 <= t2 →
  should_copy fs src dst t2 = true → should_copy fs src dst t1 = true.
Proof.
  intros Ht. unfold should_copy.
  destruct (negb (path_exists fs dst)); [done|].
  destruct (is_symlink fs dst); [done|].
  destruct (lstat fs src) as [s|], (lstat fs dst) as [d|]; try done.
  repeat case_decide; try done. lia.
Qed.

Lemma should_copy_antitone_witness :
  should_copy fs_pair ["s"; "f"] ["d"; "f"] (-1) = true.
Proof.
  apply (should_copy_antitone fs_pair ["s"; "f"] ["d"; "f"] (-1) 0); [lia|].
  vm_compute. reflexivity.
Defined.

Lemma excluded_empty_pattern (pats : gset string) (p : path) :
  String.EmptyString ∈ pats → excluded pats p = true.
Proof.
  intros Hin. apply excluded_spec. exists String.EmptyString. split; [done|].
  by exists String.EmptyString, (path_str p).
Qed.

(** X6. Edge cases of the exclusion step.  No pattern set and the empty
    pattern set filter nothing; a set that holds the empty pattern rejects
    every path; more patterns keep fewer paths; and the kept paths are
    always among the scanned ones. *)
Theorem exclusion_edge_cases (source_paths : gset path) :
  filter_source None source_paths = source_paths
  ∧ filter_source (Some ∅) source_paths = source_paths
  ∧ (∀ pats : gset string, String.EmptyString ∈ pats →
       filter_source (Some pats) source_paths = ∅)
  ∧ (∀ pats pats' : gset string, pats ⊆ pats' →
       filter_source (Some pats') source_paths ⊆ filter_source (Some pats) source_paths)
  ∧ (∀ xp : option (gset string), filter_source xp source_paths ⊆ source_paths).
Proof.
  split; [done|]. split; [unfold filter_source; by rewrite decide_True|].
  split; [|split].
  - intros pats Hin. apply set_eq. intros p. rewrite elem_of_filter_source.
    rewrite (excluded_empty_pattern pats p Hin). set_solver.
  - intros pats pats' Hsub p. rewrite !elem_of_filter_source.
    rewrite !excluded_false_spec. intros [Hp Hnone]. split; [done|].
    intros pat Hpat. apply Hnone. by apply Hsub.
  - intros xp. apply filter_source_subseteq.
Qed.




(* ===================================================================== *)
(** ** What one iteration of the copy loop leaves behind *)
(* ===================================================================== *)

Section step_exact.
Context (now : Z) (S D : path) (tol : Z).
Context (HvD : valid_path D = true).
Context (HSD : ¬ S `prefix_of` D) (HDS : ¬ D `prefix_of` S).
Context (st : copy_state) (rel : path) (a : node).
Context (Hwf : well_formed (cs_fs st) = true) (Hnl : no_links (cs_fs st) = true).
Context (HD : dir_at (cs_fs st) D = true).
Context (Hrel : rel ≠ []) (Ha : cs_fs st !! (S ++ rel) = Some a).
Context (Hanc : ∀ k n, k `prefix_of` rel → k ≠ rel →
                  cs_fs st !! (D ++ k) = Some n → is_dir_node n = true).
Context (Hkind : ∀ b, cs_fs st !! (D ++ rel) = Some b → same_kind a b = true).

Lemma copy_step_file_skip sm content :
  a = NFile sm content →
  should_copy (cs_fs st) (S ++ rel) (D ++ rel) tol = false →
  copy_step now S D false tol st rel = st.
Proof.
  pose proof (step_valid_src S st rel a Hwf Ha) as Hvs.
  intros -> Hsc. unfold copy_step.
  assert (is_dir (cs_fs st) (S ++ rel) = false) as ->.
  { rewrite is_dir_literal by done. unfold dir_at. by rewrite Ha. }
  cbn [andb negb]. by rewrite Hsc.
Qed.

Lemma copy_step_file_exact sm content :
  a = NFile sm content →
  should_copy (cs_fs st) (S ++ rel) (D ++ rel) tol = true →
  cs_fs (copy_step now S D false tol st rel) !! (D ++ rel)
  = Some (NFile (Meta (m_mtime sm) (m_atime sm) (S_IMODE (m_mode sm))) content)
  ∧ cs_copied (copy_step now S D false tol st rel) = Datatypes.S (cs_copied st).
Proof.
  pose proof (step_valid_src S st rel a Hwf Ha) as Hvs.
  pose proof (step_valid_dst S D HvD st rel a Hwf Ha) as Hvd.
  intros -> Hsc. unfold copy_step.
  assert (is_dir (cs_fs st) (S ++ rel) = false) as ->.
  { rewrite is_dir_literal by done. unfold dir_at. by rewrite Ha. }
  cbn [andb negb]. rewrite Hsc. clear Hsc.
  destruct rel as [|c r _] using rev_ind; [done|].
  assert (valid_path (D ++ r) = true) as Hvpar.
  { rewrite app_assoc in Hvd. by apply valid_path_app in Hvd as [? _]. }
  assert (∃ fs1, (if negb (path_exists (cs_fs st) (parent_of (D ++ r ++ [c])))
                  then mkdir_parents now (cs_fs st) (parent_of (D ++ r ++ [c]))
                  else (cs_fs st, true)) = (fs1, true)
            ∧ well_formed fs1 = true ∧ no_links fs1 = true
            ∧ dir_at fs1 (D ++ r) = true
            ∧ (∀ q, ¬ q `prefix_of` D ++ r → fs1 !! q = cs_fs st !! q))
    as (fs1 & Hmk & Hwf1 & Hnl1 & Hp1 & Hfr1).
  { unfold parent_of. rewrite app_assoc, removelast_snoc.
    assert (∀ q n, q `prefix_of` D ++ r → cs_fs st !! q = Some n →
                   is_dir_node n = true) as Hdirs.
    { apply (dirs_towards S D HvD HSD HDS); [done|done|]. intros k n Hk Hn.
      apply (Hanc k n); [by apply prefix_app_r| |done].
      intros ->. by apply prefix_snoc_not in Hk. }
    rewrite path_exists_literal by done.
    destruct (cs_fs st !! (D ++ r)) as [n|] eqn:Hn.
    - rewrite bool_decide_eq_true_2 by eauto. simpl.
      exists (cs_fs st). repeat (split; [done|]). split; [|done].
      unfold dir_at. rewrite Hn. by apply (Hdirs (D ++ r) n).
    - rewrite bool_decide_eq_false_2 by (by intros [? ?]). simpl.
      destruct (mkdir_parents_ok now (cs_fs st) (D ++ r) Hwf Hnl Hvpar Hdirs)
        as (fs1 & Hrun & Hwf1 & Hnl1 & Hd1 & Hfr1 & Hse1).
      exists fs1. repeat (split; [done|]). split; [by apply Hd1|done]. }
  rewrite Hmk.
  destruct (copy_file_post now fs1 (S ++ r ++ [c]) (D ++ r) c sm content)
    as (fs2 & Hrun & Hwf2 & Hnl2 & Hd2 & Hse2 & Hfr2); try done.
  { by rewrite <-app_assoc. }
  { rewrite Hfr1; [done|]. intros Hq.
    apply (source_apart S D HSD HDS (D ++ r) r); [done|].
    etrans; [apply prefix_app_same|exact Hq]. }
  { rewrite <-app_assoc. apply (source_dest_ne S D HSD HDS). }
  { intros n. rewrite Hfr1 by apply prefix_snoc_not. rewrite <-app_assoc.
    intros Hn. pose proof (Hkind n Hn) as Hk. by destruct n. }
  rewrite <-app_assoc in Hrun, Hd2. rewrite Hrun. by cbn [cs_fs cs_copied].
Qed.

Lemma copy_step_dir_created sz m :
  a = NDir sz m → cs_fs st !! (D ++ rel) = None →
  cs_created (copy_step now S D false tol st rel) = Datatypes.S (cs_created st).
Proof.
  pose proof (step_valid_src S st rel a Hwf Ha) as Hvs.
  pose proof (step_valid_dst S D HvD st rel a Hwf Ha) as Hvd.
  intros -> Hb. unfold copy_step.
  assert (is_dir (cs_fs st) (S ++ rel) = true) as ->.
  { rewrite is_dir_literal by done. unfold dir_at. by rewrite Ha. }
  rewrite (is_symlink_literal (cs_fs st) Hwf Hnl (S ++ rel) Hvs).
  cbn [andb negb].
  rewrite (path_exists_literal (cs_fs st) Hwf Hnl (D ++ rel) Hvd).
  rewrite bool_decide_eq_false_2 by (rewrite Hb; by intros [? ?]). simpl.
  destruct (mkdir_parents_ok now (cs_fs st) (D ++ rel) Hwf Hnl Hvd)
    as (fs' & Hrun & Hwf' & Hnl' & Hd' & Hfr & Hse).
  { apply (dirs_towards S D HvD HSD HDS); [done|done|]. intros k n Hk Hn.
    apply (Hanc k n); [done| |done]. intros ->. congruence. }
  rewrite Hrun. cbn [cs_fs].
  rewrite (path_exists_literal fs' Hwf' Hnl' (D ++ rel) Hvd).
  rewrite bool_decide_eq_true_2 by (apply dir_at_is_Some, Hd'; done).
  done.
Qed.
End step_exact.

Lemma should_copy_ext (fs fs' : FS) (src dst : path) (tol : Z) :
  well_formed fs = true → no_links fs = true →
  well_formed fs' = true → no_links fs' = true →
  valid_path src = true → valid_path dst = true →
  fs' !! src = fs !! src → fs' !! dst = fs !! dst →
  should_copy fs' src dst tol = should_copy fs src dst tol.
Proof.
  intros Hwf Hnl Hwf' Hnl' Hvs Hvd Hs Hd. unfold should_copy.
  rewrite (path_exists_literal fs Hwf Hnl dst Hvd).
  rewrite (path_exists_literal fs' Hwf' Hnl' dst Hvd).
  rewrite (is_symlink_literal fs Hwf Hnl dst Hvd).
  rewrite (is_symlink_literal fs' Hwf' Hnl' dst Hvd).
  rewrite (lstat_literal fs Hwf Hnl src Hvs), (lstat_literal fs Hwf Hnl dst Hvd).
  rewrite (lstat_literal fs' Hwf' Hnl' src Hvs), (lstat_literal fs' Hwf' Hnl' dst Hvd).
  by rewrite Hs, Hd.
Qed.

Lemma planned_ext (fs fs' : FS) (S D : path) (tol : Z) (p : path) :
  well_formed fs = true → no_links fs = true →
  well_formed fs' = true → no_links fs' = true →
  valid_path (S ++ p) = true → valid_path (D ++ p) = true →
  fs' !! (S ++ p) = fs !! (S ++ p) → fs' !! (D ++ p) = fs !! (D ++ p) →
  planned_mkdir fs' S D p = planned_mkdir fs S D p
  ∧ planned_copy fs' S D tol p = planned_copy fs S D tol p.
Proof.
  intros Hwf Hnl Hwf' Hnl' Hvs Hvd Hs Hd. unfold planned_mkdir, planned_copy.
  rewrite (should_copy_ext fs fs' (S ++ p) (D ++ p) tol) by done.
  rewrite (is_dir_literal fs Hwf Hnl _ Hvs), (is_dir_literal fs' Hwf' Hnl' _ Hvs).
  rewrite (is_symlink_literal fs Hwf Hnl _ Hvs), (is_symlink_literal fs' Hwf' Hnl' _ Hvs).
  rewrite (path_exists_literal fs Hwf Hnl _ Hvd), (path_exists_literal fs' Hwf' Hnl' _ Hvd).
  unfold dir_at. by rewrite Hs, Hd.
Qed.

Lemma filter_length_ext {A} (P Q : A → Prop) `{∀ x, Decision (P x)} `{∀ x, Decision (Q x)}
    (l : list A) :
  (∀ x, x ∈ l → P x ↔ Q x) → length (filter P l) = length (filter Q l).
Proof.
  induction l as [|x l IH]; intros Hl; [done|].
  rewrite !filter_cons.
  assert (length (filter P l) = length (filter Q l)) as IH'
    by (apply IH; intros y Hy; apply Hl; by right).
  destruct (decide (P x)) as [Hp|Hp], (decide (Q x)) as [Hq|Hq]; simpl; try lia.
  - destruct Hq. apply Hl; [by left|done].
  - destruct Hp. apply Hl; [by left|done].
Qed.

(* ===================================================================== *)
(** ** What the copy loop leaves behind *)
(* ===================================================================== *)

Section copy_exact.
Context (now : Z) (S D : path) (tol : Z).
Context (HvS : valid_path S = true) (HvD : valid_path D = true).
Context (HSD : ¬ S `prefix_of` D) (HDS : ¬ D `prefix_of` S).
Context (ref : FS) (kept : gset path).
Context (Hkept_src : ∀ rel, rel ∈ kept → rel ≠ [] ∧ is_Some (ref !! (S ++ rel))).
Context (Hkept_closed :
           ∀ k rel, rel ∈ kept → k `prefix_of` rel → k ≠ [] → k ∈ kept).

Lemma copy_step_ready (st : copy_state) (rel : path) (done : list path) :
  rel ∈ kept →
  copy_invariant S D tol ref kept (cs_fs st) done (cs_dirs st) →
  rel ≠ []
  ∧ ∃ a, ref !! (S ++ rel) = Some a ∧ cs_fs st !! (S ++ rel) = Some a
      ∧ is_link_node a = false
      ∧ (∀ k, k `prefix_of` rel → k ≠ rel → dir_at ref (S ++ k) = true)
      ∧ (∀ k n, k `prefix_of` rel → k ≠ rel →
           cs_fs st !! (D ++ k) = Some n → is_dir_node n = true)
      ∧ (∀ b, cs_fs st !! (D ++ rel) = Some b → same_kind a b = true).
Proof.
  intros Hrel (Hwf & Hnl & Hsrc & HD & Hjunk & Hkinds & Hdone & Hdirs).
  destruct (Hkept_src rel Hrel) as [Hne [a Ha]].
  assert (cs_fs st !! (S ++ rel) = Some a) as Ha'
    by (rewrite Hsrc; [done|apply prefix_app_same]).
  assert (∀ k, k `prefix_of` rel → k ≠ rel → dir_at ref (S ++ k) = true) as Hsrcdir.
  { intros k [s ->] Hk. destruct s as [|x s]; [by rewrite app_nil_r in Hk|].
    unfold dir_at. rewrite <-Hsrc by apply prefix_app_same.
    apply (wf_prefix_dir (cs_fs st) (S ++ k) (x :: s)); [done| |done].
    rewrite <-app_assoc, Ha'. eauto. }
  split; [done|]. exists a. split; [done|]. split; [done|]. split.
  { pose proof (proj1 (no_links_spec (cs_fs st)) Hnl _ _ Ha'). done. }
  split; [done|]. split.
  - intros k n Hk Hkne Hn. destruct (decide (k = [])) as [->|Hk0].
    + rewrite app_nil_r in Hn. by apply (dir_at_lookup (cs_fs st) D).
    + pose proof (Hsrcdir k Hk Hkne) as Hd.
      apply dir_at_Some in Hd as (sz & m & Hd).
      apply (same_kind_dir (NDir sz m) n); [|done].
      apply (Hkinds k); [by apply (Hkept_closed k rel)|done|done].
  - intros b Hb. by apply (Hkinds rel).
Qed.

Lemma copy_step_summary (st : copy_state) (rel : path) (done : list path) :
  rel ∈ kept →
  copy_invariant S D tol ref kept (cs_fs st) done (cs_dirs st) →
  (∀ q, ¬ q `prefix_of` D ++ rel →
        cs_fs (copy_step now S D false tol st rel) !! q = cs_fs st !! q)
  ∧ cs_dirs (copy_step now S D false tol st rel)
    = cs_dirs st ++ (if dir_at ref (S ++ rel) then [(S ++ rel, D ++ rel)] else [])
  ∧ cs_created (copy_step now S D false tol st rel)
    = (cs_created st + if planned_mkdir (cs_fs st) S D rel then 1 else 0)%nat
  ∧ cs_copied (copy_step now S D false tol st rel)
    = (cs_copied st + if planned_copy (cs_fs st) S D tol rel then 1 else 0)%nat
  ∧ (∀ sm content, ref !! (S ++ rel) = Some (NFile sm content) →
       cs_fs (copy_step now S D false tol st rel) !! (D ++ rel)
       = if should_copy (cs_fs st) (S ++ rel) (D ++ rel) tol
         then Some (NFile (Meta (m_mtime sm) (m_atime sm) (S_IMODE (m_mode sm))) content)
         else cs_fs st !! (D ++ rel)).
Proof.
  intros Hrel Hinv.
  destruct (copy_step_ready st rel done Hrel Hinv)
    as (Hne & a & Href & Ha & Hlink & Hsrcdir & Hanc & Hkind).
  destruct Hinv as (Hwf & Hnl & Hsrc & HD & _).
  pose proof (step_valid_src S st rel a Hwf Ha) as Hvs.
  pose proof (step_valid_dst S D HvD st rel a Hwf Ha) as Hvd.
  unfold planned_mkdir, planned_copy.
  rewrite (is_dir_literal (cs_fs st) Hwf Hnl _ Hvs).
  rewrite (is_symlink_literal (cs_fs st) Hwf Hnl _ Hvs).
  rewrite (path_exists_literal (cs_fs st) Hwf Hnl _ Hvd).
  unfold dir_at at 2 3. rewrite Ha. unfold dir_at. rewrite Href.
  destruct a as [sz m|sm content|m t]; [| |done]; cbn [is_dir_node andb negb].
  - destruct (copy_step_dir now S D tol HvD HSD HDS st rel _ Hwf Hnl HD Ha Hanc
                Hkind sz m eq_refl)
      as (_ & _ & _ & _ & Hc & Hdl & Hfr & _ & _ & _ & Hex).
    pose proof (copy_step_dir_created now S D tol HvD HSD HDS st rel _ Hwf Hnl HD Ha
                  Hanc Hkind sz m eq_refl) as Hnew.
    split; [done|]. split; [done|]. split; [|split; [rewrite Hc; lia|done]].
    destruct (cs_fs st !! (D ++ rel)) as [b|] eqn:Hb.
    + rewrite bool_decide_eq_true_2 by eauto. cbn [negb].
      destruct Hex as [_ ->]; [eauto|]. lia.
    + rewrite bool_decide_eq_false_2 by (by intros [? ?]). cbn [negb].
      rewrite (Hnew eq_refl). lia.
  - destruct (copy_step_file now S D tol HvD HSD HDS st rel _ Hwf Hnl HD Hne Ha Hanc
                Hkind sm content eq_refl)
      as (_ & _ & _ & _ & Hcr & Hdl & Hfr & _).
    split; [done|]. split; [by rewrite Hdl, app_nil_r|]. split; [rewrite Hcr; lia|].
    destruct (should_copy (cs_fs st) (S ++ rel) (D ++ rel) tol) eqn:Hsc.
    + destruct (copy_step_file_exact now S D tol HvD HSD HDS st rel _ Hwf Hnl HD Hne Ha
                  Hanc Hkind sm content eq_refl Hsc) as [Hd Hk].
      split; [rewrite Hk; lia|]. intros sm' content' [= <- <-]. done.
    + rewrite (copy_step_file_skip now S D tol st rel _ Hwf Hnl Ha Hkind sm content
                 eq_refl Hsc).
      split; [lia|]. by intros sm' content' _.
Qed.
Lemma copy_loop_summary (l : list path) (st : copy_state) (done : list path) :
  StronglySorted (λ rel r : path, ¬ r `prefix_of` rel) l →
  (∀ rel, rel ∈ l → rel ∈ kept) →
  copy_invariant S D tol ref kept (cs_fs st) done (cs_dirs st) →
  (∀ q, (∀ rel, rel ∈ l → ¬ q `prefix_of` D ++ rel) →
        cs_fs (foldl (copy_step now S D false tol) st l) !! q = cs_fs st !! q)
  ∧ cs_dirs (foldl (copy_step now S D false tol) st l)
    = cs_dirs st ++ ((λ rel, (S ++ rel, D ++ rel)) <$>
                     filter (λ rel, dir_at ref (S ++ rel) = true) l)
  ∧ cs_created (foldl (copy_step now S D false tol) st l)
    = (cs_created st
       + length (filter (λ p, planned_mkdir (cs_fs st) S D p = true) l))%nat
  ∧ cs_copied (foldl (copy_step now S D false tol) st l)
    = (cs_copied st
       + length (filter (λ p, planned_copy (cs_fs st) S D tol p = true) l))%nat
  ∧ (∀ rel sm content, rel ∈ l → ref !! (S ++ rel) = Some (NFile sm content) →
       cs_fs (foldl (copy_step now S D false tol) st l) !! (D ++ rel)
       = if should_copy (cs_fs st) (S ++ rel) (D ++ rel) tol
         then Some (NFile (Meta (m_mtime sm) (m_atime sm) (S_IMODE (m_mode sm))) content)
         else cs_fs st !! (D ++ rel)).
Proof.
  revert st done. induction l as [|rel l IH]; intros st done Hsort Hl Hinv.
  { simpl. split; [done|]. split; [by rewrite app_nil_r|].
    split; [lia|]. split; [lia|]. intros rel sm content Hin. by apply elem_of_nil in Hin. }
  apply StronglySorted_inv in Hsort as [Hsort Hhead].
  rewrite Forall_forall in Hhead.
  assert (rel ∈ kept) as Hrel by (apply Hl; left).
  destruct (copy_step_inv now S D tol HvD HSD HDS ref kept Hkept_src Hkept_closed
              st rel done Hrel Hinv) as (Hinv1 & _ & _).
  destruct (copy_step_summary st rel done Hrel Hinv)
    as (Hfr & Hdl & Hcr & Hcp & Hfile).
  cbn [foldl].
  remember (copy_step now S D false tol st rel) as st1 eqn:Hst1. clear Hst1.
  destruct (IH st1 (done ++ [rel]) Hsort) as (Hfr' & Hdl' & Hcr' & Hcp' & Hfile');
    [intros r Hr; apply Hl; by right|done|].
  assert (∀ p, p ∈ l →
            cs_fs st1 !! (D ++ p) = cs_fs st !! (D ++ p)
            ∧ planned_mkdir (cs_fs st1) S D p = planned_mkdir (cs_fs st) S D p
            ∧ planned_copy (cs_fs st1) S D tol p = planned_copy (cs_fs st) S D tol p
            ∧ should_copy (cs_fs st1) (S ++ p) (D ++ p) tol
              = should_copy (cs_fs st) (S ++ p) (D ++ p) tol) as Hstable.
  { intros p Hp.
    assert (p ∈ kept) as Hpk by (apply Hl; by right).
    destruct (copy_step_ready st p done Hpk Hinv) as (_ & a & Href & Ha & _).
    destruct Hinv as (Hwf & Hnl & Hsrc & _).
    destruct Hinv1 as (Hwf1 & Hnl1 & Hsrc1 & _).
    pose proof (step_valid_src S st p a Hwf Ha) as Hvs.
    pose proof (step_valid_dst S D HvD st p a Hwf Ha) as Hvd.
    assert (cs_fs st1 !! (D ++ p) = cs_fs st !! (D ++ p)) as Hd.
    { apply Hfr. intros Hpre%prefix_app_inv. by apply (Hhead p Hp). }
    assert (cs_fs st1 !! (S ++ p) = cs_fs st !! (S ++ p)) as Hs.
    { rewrite Hsrc, Hsrc1 by apply prefix_app_same. done. }
    split; [done|].
    destruct (planned_ext (cs_fs st) (cs_fs st1) S D tol p) as [Hm Hc]; try done.
    split; [done|]. split; [done|]. by apply should_copy_ext. }
  split; [|split; [|split; [|split]]].
  - intros q Hq. rewrite Hfr'.
    + apply Hfr. apply Hq. left.
    + intros r Hr. apply Hq. by right.
  - rewrite Hdl', Hdl, <-app_assoc. f_equal. rewrite filter_cons.
    destruct (dir_at ref (S ++ rel)) eqn:Hd.
    + by rewrite decide_True by done.
    + by rewrite decide_False by done.
  - rewrite Hcr', Hcr, filter_cons.
    rewrite (filter_length_ext (λ p, planned_mkdir (cs_fs st1) S D p = true)
               (λ p, planned_mkdir (cs_fs st) S D p = true) l).
    + destruct (planned_mkdir (cs_fs st) S D rel).
      * rewrite decide_True by done. simpl. lia.
      * rewrite decide_False by done. lia.
    + intros p Hp. destruct (Hstable p Hp) as (_ & -> & _). done.
  - rewrite Hcp', Hcp, filter_cons.
    rewrite (filter_length_ext (λ p, planned_copy (cs_fs st1) S D tol p = true)
               (λ p, planned_copy (cs_fs st) S D tol p = true) l).
    + destruct (planned_copy (cs_fs st) S D tol rel).
      * rewrite decide_True by done. simpl. lia.
      * rewrite decide_False by done. lia.
    + intros p Hp. destruct (Hstable p Hp) as (_ & _ & -> & _). done.
  - intros r sm content Hr Href. apply elem_of_cons in Hr as [->|Hr].
    + rewrite Hfr'; [by apply Hfile|].
      intros p Hp Hpre%prefix_app_inv.
      assert (p ∈ kept) as Hpk by (apply Hl; by right).
      destruct (copy_step_ready st p done Hpk Hinv) as (_ & a & _ & _ & _ & Hsrcdir & _).
      assert (dir_at ref (S ++ rel) = true) as Hd.
      { apply Hsrcdir; [done|]. intros ->. by apply (Hhead p Hp). }
      unfold dir_at in Hd. by rewrite Href in Hd.
    + destruct (Hstable r Hr) as (Hd & _ & _ & Hsc).
      rewrite (Hfile' r sm content Hr Href), Hsc, Hd. done.
Qed.
End copy_exact.


(* ===================================================================== *)
(** ** Order of the copy loop *)
(* ===================================================================== *)

Lemma ascii_compare_refl (a : ascii) : Ascii.compare a a = Eq.
Proof. unfold Ascii.compare. apply N.compare_refl. Qed.

Lemma ascii_compare_lt_trans (a b c : ascii) :
  Ascii.compare a b = Lt → Ascii.compare b c = Lt → Ascii.compare a c = Lt.
Proof. unfold Ascii.compare. rewrite !N.compare_lt_iff. lia. Qed.

Lemma string_compare_refl (s : string) : String.compare s s = Eq.
Proof. induction s as [|a s IH]; simpl; [done|]. by rewrite ascii_compare_refl. Qed.

Lemma string_compare_lt_trans (s1 s2 s3 : string) :
  String.compare s1 s2 = Lt → String.compare s2 s3 = Lt → String.compare s1 s3 = Lt.
Proof.
  revert s2 s3. induction s1 as [|a s1 IH]; intros [|b s2] [|c s3]; simpl; try done.
  destruct (Ascii.compare a b) eqn:Hab, (Ascii.compare b c) eqn:Hbc; try done.
  - apply Ascii.compare_eq_iff in Hab as ->. rewrite Hbc. apply IH.
  - apply Ascii.compare_eq_iff in Hab as ->. by rewrite Hbc.
  - apply Ascii.compare_eq_iff in Hbc as <-. by rewrite Hab.
  - by rewrite (ascii_compare_lt_trans a b c).
Qed.

Lemma path_leb_refl (p : path) : path_leb p p = true.
Proof. induction p as [|a p IH]; simpl; [done|]. by rewrite string_compare_refl. Qed.

Lemma path_leb_app (p r : path) : path_leb p (p ++ r) = true.
Proof. induction p as [|a p IH]; simpl; [done|]. by rewrite string_compare_refl. Qed.

Lemma path_leb_total (p q : path) : path_leb p q = true ∨ path_leb q p = true.
Proof.
  revert q. induction p as [|a p IH]; intros [|b q]; simpl; auto.
  rewrite (String.compare_antisym b a).
  destruct (String.compare a b) eqn:Hab; simpl; auto.
Qed.

Lemma path_leb_antisym (p q : path) :
  path_leb p q = true → path_leb q p = true → p = q.
Proof.
  revert q. induction p as [|a p IH]; intros [|b q]; simpl; try done.
  rewrite (String.compare_antisym b a).
  destruct (String.compare a b) eqn:Hab; simpl; try done.
  apply String.compare_eq_iff in Hab as ->. intros Hpq Hqp. f_equal. by apply IH.
Qed.

Lemma path_leb_trans (p q r : path) :
  path_leb p q = true → path_leb q r = true → path_leb p r = true.
Proof.
  revert q r. induction p as [|a p IH]; intros [|b q] [|c r]; simpl; try done.
  destruct (String.compare a b) eqn:Hab, (String.compare b c) eqn:Hbc; try done.
  - apply String.compare_eq_iff in Hab as ->. rewrite Hbc. apply IH.
  - apply String.compare_eq_iff in Hab as ->. by rewrite Hbc.
  - apply String.compare_eq_iff in Hbc as <-. by rewrite Hab.
  - by rewrite (string_compare_lt_trans a b c).
Qed.

#[local] Instance path_le_trans : Transitive path_le.
Proof. intros p q r. apply path_leb_trans. Qed.

#[local] Instance path_le_total : Total path_le.
Proof. intros p q. apply path_leb_total. Qed.

Lemma sorted_paths_sorted (paths : gset path) :
  StronglySorted path_le (sorted_paths paths).
Proof. apply (StronglySorted_merge_sort path_le). Qed.

Lemma sorted_paths_NoDup (paths : gset path) : NoDup (sorted_paths paths).
Proof. rewrite sorted_paths_perm. apply NoDup_elements. Qed.

Lemma elem_of_sorted_paths (paths : gset path) (p : path) :
  p ∈ sorted_paths paths ↔ p ∈ paths.
Proof. by rewrite sorted_paths_perm, elem_of_elements. Qed.

Lemma StronglySorted_NoDup_impl {A} (R R' : relation A) (l : list A) :
  (∀ x y, R x y → x ≠ y → R' x y) →
  StronglySorted R l → NoDup l → StronglySorted R' l.
Proof.
  intros Himp. induction 1 as [|x l Hs IH Hall]; intros Hnd; [constructor|].
  apply NoDup_cons in Hnd as [Hx Hnd]. constructor; [by apply IH|].
  rewrite Forall_forall in Hall. apply Forall_forall. intros y Hy.
  apply Himp; [by apply Hall|]. intros ->. done.
Qed.

Lemma sorted_paths_parents_first (paths : gset path) :
  StronglySorted (λ rel r : path, ¬ r `prefix_of` rel) (sorted_paths paths).
Proof.
  apply (StronglySorted_NoDup_impl path_le);
    [|apply sorted_paths_sorted|apply sorted_paths_NoDup].
  intros p q Hpq Hne [k ->]. apply Hne. apply path_leb_antisym; [done|].
  apply path_leb_app.
Qed.

(** X8. The copy loop runs over the kept source paths in the order of
    [sorted]: every path once, the list ordered by components, and hence
    every directory before the entries below it. *)
Theorem copy_order_parents_first (source_paths : gset path) :
  sorted_paths source_paths ≡ₚ elements source_paths
  ∧ NoDup (sorted_paths source_paths)
  ∧ (∀ i j p q,
       sorted_paths source_paths !! i = Some p →
       sorted_paths source_paths !! j = Some q →
       (i < j)%nat → path_leb p q = true)
  ∧ (∀ i j p q,
       sorted_paths source_paths !! i = Some p →
       sorted_paths source_paths !! j = Some q →
       p `prefix_of` q → p ≠ q → (i < j)%nat)
  ∧ (∀ now source destination dry_run time_tolerance fs errors,
       copy_phase now source destination dry_run time_tolerance fs errors source_paths
       = foldl (copy_step now source destination dry_run time_tolerance)
               (CopyState fs 0 0 0 [] errors) (sorted_paths source_paths)).
Proof.
  assert (∀ i j p q,
       sorted_paths source_paths !! i = Some p →
       sorted_paths source_paths !! j = Some q →
       (i < j)%nat → path_leb p q = true) as Hord.
  { intros i j p q Hi Hj Hlt.
    apply (StronglySorted_lookup_lt path_le (sorted_paths source_paths) i j);
      auto using sorted_paths_sorted. }
  split; [apply sorted_paths_perm|]. split; [apply sorted_paths_NoDup|].
  split; [exact Hord|]. split; [|done].
  intros i j p q Hi Hj [k ->] Hne.
  destruct (decide (i < j)%nat) as [|Hge]; [done|]. exfalso.
  destruct (decide (i = j)) as [->|Hij].
  - rewrite Hi in Hj. by simplify_eq.
  - apply Hne. apply path_leb_antisym; [apply path_leb_app|].
    apply (Hord j i); [done..|lia].
Qed.


(* ===================================================================== *)
(** ** The metadata pass *)
(* ===================================================================== *)

Lemma fix_metadata_at (fs : FS) (src dst : path) (sz szd : Z) (m md : meta) :
  well_formed fs = true → no_links fs = true → valid_path src = true →
  fs !! src = Some (NDir sz m) → fs !! dst = Some (NDir szd md) →
  fix_metadata fs src dst !! dst
  = Some (NDir szd (Meta (m_mtime m) (m_atime m) (S_IMODE (m_mode m)))).
Proof.
  intros Hwf Hnl Hv Hsrc Hdst. unfold fix_metadata.
  rewrite (stat_literal fs Hwf Hnl src Hv), Hsrc.
  rewrite (chmod_literal fs Hwf Hnl dst) by eauto.
  set (fs1 := alter _ dst fs).
  assert (well_formed fs1 = true) as Hwf1 by (by apply well_formed_alter_meta).
  assert (no_links fs1 = true) as Hnl1 by (by apply no_links_alter_meta).
  assert (fs1 !! dst = Some (NDir szd (Meta (m_mtime md) (m_atime md) (S_IMODE (m_mode m)))))
    as Hd1 by (unfold fs1; by rewrite lookup_alter_eq, Hdst).
  rewrite (utime_literal fs1 Hwf1 Hnl1 dst) by eauto.
  by rewrite lookup_alter_eq, Hd1.
Qed.

Section fixup_exact.
Context (S D : path).
Context (HSD : ¬ S `prefix_of` D) (HDS : ¬ D `prefix_of` S).

Lemma fixup_loop_exact (L : list path) (fs : FS) :
  well_formed fs = true → no_links fs = true → NoDup L →
  (∀ rel, rel ∈ L → dir_at fs (S ++ rel) = true ∧ dir_at fs (D ++ rel) = true) →
  well_formed (foldl (λ fs '(src_path, dst_path), fix_metadata fs src_path dst_path)
                     fs ((λ rel, (S ++ rel, D ++ rel)) <$> L)) = true
  ∧ no_links (foldl (λ fs '(src_path, dst_path), fix_metadata fs src_path dst_path)
                    fs ((λ rel, (S ++ rel, D ++ rel)) <$> L)) = true
  ∧ (∀ q, same_entry (fs !! q)
            (foldl (λ fs '(src_path, dst_path), fix_metadata fs src_path dst_path)
                   fs ((λ rel, (S ++ rel, D ++ rel)) <$> L) !! q))
  ∧ (∀ q, (∀ rel, rel ∈ L → q ≠ D ++ rel) →
          foldl (λ fs '(src_path, dst_path), fix_metadata fs src_path dst_path)
                fs ((λ rel, (S ++ rel, D ++ rel)) <$> L) !! q = fs !! q)
  ∧ (∀ rel sz m, rel ∈ L → fs !! (S ++ rel) = Some (NDir sz m) →
       ∃ szd, foldl (λ fs '(src_path, dst_path), fix_metadata fs src_path dst_path)
                    fs ((λ rel, (S ++ rel, D ++ rel)) <$> L) !! (D ++ rel)
              = Some (NDir szd (Meta (m_mtime m) (m_atime m) (S_IMODE (m_mode m))))).
Proof.
  revert fs. induction L as [|rel0 L IH]; intros fs Hwf Hnl Hnd Hdirs.
  { simpl. split; [done|]. split; [done|]. split; [intros; apply same_entry_refl|].
    split; [done|]. intros rel sz m Hin. by apply elem_of_nil in Hin. }
  apply NoDup_cons in Hnd as [Hnew Hnd].
  destruct (Hdirs rel0) as [Hs0 Hd0]; [left|].
  assert (valid_path (S ++ rel0) = true) as Hv0.
  { apply (wf_valid_suffix fs [] (S ++ rel0)); [done|]. by apply dir_at_is_Some. }
  destruct (fix_metadata_dir fs Hwf Hnl (S ++ rel0) (D ++ rel0) Hv0 Hs0 Hd0)
    as (Hwf1 & Hnl1 & Hse1 & Hfr1).
  rewrite fmap_cons. cbn [foldl].
  remember (fix_metadata fs (S ++ rel0) (D ++ rel0)) as fs1 eqn:Hfs1.
  destruct (IH fs1 Hwf1 Hnl1 Hnd) as (Hwf2 & Hnl2 & Hse2 & Hfr2 & Hex2).
  { intros rel Hrel. destruct (Hdirs rel) as [Hs Hd]; [by right|].
    by rewrite !(same_entry_dir_at_eq fs fs1). }
  split; [done|]. split; [done|]. split.
  { intros q. eapply same_entry_trans; [apply Hse1|apply Hse2]. }
  split.
  { intros q Hq. rewrite Hfr2.
    - apply Hfr1. apply Hq. left.
    - intros rel Hrel. apply Hq. by right. }
  intros rel sz m Hrel Hsrc. apply elem_of_cons in Hrel as [->|Hrel].
  - apply dir_at_Some in Hd0 as (szd & md & Hdst).
    exists szd. rewrite Hfr2.
    + rewrite Hfs1. by apply (fix_metadata_at fs _ _ sz szd m md).
    + intros rel Hrel ?%app_inv_head. by subst.
  - apply (Hex2 rel sz m Hrel). rewrite Hfr1; [done|].
    apply (source_dest_ne S D HSD HDS).
Qed.

Lemma fixup_phase_exact (L : list path) (fs : FS) :
  well_formed fs = true → no_links fs = true → NoDup L →
  valid_path S = true → valid_path D = true →
  dir_at fs S = true → dir_at fs D = true →
  (∀ rel, rel ∈ L →
     rel ≠ [] ∧ dir_at fs (S ++ rel) = true ∧ dir_at fs (D ++ rel) = true) →
  (∀ q, q ≠ D → (∀ rel, rel ∈ L → q ≠ D ++ rel) →
        fixup_phase S D false fs ((λ rel, (S ++ rel, D ++ rel)) <$> L) !! q = fs !! q)
  ∧ (∀ rel sz m, rel ∈ L → fs !! (S ++ rel) = Some (NDir sz m) →
       ∃ szd, fixup_phase S D false fs ((λ rel, (S ++ rel, D ++ rel)) <$> L) !! (D ++ rel)
              = Some (NDir szd (Meta (m_mtime m) (m_atime m) (S_IMODE (m_mode m)))))
  ∧ (∀ sz m, fs !! S = Some (NDir sz m) →
       ∃ szd, fixup_phase S D false fs ((λ rel, (S ++ rel, D ++ rel)) <$> L) !! D
              = Some (NDir szd (Meta (m_mtime m) (m_atime m) (S_IMODE (m_mode m))))).
Proof.
  intros Hwf Hnl Hnd HvS HvD HS HDd Hdirs.
  destruct (fixup_loop_exact L fs Hwf Hnl Hnd) as (Hwf1 & Hnl1 & Hse1 & Hfr1 & Hex1).
  { intros rel Hrel. by destruct (Hdirs rel Hrel) as (_ & ? & ?). }
  unfold fixup_phase. cbn [negb andb].
  remember (foldl (λ fs '(src_path, dst_path), fix_metadata fs src_path dst_path)
                  fs ((λ rel, (S ++ rel, D ++ rel)) <$> L)) as fs1 eqn:Hfs1.
  clear Hfs1.
  assert (dir_at fs1 D = true) as HD1 by (by rewrite (same_entry_dir_at_eq fs fs1)).
  assert (dir_at fs1 S = true) as HS1 by (by rewrite (same_entry_dir_at_eq fs fs1)).
  rewrite (path_exists_literal fs1 Hwf1 Hnl1 D HvD).
  rewrite bool_decide_eq_true_2 by (by apply dir_at_is_Some).
  destruct (fix_metadata_dir fs1 Hwf1 Hnl1 S D HvS HS1 HD1) as (_ & _ & _ & Hfr2).
  assert (S ≠ D) as Hne by (intros ->; by apply HSD).
  split; [|split].
  - intros q HqD Hq. rewrite Hfr2 by done. by apply Hfr1.
  - intros rel sz m Hrel Hsrc. destruct (Hdirs rel Hrel) as (Hne' & _ & _).
    destruct (Hex1 rel sz m Hrel Hsrc) as [szd Hd]. exists szd.
    rewrite Hfr2; [done|]. intros Heq. apply Hne'.
    apply (f_equal length) in Heq. rewrite length_app in Heq.
    destruct rel; [done|simpl in Heq; lia].
  - intros sz m Hsrc. apply dir_at_Some in HD1 as (szd & md & Hdst).
    exists szd. apply (fix_metadata_at fs1 S D sz szd m md); try done.
    rewrite Hfr1; [done|]. intros rel _ Heq. apply HDS. rewrite Heq.
    apply prefix_app_same.
Qed.
End fixup_exact.


(* ===================================================================== *)
(** ** What a run leaves behind *)
(* ===================================================================== *)

Lemma delete_phase_frame (now : Z) (fs : FS) (D : path) (dest_paths kept : gset path) :
  well_formed fs = true → no_links fs = true →
  (∀ rel : path, rel ∈ dest_paths ↔ rel ≠ [] ∧ is_Some (fs !! (D ++ rel))) →
  (∀ k rel : path, rel ∈ kept → k `prefix_of` rel → k ≠ [] → k ∈ kept) →
  ∀ q, ¬ D `prefix_of` q →
       ds_fs (delete_phase now D false fs (paths_to_delete dest_paths kept)) !! q = fs !! q.
Proof.
  intros Hwf Hnl Hscan Hkcl.
  assert (∀ rel : path, rel ∈ paths_to_delete dest_paths kept ↔
            (rel ≠ [] ∧ is_Some (fs !! (D ++ rel))) ∧ rel ∉ kept) as HT.
  { intros rel. unfold paths_to_delete. by rewrite elem_of_difference, Hscan. }
  generalize dependent (paths_to_delete dest_paths kept). intros to_delete HT.
  unfold delete_phase.
  destruct (delete_loop_ok now D (sorted_deletes to_delete) fs 0 0 Hwf Hnl)
    as (_ & _ & _ & _ & _ & _ & Hfr1).
  { apply sorted_deletes_NoDup. }
  { apply sorted_deletes_sorted. }
  { intros rel Hrel%elem_of_sorted_deletes. by apply HT in Hrel as [? _]. }
  { intros rel c Hrel%elem_of_sorted_deletes Hc. apply elem_of_sorted_deletes.
    apply HT in Hrel as [[Hne' _] Hnk]. apply HT. split.
    - split; [by destruct rel|done].
    - intros Hk. apply Hnk. apply (Hkcl rel (rel ++ [c])); [done| |done].
      apply prefix_app_same. }
  exact Hfr1.
Qed.

Lemma same_entry_None (b : option node) : same_entry None b → b = None.
Proof. by destruct b. Qed.

Lemma same_entry_is_Some_iff (a b : option node) :
  same_entry a b → (is_Some a ↔ is_Some b).
Proof.
  destruct a as [[]|], b as [[]|]; simpl; try done;
    intros _; split; intros [? ?]; eauto.
Qed.

Lemma app_ne_self {A} (p r : list A) : r ≠ [] → p ++ r ≠ p.
Proof.
  intros Hr Heq. apply (f_equal length) in Heq. rewrite length_app in Heq.
  destruct r; [done|simpl in Heq; lia].
Qed.

Lemma count_paths_all (f : path → bool) (paths : gset path) :
  (∀ p, p ∈ paths → f p = true) → count_paths f paths = size paths.
Proof.
  intros Hall. unfold count_paths, size, set_size. simpl.
  assert (∀ p, p ∈ elements paths → f p = true) as Hl
    by (intros p Hp; by apply Hall, elem_of_elements).
  induction (elements paths) as [|p l IH]; [done|].
  rewrite filter_cons, decide_True by (apply Hl; left). simpl.
  f_equal. apply IH. intros q Hq. apply Hl. by right.
Qed.

Lemma count_paths_ext (f g : path → bool) (paths : gset path) :
  (∀ p, p ∈ paths → f p = g p) → count_paths f paths = count_paths g paths.
Proof.
  intros Hfg. unfold count_paths. apply filter_length_ext.
  intros p Hp%elem_of_elements. by rewrite (Hfg p Hp).
Qed.

Section run_exact.
Context (now : Z) (fs : FS) (S D : path) (tol : Z).
Context (Hwf : well_formed fs = true) (Hnl : no_links fs = true).
Context (HvS : valid_path S = true) (HvD : valid_path D = true).
Context (HS : dir_at fs S = true).
Context (HSD : ¬ S `prefix_of` D) (HDS : ¬ D `prefix_of` S).
Context (kept : gset path).
Context (Hks : ∀ rel, rel ∈ kept → rel ≠ [] ∧ is_Some (fs !! (S ++ rel))).
Context (Hkc : ∀ k rel, rel ∈ kept → k `prefix_of` rel → k ≠ [] → k ∈ kept).
Context (Hkinds : ∀ rel a b, rel ∈ kept → fs !! (S ++ rel) = Some a →
                    fs !! (D ++ rel) = Some b → same_kind a b = true).
Context (fs0 : FS).
Context (Hwf0 : well_formed fs0 = true) (Hnl0 : no_links fs0 = true).
Context (HD0 : dir_at fs0 D = true).
Context (Hfr0 : ∀ q, ¬ q `prefix_of` D → fs0 !! q = fs !! q).
Context (dest_paths : gset path).
Context (Hscan0 : ∀ rel : path,
           rel ∈ dest_paths ↔ rel ≠ [] ∧ is_Some (fs0 !! (D ++ rel))).
Context (d : del_state).
Context (Hd : d = delete_phase now D false fs0 (paths_to_delete dest_paths kept)).
Context (c : copy_state).
Context (Hc : c = copy_phase now S D false tol (ds_fs d) (ds_errors d) kept).
Context (Hinv1 : copy_invariant S D tol fs kept (ds_fs d) [] []).

Lemma run_valid (rel : path) :
  rel ∈ kept → valid_path (S ++ rel) = true ∧ valid_path (D ++ rel) = true.
Proof.
  intros Hrel. destruct (Hks rel Hrel) as [_ His].
  split.
  - by apply (wf_valid_suffix fs [] (S ++ rel)).
  - apply valid_path_app. split; [done|]. by apply (wf_valid_suffix fs S rel).
Qed.

Lemma run_dest_entry (rel : path) :
  rel ∈ kept → same_entry (fs !! (D ++ rel)) (ds_fs d !! (D ++ rel)).
Proof.
  intros Hrel. destruct (Hks rel Hrel) as [Hne _].
  destruct (delete_phase_exact now fs0 D dest_paths kept Hwf0 Hnl0 Hscan0 Hkc)
    as (_ & _ & _ & Hsame & _).
  rewrite <-Hd in Hsame. rewrite <-(Hfr0 (D ++ rel)).
  - apply Hsame. intros p Hp ?%app_inv_head. subst p.
    unfold paths_to_delete in Hp. by apply elem_of_difference in Hp as [_ Hp].
  - intros [k Hk]. apply (app_ne_self D (rel ++ k)); [by destruct rel|].
    by rewrite app_assoc.
Qed.

Lemma run_dest_file (rel : path) (sm : meta) (content : string) :
  rel ∈ kept → fs !! (S ++ rel) = Some (NFile sm content) →
  ds_fs d !! (D ++ rel) = fs !! (D ++ rel).
Proof.
  intros Hrel Hsrc. pose proof (run_dest_entry rel Hrel) as Hse.
  destruct (fs !! (D ++ rel)) as [b|] eqn:Hb.
  - apply same_entry_nondir_l; [done|].
    pose proof (Hkinds rel _ b Hrel Hsrc Hb) as Hk. by destruct b.
  - by apply same_entry_None.
Qed.

Lemma run_planned (rel : path) :
  rel ∈ kept →
  planned_mkdir (ds_fs d) S D rel = planned_mkdir fs S D rel
  ∧ planned_copy (ds_fs d) S D tol rel = planned_copy fs S D tol rel
  ∧ (∀ sm content, fs !! (S ++ rel) = Some (NFile sm content) →
       should_copy (ds_fs d) (S ++ rel) (D ++ rel) tol
       = should_copy fs (S ++ rel) (D ++ rel) tol).
Proof.
  intros Hrel. destruct (run_valid rel Hrel) as [Hvs Hvd].
  destruct Hinv1 as (Hwf1 & Hnl1 & Hsrc1 & _).
  assert (ds_fs d !! (S ++ rel) = fs !! (S ++ rel)) as Hs
    by (apply Hsrc1, prefix_app_same).
  assert (∀ sm content, fs !! (S ++ rel) = Some (NFile sm content) →
       should_copy (ds_fs d) (S ++ rel) (D ++ rel) tol
       = should_copy fs (S ++ rel) (D ++ rel) tol) as Hsc.
  { intros sm content Hsrc. apply should_copy_ext; try done.
    by apply (run_dest_file rel sm content). }
  split; [|split; [|done]].
  - unfold planned_mkdir.
    rewrite (is_dir_literal fs Hwf Hnl _ Hvs), (is_dir_literal (ds_fs d) Hwf1 Hnl1 _ Hvs).
    rewrite (is_symlink_literal fs Hwf Hnl _ Hvs), (is_symlink_literal (ds_fs d) Hwf1 Hnl1 _ Hvs).
    rewrite (path_exists_literal fs Hwf Hnl _ Hvd), (path_exists_literal (ds_fs d) Hwf1 Hnl1 _ Hvd).
    unfold dir_at. rewrite Hs. f_equal. f_equal. apply bool_decide_ext.
    symmetry. apply same_entry_is_Some_iff. by apply run_dest_entry.
  - unfold planned_copy.
    rewrite (is_dir_literal fs Hwf Hnl _ Hvs), (is_dir_literal (ds_fs d) Hwf1 Hnl1 _ Hvs).
    rewrite (is_symlink_literal fs Hwf Hnl _ Hvs), (is_symlink_literal (ds_fs d) Hwf1 Hnl1 _ Hvs).
    unfold dir_at. rewrite Hs.
    destruct (fs !! (S ++ rel)) as [[sz m|sm content|m t]|] eqn:Hsrc; cbn [is_dir_node andb negb].
    + done.
    + by rewrite (Hsc sm content).
    + by destruct (no_link_at fs Hnl _ _ _ Hsrc).
    + destruct (Hks rel Hrel) as [_ [? ?]]. congruence.
Qed.

Lemma run_copy_facts :
  copy_invariant S D tol fs kept (cs_fs c) (sorted_paths kept) (cs_dirs c)
  ∧ cs_failed c = 0%nat ∧ cs_errors c = ds_errors d
  ∧ (∀ q, (∀ rel, rel ∈ kept → ¬ q `prefix_of` D ++ rel) →
          cs_fs c !! q = ds_fs d !! q)
  ∧ cs_dirs c = (λ rel, (S ++ rel, D ++ rel)) <$>
                filter (λ rel, dir_at fs (S ++ rel) = true) (sorted_paths kept)
  ∧ cs_created c = count_paths (planned_mkdir fs S D) kept
  ∧ cs_copied c = count_paths (planned_copy fs S D tol) kept
  ∧ (∀ rel sm content, rel ∈ kept → fs !! (S ++ rel) = Some (NFile sm content) →
       cs_fs c !! (D ++ rel)
       = if should_copy fs (S ++ rel) (D ++ rel) tol
         then Some (NFile (Meta (m_mtime sm) (m_atime sm) (S_IMODE (m_mode sm))) content)
         else fs !! (D ++ rel)).
Proof.
  assert (∀ rel, rel ∈ sorted_paths kept → rel ∈ kept) as Hall
    by (intros rel; apply elem_of_sorted_paths).
  destruct (copy_loop_inv now S D tol HvD HSD HDS fs kept Hks Hkc (sorted_paths kept)
              (CopyState (ds_fs d) 0 0 0 [] (ds_errors d)) [] Hall Hinv1)
    as (Hinv2 & Hfail & Herr).
  destruct (copy_loop_summary now S D tol HvD HSD HDS fs kept Hks Hkc (sorted_paths kept)
              (CopyState (ds_fs d) 0 0 0 [] (ds_errors d)) []
              (sorted_paths_parents_first kept) Hall Hinv1)
    as (Hfr & Hdl & Hcr & Hcp & Hfile).
  unfold copy_phase in Hc. rewrite <-Hc in Hinv2, Hfail, Herr, Hfr, Hdl, Hcr, Hcp, Hfile.
  cbn [cs_fs cs_dirs cs_created cs_copied cs_failed cs_errors] in *.
  split; [done|]. split; [done|]. split; [done|]. split.
  { intros q Hq. apply Hfr. intros rel Hrel. by apply Hq, Hall. }
  split; [done|]. split.
  { rewrite Hcr. cbn [Nat.add].
    rewrite (count_paths_perm _ kept) by apply sorted_paths_perm.
    apply count_paths_ext. intros p Hp. by destruct (run_planned p Hp) as (-> & _). }
  split.
  { rewrite Hcp. cbn [Nat.add].
    rewrite (count_paths_perm _ kept) by apply sorted_paths_perm.
    apply count_paths_ext. intros p Hp. by destruct (run_planned p Hp) as (_ & -> & _). }
  intros rel sm content Hrel Hsrc.
  rewrite (Hfile rel sm content (proj2 (elem_of_sorted_paths kept rel) Hrel) Hsrc).
  destruct (run_planned rel Hrel) as (_ & _ & Hsc).
  rewrite (Hsc sm content Hsrc). by rewrite (run_dest_file rel sm content).
Qed.
Lemma run_final_facts :
  (∀ q, ¬ D `prefix_of` q → ¬ q `prefix_of` D →
        fixup_phase S D false (cs_fs c) (cs_dirs c) !! q = fs !! q)
  ∧ (∀ q, S `prefix_of` q →
          fixup_phase S D false (cs_fs c) (cs_dirs c) !! q = fs !! q)
  ∧ (∀ rel sz m, rel ∈ kept → fs !! (S ++ rel) = Some (NDir sz m) →
       ∃ szd, fixup_phase S D false (cs_fs c) (cs_dirs c) !! (D ++ rel)
              = Some (NDir szd (Meta (m_mtime m) (m_atime m) (S_IMODE (m_mode m)))))
  ∧ (∀ sz m, fs !! S = Some (NDir sz m) →
       ∃ szd, fixup_phase S D false (cs_fs c) (cs_dirs c) !! D
              = Some (NDir szd (Meta (m_mtime m) (m_atime m) (S_IMODE (m_mode m)))))
  ∧ (∀ rel sm content, rel ∈ kept → fs !! (S ++ rel) = Some (NFile sm content) →
       fixup_phase S D false (cs_fs c) (cs_dirs c) !! (D ++ rel)
       = if should_copy fs (S ++ rel) (D ++ rel) tol
         then Some (NFile (Meta (m_mtime sm) (m_atime sm) (S_IMODE (m_mode sm))) content)
         else fs !! (D ++ rel))
  ∧ ds_deleted d = size (paths_to_delete dest_paths kept).
Proof.
  destruct run_copy_facts as (Hinv2 & _ & _ & Hcfr & Hdl & _ & _ & Hfile).
  destruct Hinv2 as (Hwf2 & Hnl2 & Hsrc2 & HD2 & _ & Hkinds2 & Hdone2 & _).
  rewrite Hdl. clear Hdl.
  assert (dir_at (cs_fs c) S = true) as HS2.
  { unfold dir_at. rewrite Hsrc2 by reflexivity. exact HS. }
  assert (∀ rel, rel ∈ filter (λ rel, dir_at fs (S ++ rel) = true) (sorted_paths kept) ↔
                 rel ∈ kept ∧ dir_at fs (S ++ rel) = true) as HL.
  { intros rel. rewrite list_elem_of_filter, elem_of_sorted_paths. tauto. }
  destruct (fixup_phase_exact S D HSD HDS
              (filter (λ rel, dir_at fs (S ++ rel) = true) (sorted_paths kept))
              (cs_fs c) Hwf2 Hnl2) as (Ffr & Fex & Froot); try done.
  { apply NoDup_filter, sorted_paths_NoDup. }
  { intros rel [Hrel Hdir]%HL. destruct (Hks rel Hrel) as [Hne _].
    split; [done|]. split.
    - unfold dir_at. rewrite Hsrc2 by apply prefix_app_same. exact Hdir.
    - apply dir_at_Some in Hdir as (sz & m & Hsrc).
      destruct (Hdone2 rel (NDir sz m)) as (b & Hb & _);
        [by apply elem_of_sorted_paths|done|].
      unfold dir_at. rewrite Hb.
      apply (same_kind_dir (NDir sz m) b); [|done]. by apply (Hkinds2 rel). }
  generalize dependent (filter (λ rel, dir_at fs (S ++ rel) = true) (sorted_paths kept)).
  intros L HL Ffr Fex Froot.
  assert (∀ q, ¬ D `prefix_of` q → ¬ q `prefix_of` D →
            fixup_phase S D false (cs_fs c) ((λ rel, (S ++ rel, D ++ rel)) <$> L) !! q
            = fs !! q) as Hframe.
  { intros q HDq HqD. rewrite Ffr.
    - rewrite Hcfr.
      + rewrite Hd. rewrite (delete_phase_frame now fs0 D dest_paths kept) by done.
        by apply Hfr0.
      + intros rel _ Hq. destruct (prefix_of_app_cases _ _ _ Hq) as [?|(k & -> & _)];
          [done|]. apply HDq, prefix_app_same.
    - intros ->. by apply HDq.
    - intros rel _ ->. apply HDq, prefix_app_same. }
  split; [exact Hframe|]. split.
  { intros q Hq. apply Hframe.
    - intros HDq. destruct (prefix_weak_total S D q Hq HDq); done.
    - intros HqD. apply HSD. by etrans. }
  split.
  { intros rel sz m Hrel Hsrc. apply (Fex rel sz m).
    - apply HL. split; [done|]. unfold dir_at. by rewrite Hsrc.
    - rewrite Hsrc2 by apply prefix_app_same. done. }
  split.
  { intros sz m Hsrc. apply (Froot sz m). by rewrite Hsrc2 by reflexivity. }
  split.
  { intros rel sm content Hrel Hsrc. destruct (Hks rel Hrel) as [Hne _].
    rewrite Ffr; [by apply Hfile| |].
    - by apply app_ne_self.
    - intros rel' [_ Hdir]%HL ?%app_inv_head. subst rel'.
      unfold dir_at in Hdir. by rewrite Hsrc in Hdir. }
  destruct (delete_phase_exact now fs0 D dest_paths kept Hwf0 Hnl0 Hscan0 Hkc)
    as (_ & _ & _ & _ & Hcnt & _).
  by rewrite Hd.
Qed.
End run_exact.


(* ===================================================================== *)
(** ** A run, phase by phase *)
(* ===================================================================== *)

Section run_shape.
Context (now : Z) (fs : FS) (S D : path) (xp : option (gset string)) (tol : Z).
Context (Hinputs : mirror_inputs fs S D xp = true).

Lemma sync_run_shape :
  ∃ fs0 d c,
    well_formed fs0 = true ∧ no_links fs0 = true ∧ dir_at fs0 D = true
    ∧ (∀ q, ¬ q `prefix_of` D → fs0 !! q = fs !! q)
    ∧ (dir_at fs D = true → fs0 = fs)
    ∧ d = delete_phase now D false fs0
            (paths_to_delete (get_relative_paths fs0 D false)
               (filter_source xp (get_relative_paths fs S false)))
    ∧ c = copy_phase now S D false tol (ds_fs d) (ds_errors d)
            (filter_source xp (get_relative_paths fs S false))
    ∧ copy_invariant S D tol fs (filter_source xp (get_relative_paths fs S false))
        (ds_fs d) [] []
    ∧ sync_directories now fs S D false xp tol
      = Run (fixup_phase S D false (cs_fs c) (cs_dirs c)) 0
            (Done (cs_created c) (cs_copied c) (ds_deleted d) 0).
Proof.
  destruct (prepare_destination now fs S D xp Hinputs)
    as (fs0 & Hprep & Hwf0 & Hnl0 & HD0 & Hfr0).
  pose proof Hinputs as Hin.
  apply mirror_inputs_spec in Hin
    as (Hwf & Hnl & HvS & HvD & HS & HSD & HDS & Hok & Hka).
  assert (∀ q, S `prefix_of` q → fs0 !! q = fs !! q) as HSfr0.
  { intros q Hq. apply Hfr0. intros Hq'. apply HSD. by etrans. }
  assert (dir_at fs0 S = true) as HS0.
  { unfold dir_at. by rewrite HSfr0. }
  assert (get_relative_paths fs0 S false = get_relative_paths fs S false) as Hscan.
  { apply scan_ext; try done. intros rel. by rewrite HSfr0 by apply prefix_app_same. }
  assert (D ≠ S) as Hne by (intros ->; by apply HSD).
  destruct (delete_phase_mirror now fs S D xp tol Hwf Hnl HvS HvD HS HSD HDS fs0
              _ eq_refl Hka Hwf0 Hnl0 HD0 Hfr0) as [Hinv Herr].
  destruct (copy_phase_mirror now fs S D xp tol Hwf Hnl HvS HvD HS HSD HDS
              _ (ds_errors (delete_phase now D false fs0
                   (paths_to_delete (get_relative_paths fs0 D false)
                      (filter_source xp (get_relative_paths fs S false)))))
              _ eq_refl Hinv) as (_ & Hfailed & Herrors).
  exists fs0. eexists. eexists.
  split; [done|]. split; [done|]. split; [done|]. split; [done|]. split.
  { intros HDd. revert Hprep. rewrite path_exists_literal by done.
    rewrite bool_decide_eq_true_2 by (by apply dir_at_is_Some). cbn [negb andb].
    by intros [= ->]. }
  split; [reflexivity|]. split; [reflexivity|]. split; [exact Hinv|].
  etrans.
  { eapply (sync_directories_phases now fs fs0 S D false xp tol);
      [| |exact Hne| | |exact Hprep|reflexivity|reflexivity|reflexivity|reflexivity].
    - rewrite path_exists_literal by done. apply bool_decide_eq_true_2.
      by apply dir_at_is_Some.
    - by rewrite is_dir_literal.
    - by apply is_path_inside_false.
    - by apply is_path_inside_false. }
  rewrite Hscan.
  rewrite (path_exists_literal fs0 Hwf0 Hnl0 D HvD).
  rewrite bool_decide_eq_true_2 by (by apply dir_at_is_Some).
  rewrite Hfailed, Herrors, Herr. reflexivity.
Qed.
End run_shape.

Lemma deleted_count_dry (fs fs0 : FS) (D : path) (kept scan0 : gset path) :
  well_formed fs = true → no_links fs = true → valid_path D = true →
  (∀ q n, q `prefix_of` D → fs !! q = Some n → is_dir_node n = true) →
  (∀ q, ¬ q `prefix_of` D → fs0 !! q = fs !! q) →
  (dir_at fs D = true → fs0 = fs) →
  (∀ rel : path, rel ∈ scan0 ↔ rel ≠ [] ∧ is_Some (fs0 !! (D ++ rel))) →
  ∀ scan : gset path,
    (dir_at fs D = true → scan = scan0) →
    size (paths_to_delete scan0 kept)
    = count_paths (planned_delete fs D)
        (paths_to_delete (if path_exists fs D then scan else ∅) kept).
Proof.
  intros Hwf Hnl HvD Hok Hfr0 Hsame Hscan0 scan Hscan.
  rewrite (path_exists_literal fs Hwf Hnl D HvD).
  destruct (fs !! D) as [n|] eqn:HD.
  - assert (dir_at fs D = true) as Hdir.
    { unfold dir_at. rewrite HD. by apply (Hok D n). }
    rewrite bool_decide_eq_true_2 by eauto.
    rewrite (Hscan Hdir). rewrite (Hsame Hdir) in Hscan0.
    symmetry. apply count_paths_all. intros p Hp.
    unfold paths_to_delete in Hp. apply elem_of_difference in Hp as [Hp _].
    apply Hscan0 in Hp as [_ His]. unfold planned_delete.
    rewrite (path_exists_literal fs Hwf Hnl).
    + by rewrite bool_decide_eq_true_2.
    + apply valid_path_app. split; [done|]. by apply (wf_valid_suffix fs D p).
  - rewrite bool_decide_eq_false_2 by (by intros [? ?]).
    assert (scan0 = ∅) as ->.
    { apply set_eq. intros rel. rewrite Hscan0. split; [|set_solver].
      intros [Hne His]. rewrite Hfr0 in His.
      - apply (wf_prefix_is_Some fs D rel Hwf) in His. rewrite HD in His.
        by destruct His.
      - intros [k Hk]. apply (app_ne_self D (rel ++ k)); [by destruct rel|].
        by rewrite app_assoc. }
    unfold paths_to_delete.
    assert ((∅ : gset path) ∖ kept = ∅) as -> by set_solver.
    done.
Qed.

Section run_facts.
Context (now : Z) (fs : FS) (S D : path) (xp : option (gset string)) (tol : Z).
Context (Hinputs : mirror_inputs fs S D xp = true).

(** Under [mirror_inputs], what a run returns and what it leaves. *)
Lemma sync_exact :
  (∀ q, ¬ D `prefix_of` q → ¬ q `prefix_of` D →
        run_fs (sync_directories now fs S D false xp tol) !! q = fs !! q)
  ∧ (∀ q, S `prefix_of` q →
          run_fs (sync_directories now fs S D false xp tol) !! q = fs !! q)
  ∧ (∀ rel sz m, rel ∈ filter_source xp (get_relative_paths fs S false) →
       fs !! (S ++ rel) = Some (NDir sz m) →
       ∃ szd, run_fs (sync_directories now fs S D false xp tol) !! (D ++ rel)
              = Some (NDir szd (Meta (m_mtime m) (m_atime m) (S_IMODE (m_mode m)))))
  ∧ (∀ sz m, fs !! S = Some (NDir sz m) →
       ∃ szd, run_fs (sync_directories now fs S D false xp tol) !! D
              = Some (NDir szd (Meta (m_mtime m) (m_atime m) (S_IMODE (m_mode m)))))
  ∧ (∀ rel sm content, rel ∈ filter_source xp (get_relative_paths fs S false) →
       fs !! (S ++ rel) = Some (NFile sm content) →
       run_fs (sync_directories now fs S D false xp tol) !! (D ++ rel)
       = if should_copy fs (S ++ rel) (D ++ rel) tol
         then Some (NFile (Meta (m_mtime sm) (m_atime sm) (S_IMODE (m_mode sm))) content)
         else fs !! (D ++ rel))
  ∧ run_errors (sync_directories now fs S D false xp tol) = 0%nat
  ∧ run_result (sync_directories now fs S D false xp tol)
    = Done (count_paths (planned_mkdir fs S D)
              (filter_source xp (get_relative_paths fs S false)))
           (count_paths (planned_copy fs S D tol)
              (filter_source xp (get_relative_paths fs S false)))
           (count_paths (planned_delete fs D)
              (paths_to_delete
                 (if path_exists fs D then get_relative_paths fs D false else ∅)
                 (filter_source xp (get_relative_paths fs S false))))
           0.
Proof.
  destruct (sync_run_shape now fs S D xp tol Hinputs)
    as (fs0 & d & c & Hwf0 & Hnl0 & HD0 & Hfr0 & Hsame0 & Hd & Hc & Hinv1 & Hrun).
  rewrite Hrun. cbn [run_fs run_result run_errors]. clear Hrun.
  pose proof Hinputs as Hin.
  apply mirror_inputs_spec in Hin
    as (Hwf & Hnl & HvS & HvD & HS & HSD & HDS & Hok & Hka).
  pose proof (kept_source fs Hwf Hnl S HvS HS xp) as Hks.
  pose proof (kept_closed fs Hwf Hnl S HvS HS xp) as Hkc.
  pose proof (proj1 (kinds_agree_spec _ _ _ _) Hka) as Hkinds.
  pose proof (proj1 (dest_ok_spec fs D) Hok) as Hdok.
  assert (∀ rel : path, rel ∈ get_relative_paths fs0 D false
                        ↔ rel ≠ [] ∧ is_Some (fs0 !! (D ++ rel))) as Hscan0
    by (intros rel; by apply scan_spec).
  assert (dir_at fs D = true →
          get_relative_paths fs D false = get_relative_paths fs0 D false) as Hscan.
  { intros Hdir. by rewrite (Hsame0 Hdir). }
  clear Hka Hok.
  generalize dependent (get_relative_paths fs D false). intros scan Hscan.
  generalize dependent (get_relative_paths fs0 D false). intros scan0 Hd Hscan0 Hscan.
  generalize dependent (filter_source xp (get_relative_paths fs S false)).
  intros kept Hc Hinv1 Hks Hkc Hkinds Hd.
  destruct (run_final_facts now fs S D tol Hwf Hnl HvS HvD HS HSD HDS kept Hks Hkc Hkinds
              fs0 Hwf0 Hnl0 Hfr0 scan0 Hscan0 d Hd c Hc Hinv1)
    as (F1 & F2 & F3 & F4 & F5 & F6).
  destruct (run_copy_facts now fs S D tol Hwf Hnl HvD HSD HDS kept Hks Hkc Hkinds
              fs0 Hwf0 Hnl0 Hfr0 scan0 Hscan0 d Hd c Hc Hinv1)
    as (_ & _ & _ & _ & _ & Hcr & Hcp & _).
  split; [exact F1|]. split; [exact F2|]. split; [exact F3|]. split; [exact F4|].
  split; [exact F5|]. split; [reflexivity|].
  rewrite Hcr, Hcp, F6.
  by rewrite (deleted_count_dry fs fs0 D kept scan0 Hwf Hnl HvD Hdok Hfr0 Hsame0 Hscan0
                scan Hscan).
Qed.
End run_facts.


(* ===================================================================== *)
(** ** Further properties of a run *)
(* ===================================================================== *)

Lemma sync_dry_result (now : Z) (fs : FS) (S D : path) (xp : option (gset string))
    (tol : Z) :
  path_exists fs S = true → is_dir fs S = true → D ≠ S →
  is_path_inside D S = false → is_path_inside S D = false →
  sync_directories now fs S D true xp tol
  = Run fs 0
      (Done (count_paths (planned_mkdir fs S D)
               (filter_source xp (get_relative_paths fs S false)))
            (count_paths (planned_copy fs S D tol)
               (filter_source xp (get_relative_paths fs S false)))
            (count_paths (planned_delete fs D)
               (paths_to_delete
                  (if path_exists fs D then get_relative_paths fs D false else ∅)
                  (filter_source xp (get_relative_paths fs S false))))
            0).
Proof.
  intros He Hd Hne Hds Hsd.
  etrans.
  { eapply (sync_directories_phases now fs fs S D true xp tol);
      [exact He|exact Hd|exact Hne|exact Hds|exact Hsd| |reflexivity|reflexivity
      |reflexivity|reflexivity].
    by rewrite andb_false_r. }
  rewrite delete_phase_dry. cbn [ds_fs ds_errors ds_deleted].
  rewrite copy_phase_dry. reflexivity.
Qed.







(** X12. A dry run predicts the run: under the conditions of the
    convergence theorem the counters a dry run returns (directories to
    create, files to copy, items to delete, no failure) are the counters
    the run itself returns, and neither writes an error report. *)
Theorem dry_run_predicts_run (now now' : Z) (fs : FS) (S D : path)
    (xp : option (gset string)) (tol : Z) :
  mirror_inputs fs S D xp = true →
  run_result (sync_directories now fs S D false xp tol)
  = run_result (sync_directories now' fs S D true xp tol)
  ∧ run_errors (sync_directories now fs S D false xp tol) = 0%nat
  ∧ run_errors (sync_directories now' fs S D true xp tol) = 0%nat.
Proof.
  intros Hin.
  destruct (sync_exact now fs S D xp tol Hin) as (_ & _ & _ & _ & _ & Herr & Hres).
  apply mirror_inputs_spec in Hin
    as (Hwf & Hnl & HvS & HvD & HS & HSD & HDS & _).
  rewrite (sync_dry_result now' fs S D xp tol).
  - by rewrite Hres, Herr.
  - rewrite path_exists_literal by done. apply bool_decide_eq_true_2.
    by apply dir_at_is_Some.
  - by rewrite is_dir_literal.
  - intros ->. by apply HSD.
  - by apply is_path_inside_false.
  - by apply is_path_inside_false.
Qed.

Lemma dry_run_predicts_run_witness :
  mirror_inputs fs_drifted ["s"] ["d"] None = true
  ∧ run_result (sync_directories 1000 fs_drifted ["s"] ["d"] false None 2)
    = run_result (sync_directories 2000 fs_drifted ["s"] ["d"] true None 2).
Proof.
  assert (mirror_inputs fs_drifted ["s"] ["d"] None = true) as Hin
    by (vm_compute; reflexivity).
  split; [exact Hin|].
  apply (dry_run_predicts_run 1000 2000 fs_drifted ["s"] ["d"] None 2 Hin).
Defined.


(* ===================================================================== *)
(** ** Following links where there are none *)
(* ===================================================================== *)

Lemma walk_follow_irrelevant (fs : FS) (fuel : nat) (top : path) :
  well_formed fs = true → no_links fs = true → valid_path top = true →
  walk fuel fs true top = walk fuel fs false top.
Proof.
  intros Hwf Hnl. revert top. induction fuel as [|fuel IH]; intros top Hv; [done|].
  rewrite !walk_S, (scandir_literal fs Hwf Hnl top Hv).
  destruct (dir_at fs top); [|done]. f_equal. f_equal.
  apply list_fmap_ext. intros i d Hd.
  apply list_elem_of_lookup_2, list_elem_of_filter in Hd as [_ Hd].
  pose proof (valid_child fs Hwf top d Hd Hv) as Hvd.
  rewrite (is_symlink_literal fs Hwf Hnl _ Hvd). cbn [orb negb]. by apply IH.
Qed.

(** X13. On a well-formed file system without symbolic links the scan does
    not depend on [follow_symlinks]. *)
Theorem scanner_follow_irrelevant (fs : FS) (root : path) :
  well_formed fs = true → no_links fs = true → valid_path root = true →
  get_relative_paths fs root true = get_relative_paths fs root false.
Proof.
  intros Hwf Hnl Hv. rewrite !get_relative_paths_eq. unfold os_walk.
  by rewrite (walk_follow_irrelevant fs (walk_fuel fs) root Hwf Hnl Hv).
Qed.

Lemma scanner_follow_irrelevant_witness :
  get_relative_paths fs_drifted ["d"] true = get_relative_paths fs_drifted ["d"] false.
Proof.
  apply scanner_follow_irrelevant; vm_compute; reflexivity.
Defined.
